(** * The aspect pipeline of SAS (aspect/processing.cpp)

    A shallow embedding of the [Aspect] class: the histogram min/max,
    the chord limb finder, the centre estimator, the fiducial detector,
    the fiducial identifier, the mapping fit, the [Run] state machine and
    the getters, followed by the properties the specification states
    about them.

    Conventions.
    - C [int], [long] and [unsigned char] values are [Z]; the code keeps
      them far from their bounds, except where a narrowing is written out.
    - C [float] is IEEE binary32 and [double] is IEEE binary64, both as
      [spec_float] with the operations of [SpecFloat]; every conversion
      between the two formats and from or to integers is explicit.
    - OpenCV and libm routines whose bodies are not part of the repository
      are the fields of the class [OpenCV]. *)

From Stdlib Require Import ZArith List Bool Lia.
From Stdlib Require Import SpecFloat Sorted.
Import ListNotations.
Local Open Scope Z_scope.

(** ** Floating point *)

Module F32.
Definition prec := 24.
Definition emax := 128.
Definition of_Z (z : Z) : spec_float := binary_normalize prec emax z 0 false.
Definition add := SFadd prec emax.
Definition sub := SFsub prec emax.
Definition mul := SFmul prec emax.
Definition div := SFdiv prec emax.
Definition sqrt := SFsqrt prec emax.
(** narrowing conversion from binary64 *)
Definition of_double (d : spec_float) : spec_float :=
  match d with
  | S754_finite s m e => binary_round prec emax s m e
  | _ => d
  end.
End F32.

Module F64.
Definition prec := 53.
Definition emax := 1024.
Definition of_Z (z : Z) : spec_float := binary_normalize prec emax z 0 false.
Definition add := SFadd prec emax.
Definition sub := SFsub prec emax.
Definition mul := SFmul prec emax.
Definition div := SFdiv prec emax.
Definition sqrt := SFsqrt prec emax.
(** widening conversion from binary32 (exact) *)
Definition of_float (f : spec_float) : spec_float :=
  match f with
  | S754_finite s m e => binary_round prec emax s m e
  | _ => f
  end.
End F64.

Definition isfinite (f : spec_float) : bool :=
  match f with
  | S754_zero _ | S754_finite _ _ _ => true
  | _ => false
  end.

Definition isnan (f : spec_float) : bool :=
  match f with S754_nan => true | _ => false end.

(** [x >= y] and [x > y] of C, false on NaN *)
Definition SFgeb (x y : spec_float) : bool := SFleb y x.
Definition SFgtb (x y : spec_float) : bool := SFltb y x.

Definition INT_MIN : Z := - 2 ^ 31.

(** The integer part of a float, rounded toward zero; [None] when the
    float has none. *)
Definition trunc (f : spec_float) : option Z :=
  match f with
  | S754_zero _ => Some 0
  | S754_finite s m e =>
      let a := if 0 <=? e then Z.pos m * 2 ^ e else Z.pos m / 2 ^ (- e) in
      Some (if s then - a else a)
  | _ => None
  end.

(** [(int) f]: truncation; a value that does not fit (undefined in C++)
    is the "integer indefinite" of the SSE conversion. *)
Definition to_int (f : spec_float) : Z :=
  match trunc f with
  | Some z => if (INT_MIN <=? z) && (z <? 2 ^ 31) then z else INT_MIN
  | None => INT_MIN
  end.

(** [(unsigned char) f]: the low byte of the truncated value. *)
Definition to_uchar (f : spec_float) : Z := to_int f mod 256.

(** [round(f)] of libm as an integer: nearest, halves away from zero. *)
Definition round_half_away (f : spec_float) : Z :=
  match f with
  | S754_finite s m e =>
      let a := if 0 <=? e then Z.pos m * 2 ^ e
               else (Z.pos m * 2 + 2 ^ (- e)) / 2 ^ (- e + 1) in
      if s then - a else a
  | _ => 0
  end.

(** ** Points, lists of points, matrices *)

Record Point2f := mkPoint2f { px : spec_float; py : spec_float }.
Record Point2i := mkPoint2i { ix : Z; iy : Z }.
Record Range := mkRange { r_start : Z; r_end : Z }.
Record Size := mkSize { width : Z; height : Z }.

Definition CoordList := list Point2f.

(** Modelled from the spec: [CoordList] is declared in utilities.hpp,
    which is not among the sources; section 3 describes it as an ordered
    sequence of PixelPoints that supports push.  [list.add(x, y)] pushes
    the point (x, y). *)
Definition CoordList_add (l : CoordList) (x y : spec_float) : CoordList :=
  l ++ [mkPoint2f x y].
Definition IndexList := list Point2i.

(** A matrix is the list of its rows; a view made with [frame(rows, cols)]
    is modelled by the pixels it shows (nothing in this file writes to a
    frame buffer). *)
Definition Mat (A : Type) := list (list A).

Definition zlength {A} (l : list A) : Z := Z.of_nat (length l).

Definition mat_rows {A} (m : Mat A) : Z := zlength m.
Definition mat_cols {A} (m : Mat A) : Z :=
  match m with
  | [] => 0
  | r :: _ => zlength r
  end.
Definition mat_empty {A} (m : Mat A) : bool :=
  (mat_rows m * mat_cols m =? 0).
Definition mat_size {A} (m : Mat A) : Size := mkSize (mat_cols m) (mat_rows m).

Definition slice {A} (r : Range) (l : list A) : list A :=
  firstn (Z.to_nat (r_end r - r_start r)) (skipn (Z.to_nat (r_start r)) l).

(** [m(rowRange, colRange)] *)
Definition submat {A} (m : Mat A) (rowRange colRange : Range) : Mat A :=
  map (slice colRange) (slice rowRange m).

Definition znth {A} (d : A) (l : list A) (i : Z) : A :=
  if i <? 0 then d else nth (Z.to_nat i) l d.

Definition mat_row {A} (m : Mat A) (r : Z) : list A := znth [] m r.
Definition mat_col {A} (d : A) (m : Mat A) (c : Z) : list A :=
  map (fun row => znth d row c) m.
Definition mat_at {A} (d : A) (m : Mat A) (r c : Z) : A :=
  znth d (znth [] m r) c.

(** ** Pipeline states

    The enumeration [AspectCode] is declared in processing.hpp, which
    is not among the sources; its members are the names processing.cpp
    uses. *)
Inductive AspectCode :=
| NO_ERROR
| MAPPING_ERROR | MAPPING_ILL_CONDITIONED
| ID_ERROR | FEW_IDS | NO_IDS
| FIDUCIAL_ERROR | FEW_FIDUCIALS | NO_FIDUCIALS
| SOLAR_IMAGE_OFFSET_OUT_OF_BOUNDS | SOLAR_IMAGE_SMALL | SOLAR_IMAGE_EMPTY
| CENTER_ERROR | CENTER_ERROR_LARGE | CENTER_OUT_OF_BOUNDS
| LIMB_ERROR | FEW_LIMB_CROSSINGS | NO_LIMB_CROSSINGS
| DYNAMIC_RANGE_LOW | MIN_MAX_BAD
| FRAME_EMPTY
| STALE_DATA.

Definition AspectCode_eqb (a b : AspectCode) : bool :=
  match a, b with
  | NO_ERROR, NO_ERROR | MAPPING_ERROR, MAPPING_ERROR
  | MAPPING_ILL_CONDITIONED, MAPPING_ILL_CONDITIONED
  | ID_ERROR, ID_ERROR | FEW_IDS, FEW_IDS | NO_IDS, NO_IDS
  | FIDUCIAL_ERROR, FIDUCIAL_ERROR | FEW_FIDUCIALS, FEW_FIDUCIALS
  | NO_FIDUCIALS, NO_FIDUCIALS
  | SOLAR_IMAGE_OFFSET_OUT_OF_BOUNDS, SOLAR_IMAGE_OFFSET_OUT_OF_BOUNDS
  | SOLAR_IMAGE_SMALL, SOLAR_IMAGE_SMALL
  | SOLAR_IMAGE_EMPTY, SOLAR_IMAGE_EMPTY | CENTER_ERROR, CENTER_ERROR
  | CENTER_ERROR_LARGE, CENTER_ERROR_LARGE
  | CENTER_OUT_OF_BOUNDS, CENTER_OUT_OF_BOUNDS | LIMB_ERROR, LIMB_ERROR
  | FEW_LIMB_CROSSINGS, FEW_LIMB_CROSSINGS
  | NO_LIMB_CROSSINGS, NO_LIMB_CROSSINGS
  | DYNAMIC_RANGE_LOW, DYNAMIC_RANGE_LOW | MIN_MAX_BAD, MIN_MAX_BAD
  | FRAME_EMPTY, FRAME_EMPTY | STALE_DATA, STALE_DATA => true
  | _, _ => false
  end.

(** ** Robust minimum and maximum ([calcMinMax])

    [cv::calcHist] with 256 unit bins over [0, 256): bin [j] counts the
    pixels of value [j]. *)
Definition count_value (j : Z) (frame : Mat Z) : Z :=
  zlength (filter (Z.eqb j) (concat frame)).

Record MinMaxLoop := mkMinMaxLoop {
  mm_total : Z;
  mm_min : Z; mm_min_found : bool;
  mm_max : Z; mm_max_found : bool }.

(** The two tests of the loop body.  [total >= 0.005*len] compares in
    double and [(long)(0.995*len)] truncates a double product; for every
    [len] below 2^40 the roundings of the constants and of the products
    change neither result, so both are written with their exact values:
    [200*total >= len] and [total >= (995*len) / 1000].

    [total] is a long to which the loop adds a float bin count: the sum
    is made in binary32 and converted back.  Every total is at most the
    pixel count, and binary32 holds every integer up to 2^24, so the sum
    is exact for frames of at most 2^24 pixels; the totals below are the
    exact ones, and every property stated of the values [calcMinMax]
    returns is stated for such frames. *)
Definition reaches_low (total len : Z) : bool := len <=? 200 * total.
Definition reaches_high (total len : Z) : bool := (995 * len) / 1000 <=? total.

Definition calcMinMax_body (frame : Mat Z) (len j : Z) (st : MinMaxLoop)
  : MinMaxLoop :=
  let total := mm_total st + count_value j frame in
  let '(mn, mnf) :=
    if negb (mm_min_found st) && reaches_low total len
    then (j, true) else (mm_min st, mm_min_found st) in
  let '(mx, mxf) :=
    if negb (mm_max_found st) && reaches_high total len
    then (j, true) else (mm_max st, mm_max_found st) in
  mkMinMaxLoop total mn mnf mx mxf.

(** The [while] loop; [j] is a [uint8_t], so [j < hist.rows] is always
    true and [j++] wraps from 255 to 0: the loop ends only when both
    values are found.  [None] is fuel exhaustion. *)
Fixpoint calcMinMax_loop (fuel : nat) (frame : Mat Z) (len j : Z)
  (st : MinMaxLoop) : option MinMaxLoop :=
  if mm_min_found st && mm_max_found st then Some st
  else match fuel with
       | O => None
       | S fuel' =>
           calcMinMax_loop fuel' frame len ((j + 1) mod 256)
             (calcMinMax_body frame len j st)
       end.

Definition calcMinMax_init : MinMaxLoop := mkMinMaxLoop 0 255 false 0 false.

(** [calcMinMax(frame, min, max)]: the pair [(min, max)]. *)
Definition calcMinMax_opt (frame : Mat Z) : option (Z * Z) :=
  match calcMinMax_loop 256 frame (mat_rows frame * mat_cols frame) 0
          calcMinMax_init with
  | Some st => Some (mm_min st, mm_max st)
  | None => None
  end.

Definition calcMinMax (frame : Mat Z) : Z * Z :=
  match calcMinMax_opt frame with
  | Some r => r
  | None => (255, 0)
  end.

(** A frame as [cv::Mat] of type CV_8UC1 holds it: rows of one length,
    pixels in [0, 255]. *)
Definition is_uchar (v : Z) : Prop := 0 <= v < 256.
Definition mat_wf {A} (m : Mat A) : Prop :=
  Forall (fun row => zlength row = mat_cols m) m.
Definition frame_wf (frame : Mat Z) : Prop :=
  mat_wf frame /\ Forall (Forall is_uchar) frame.

(** ** Small utilities *)

Definition SafeRange (start stop size : Z) : Range :=
  mkRange (if 0 <? start then start else 0)
          (if stop <? size then stop else size).

(** [fiducialIDtoScreen]: integer arithmetic, converted to float on
    assignment to the [Point2f]. *)
Definition screen_axis (a b : Z) (sgn : Z) : Z :=
  6 * ((if 0 <=? a then 45 * a + 3 * a * (a - 1)
        else 48 * a - 3 * a * (a + 1)) + sgn * 15 * b).

Definition fiducialIDtoScreen (id : Point2i) : Point2f :=
  mkPoint2f (F32.of_Z (screen_axis (ix id) (iy id) (-1)))
            (F32.of_Z (screen_axis (iy id) (ix id) 1)).

(** [Mode]: the [std::map] is an association list kept sorted by key, so
    that the scan visits keys in increasing order. *)
Fixpoint freq_incr (v : Z) (m : list (Z * Z)) : list (Z * Z) :=
  match m with
  | [] => [(v, 1)]
  | (k, c) :: m' =>
      if v <? k then (v, 1) :: m
      else if v =? k then (k, c + 1) :: m'
      else (k, c) :: freq_incr v m'
  end.

Definition frequencyCount (data : list Z) : list (Z * Z) :=
  fold_left (fun m v => freq_incr v m) data [].

Definition Mode_scan (acc : Z * list Z) (kc : Z * Z) : Z * list Z :=
  let '(currentMax, mode) := acc in
  let '(k, c) := kc in
  if currentMax <? c then (c, [k])
  else if c =? currentMax then (currentMax, mode ++ [k])
  else (currentMax, mode).

Definition Mode (data : list Z) : list Z :=
  snd (fold_left Mode_scan (frequencyCount data) (0, [])).


(** ** The [Aspect] object

    The configuration parameters; [Run] never writes them. *)
Record Config := mkConfig {
  initialNumChords : Z;
  chordsPerAxis : Z;
  limbThreshold : spec_float;
  diskThreshold : spec_float;
  solarRadius : Z;
  radiusMargin : spec_float;
  errorLimit : spec_float;
  limbFitWidth : Z;
  fiducialLength : Z;
  fiducialWidth : Z;
  fiducialThreshold : spec_float;
  minLimbWidth : Z;
  numFiducials : Z;
  fiducialSpacing : spec_float;
  fiducialSpacingTol : spec_float;
  fiducialTwist : spec_float;
  mDistances : list spec_float;
  nDistances : list spec_float }.

(** The data members [Run] and the stages read and write.  The class
    is declared in processing.hpp, which is not among the sources: the
    members are those processing.cpp names, with the types its
    assignments and casts give them. *)
Record Aspect := mkAspect {
  cfg : Config;
  state : AspectCode;
  frame : Mat Z;
  frameSize : Size;
  frameMin : Z;
  frameMax : Z;
  solarImage : Mat Z;
  solarImageSize : Size;
  solarImageOffset : Point2i;
  pixelCenter : Point2f;
  pixelError : Point2f;
  kernel : Mat spec_float;
  mapping : list spec_float;
  conditionNumbers : list spec_float;
  limbCrossings : CoordList;
  slopes : list spec_float;
  pixelFiducials : CoordList;
  fiducialIDs : IndexList;
  rowPairs : IndexList;
  colPairs : IndexList }.

Definition set_state (v : AspectCode) (s : Aspect) : Aspect :=
  mkAspect (cfg s) v (frame s) (frameSize s) (frameMin s) (frameMax s) (solarImage s) (solarImageSize s) (solarImageOffset s) (pixelCenter s) (pixelError s) (kernel s) (mapping s) (conditionNumbers s) (limbCrossings s) (slopes s) (pixelFiducials s) (fiducialIDs s) (rowPairs s) (colPairs s).
Definition set_frame (v : Mat Z) (s : Aspect) : Aspect :=
  mkAspect (cfg s) (state s) v (frameSize s) (frameMin s) (frameMax s) (solarImage s) (solarImageSize s) (solarImageOffset s) (pixelCenter s) (pixelError s) (kernel s) (mapping s) (conditionNumbers s) (limbCrossings s) (slopes s) (pixelFiducials s) (fiducialIDs s) (rowPairs s) (colPairs s).
Definition set_frameSize (v : Size) (s : Aspect) : Aspect :=
  mkAspect (cfg s) (state s) (frame s) v (frameMin s) (frameMax s) (solarImage s) (solarImageSize s) (solarImageOffset s) (pixelCenter s) (pixelError s) (kernel s) (mapping s) (conditionNumbers s) (limbCrossings s) (slopes s) (pixelFiducials s) (fiducialIDs s) (rowPairs s) (colPairs s).
Definition set_frameMin (v : Z) (s : Aspect) : Aspect :=
  mkAspect (cfg s) (state s) (frame s) (frameSize s) v (frameMax s) (solarImage s) (solarImageSize s) (solarImageOffset s) (pixelCenter s) (pixelError s) (kernel s) (mapping s) (conditionNumbers s) (limbCrossings s) (slopes s) (pixelFiducials s) (fiducialIDs s) (rowPairs s) (colPairs s).
Definition set_frameMax (v : Z) (s : Aspect) : Aspect :=
  mkAspect (cfg s) (state s) (frame s) (frameSize s) (frameMin s) v (solarImage s) (solarImageSize s) (solarImageOffset s) (pixelCenter s) (pixelError s) (kernel s) (mapping s) (conditionNumbers s) (limbCrossings s) (slopes s) (pixelFiducials s) (fiducialIDs s) (rowPairs s) (colPairs s).
Definition set_solarImage (v : Mat Z) (s : Aspect) : Aspect :=
  mkAspect (cfg s) (state s) (frame s) (frameSize s) (frameMin s) (frameMax s) v (solarImageSize s) (solarImageOffset s) (pixelCenter s) (pixelError s) (kernel s) (mapping s) (conditionNumbers s) (limbCrossings s) (slopes s) (pixelFiducials s) (fiducialIDs s) (rowPairs s) (colPairs s).
Definition set_solarImageSize (v : Size) (s : Aspect) : Aspect :=
  mkAspect (cfg s) (state s) (frame s) (frameSize s) (frameMin s) (frameMax s) (solarImage s) v (solarImageOffset s) (pixelCenter s) (pixelError s) (kernel s) (mapping s) (conditionNumbers s) (limbCrossings s) (slopes s) (pixelFiducials s) (fiducialIDs s) (rowPairs s) (colPairs s).
Definition set_solarImageOffset (v : Point2i) (s : Aspect) : Aspect :=
  mkAspect (cfg s) (state s) (frame s) (frameSize s) (frameMin s) (frameMax s) (solarImage s) (solarImageSize s) v (pixelCenter s) (pixelError s) (kernel s) (mapping s) (conditionNumbers s) (limbCrossings s) (slopes s) (pixelFiducials s) (fiducialIDs s) (rowPairs s) (colPairs s).
Definition set_pixelCenter (v : Point2f) (s : Aspect) : Aspect :=
  mkAspect (cfg s) (state s) (frame s) (frameSize s) (frameMin s) (frameMax s) (solarImage s) (solarImageSize s) (solarImageOffset s) v (pixelError s) (kernel s) (mapping s) (conditionNumbers s) (limbCrossings s) (slopes s) (pixelFiducials s) (fiducialIDs s) (rowPairs s) (colPairs s).
Definition set_pixelError (v : Point2f) (s : Aspect) : Aspect :=
  mkAspect (cfg s) (state s) (frame s) (frameSize s) (frameMin s) (frameMax s) (solarImage s) (solarImageSize s) (solarImageOffset s) (pixelCenter s) v (kernel s) (mapping s) (conditionNumbers s) (limbCrossings s) (slopes s) (pixelFiducials s) (fiducialIDs s) (rowPairs s) (colPairs s).
Definition set_mapping (v : list spec_float) (s : Aspect) : Aspect :=
  mkAspect (cfg s) (state s) (frame s) (frameSize s) (frameMin s) (frameMax s) (solarImage s) (solarImageSize s) (solarImageOffset s) (pixelCenter s) (pixelError s) (kernel s) v (conditionNumbers s) (limbCrossings s) (slopes s) (pixelFiducials s) (fiducialIDs s) (rowPairs s) (colPairs s).
Definition set_conditionNumbers (v : list spec_float) (s : Aspect) : Aspect :=
  mkAspect (cfg s) (state s) (frame s) (frameSize s) (frameMin s) (frameMax s) (solarImage s) (solarImageSize s) (solarImageOffset s) (pixelCenter s) (pixelError s) (kernel s) (mapping s) v (limbCrossings s) (slopes s) (pixelFiducials s) (fiducialIDs s) (rowPairs s) (colPairs s).
Definition set_limbCrossings (v : CoordList) (s : Aspect) : Aspect :=
  mkAspect (cfg s) (state s) (frame s) (frameSize s) (frameMin s) (frameMax s) (solarImage s) (solarImageSize s) (solarImageOffset s) (pixelCenter s) (pixelError s) (kernel s) (mapping s) (conditionNumbers s) v (slopes s) (pixelFiducials s) (fiducialIDs s) (rowPairs s) (colPairs s).
Definition set_slopes (v : list spec_float) (s : Aspect) : Aspect :=
  mkAspect (cfg s) (state s) (frame s) (frameSize s) (frameMin s) (frameMax s) (solarImage s) (solarImageSize s) (solarImageOffset s) (pixelCenter s) (pixelError s) (kernel s) (mapping s) (conditionNumbers s) (limbCrossings s) v (pixelFiducials s) (fiducialIDs s) (rowPairs s) (colPairs s).
Definition set_pixelFiducials (v : CoordList) (s : Aspect) : Aspect :=
  mkAspect (cfg s) (state s) (frame s) (frameSize s) (frameMin s) (frameMax s) (solarImage s) (solarImageSize s) (solarImageOffset s) (pixelCenter s) (pixelError s) (kernel s) (mapping s) (conditionNumbers s) (limbCrossings s) (slopes s) v (fiducialIDs s) (rowPairs s) (colPairs s).
Definition set_fiducialIDs (v : IndexList) (s : Aspect) : Aspect :=
  mkAspect (cfg s) (state s) (frame s) (frameSize s) (frameMin s) (frameMax s) (solarImage s) (solarImageSize s) (solarImageOffset s) (pixelCenter s) (pixelError s) (kernel s) (mapping s) (conditionNumbers s) (limbCrossings s) (slopes s) (pixelFiducials s) v (rowPairs s) (colPairs s).
Definition set_rowPairs (v : IndexList) (s : Aspect) : Aspect :=
  mkAspect (cfg s) (state s) (frame s) (frameSize s) (frameMin s) (frameMax s) (solarImage s) (solarImageSize s) (solarImageOffset s) (pixelCenter s) (pixelError s) (kernel s) (mapping s) (conditionNumbers s) (limbCrossings s) (slopes s) (pixelFiducials s) (fiducialIDs s) v (colPairs s).
Definition set_colPairs (v : IndexList) (s : Aspect) : Aspect :=
  mkAspect (cfg s) (state s) (frame s) (frameSize s) (frameMin s) (frameMax s) (solarImage s) (solarImageSize s) (solarImageOffset s) (pixelCenter s) (pixelError s) (kernel s) (mapping s) (conditionNumbers s) (limbCrossings s) (slopes s) (pixelFiducials s) (fiducialIDs s) (rowPairs s) v.

(** ** Routines outside the repository

    OpenCV and libm calls whose results the pipeline consumes.  Doubles
    and floats are both [spec_float]; the comments give the format. *)
Class OpenCV := {
  (** [cv::solve(A, B, X, cv::DECOMP_CHOLESKY)] on the 2x2 float system
      of [LinearFit]: arguments A(0,0) A(0,1) A(1,0) A(1,1) B(0) B(1),
      result (X(0), X(1)), floats *)
  cv_solve : spec_float -> spec_float -> spec_float -> spec_float ->
             spec_float -> spec_float -> spec_float * spec_float;
  (** [matchTemplate(input, kernel, correlation, CV_TM_CCORR)], floats *)
  cv_matchTemplate : Mat spec_float -> Mat spec_float -> Mat spec_float;
  (** [cv::meanStdDev(correlation, mean, stddev)]: (mean[0], stddev[0]),
      doubles *)
  cv_meanStdDev : Mat spec_float -> spec_float * spec_float;
  (** the matrix [GenerateKernel] leaves in [kernel] for a fiducial
      length and width (its body is OpenCV and libm calls throughout) *)
  cv_GenerateKernel : Z -> Z -> Mat spec_float;
  (** [std::cos] and [std::sin] on floats *)
  libm_cos : spec_float -> spec_float;
  libm_sin : spec_float -> spec_float }.

(** ** Memory outside a chord

    A chord is a view of one row or one column of an image that lies in a
    buffer the pipeline does not own.  [chord.at<unsigned char>(K)] on a
    chord of K pixels reads the byte that follows the view: the pixel
    that comes next in the buffer, or whatever lies behind the buffer.
    [past_end dim pos] is that byte, during one call of [Run], for the
    chord at position [pos] of dimension [dim] ([true]: the row chords).
    Nothing relates the bytes of one call to those of another, nor the
    byte behind one chord to the pixels of the chord. *)
Class Memory := { past_end : bool -> Z -> Z }.

(** Float constants of the constructor: a decimal literal is a double,
    narrowed on assignment. *)
Definition float_of_ratio (n d : Z) : spec_float :=
  F32.of_double (F64.div (F64.of_Z n) (F64.of_Z d)).

Definition f0 : spec_float := F32.of_Z 0.
Definition fm1 : spec_float := F32.of_Z (-1).

(** [mDistances] and [nDistances] of the constructor:
    [(84-k*6)*fiducialSpacing/15] for k < 7, [(45+(k-7)*6)*fiducialSpacing/15]
    for 7 <= k < 14. *)
Definition distance_entry (spacing : spec_float) (k : Z) : spec_float :=
  let n := if k <? 7 then 84 - k * 6 else 45 + (k - 7) * 6 in
  F32.div (F32.mul (F32.of_Z n) spacing) (F32.of_Z 15).

Fixpoint zseq (start : Z) (n : nat) : list Z :=
  match n with
  | O => []
  | S n' => start :: zseq (start + 1) n'
  end.

Definition distance_table (spacing : spec_float) : list spec_float :=
  map (distance_entry spacing) (zseq 0 14).

Definition default_config : Config :=
  let spacing := float_of_ratio 156 10 in
  {| initialNumChords := 30;
     chordsPerAxis := 10;
     limbThreshold := float_of_ratio 25 100;
     diskThreshold := float_of_ratio 75 100;
     solarRadius := 98;
     radiusMargin := float_of_ratio 25 100;
     errorLimit := F32.of_Z 50;
     limbFitWidth := 2;
     fiducialLength := 15;
     fiducialWidth := 2;
     fiducialThreshold := F32.of_Z 5;
     minLimbWidth := 15;
     numFiducials := 12;
     fiducialSpacing := spacing;
     fiducialSpacingTol := float_of_ratio 15 10;
     fiducialTwist := f0;
     mDistances := distance_table spacing;
     nDistances := distance_table spacing |}.

Section Pipeline.
Context {cv : OpenCV}.

(** [Aspect::Aspect()] *)
Definition Aspect_new : Aspect :=
  {| cfg := default_config;
     state := STALE_DATA;
     frame := [];
     frameSize := mkSize 0 0;
     frameMin := 255;
     frameMax := 0;
     solarImage := [];
     solarImageSize := mkSize 0 0;
     solarImageOffset := mkPoint2i 0 0;
     pixelCenter := mkPoint2f fm1 fm1;
     pixelError := mkPoint2f f0 f0;
     kernel := cv_GenerateKernel 15 2;
     mapping := repeat f0 4;
     conditionNumbers := [];
     limbCrossings := [];
     slopes := [];
     pixelFiducials := [];
     fiducialIDs := [];
     rowPairs := [];
     colPairs := [] |}.

(** [Aspect::LoadFrame] *)
Definition LoadFrame (inputFrame : Mat Z) (s : Aspect) : Aspect :=
  if mat_empty inputFrame then set_state FRAME_EMPTY s
  else if (mat_cols inputFrame =? 0) || (mat_rows inputFrame =? 0)
  then set_state FRAME_EMPTY s
  else set_state NO_ERROR
         (set_frameSize (mat_size inputFrame) (set_frame inputFrame s)).

(** ** [LinearFit]

    [fit] is written only when the two vectors have one length; the
    eigenvalues asked of [cv::eigen] are used for nothing but a local
    variable and are left out. *)
Definition LinearFit_sums (x y : list spec_float)
  : spec_float * spec_float * spec_float * spec_float :=
  fold_left
    (fun '(a00, a01, b1, b0) '(xl, yl) =>
       (F32.add a00 (F32.mul xl xl), F32.add a01 xl,
        F32.add b1 yl, F32.add b0 (F32.mul xl yl)))
    (combine x y) (f0, f0, f0, f0).

Definition LinearFit (x y fit : list spec_float) : list spec_float :=
  if negb (length x =? length y)%nat then fit
  else
    let N := F32.of_Z (zlength x) in
    let '(a00, a01, b1, b0) := LinearFit_sums x y in
    let a10 := a01 in
    let '(X0, X1) := cv_solve a00 a01 a10 N b0 b1 in
    [X1; X0].

Definition fit_at (fit : list spec_float) (i : nat) : spec_float :=
  nth i fit S754_nan.

(** ** The chord limb finder ([FindLimbCrossings]) *)

(** [chord.at<unsigned char>(l)]: a pixel of the chord, or [past], the
    byte that follows the chord in memory, for an index that is not below
    its length (the code reaches no index above the length). *)
Definition chord_at (chord : list Z) (past : Z) (l : Z) : Z :=
  if (0 <=? l) && (l <? zlength chord) then znth 0 chord l
  else past.

Definition lowerThreshold (s : Aspect) : spec_float :=
  F32.add (F32.of_Z (frameMin s))
    (F32.mul (limbThreshold (cfg s)) (F32.of_Z (frameMax s - frameMin s))).
Definition upperThreshold (s : Aspect) : spec_float :=
  F32.add (F32.of_Z (frameMin s))
    (F32.mul (diskThreshold (cfg s)) (F32.of_Z (frameMax s - frameMin s))).

(** The scanning loop, [k] from 1 to K-1: the list of signed edges and
    the chord maximum. *)
Fixpoint scan_edges (pixelLowerThreshold k lastValue pixelMax : Z)
  (rest edges : list Z) : list Z * Z :=
  match rest with
  | [] => (edges, pixelMax)
  | thisValue :: rest' =>
      let pixelMax' := if pixelMax <? thisValue then thisValue else pixelMax in
      let edges' :=
        if (lastValue <=? pixelLowerThreshold)
           && (pixelLowerThreshold <? thisValue)
        then edges ++ [k]
        else if (pixelLowerThreshold <? lastValue)
                && (thisValue <=? pixelLowerThreshold)
        then edges ++ [- (k - 1)]
        else edges in
      scan_edges pixelLowerThreshold (k + 1) thisValue pixelMax' rest' edges'
  end.

Definition scan_chord (s : Aspect) (chord : list Z) (past : Z)
  : list Z * Z :=
  let first := chord_at chord past 0 in
  scan_edges (to_uchar (lowerThreshold s)) 1 first first (tl chord) [].

(** Flags of the many-edges branch: an edge is flagged when it is within
    [minLimbWidth] of its predecessor or of its successor. *)
Definition too_close (minLimbWidth a b : Z) : bool :=
  Z.abs (Z.abs b - Z.abs a) <=? minLimbWidth.

Fixpoint edge_flags (minLimbWidth : Z) (prev : option Z) (edges : list Z)
  : list bool :=
  match edges with
  | [] => []
  | e :: rest =>
      let before := match prev with
                    | Some p => too_close minLimbWidth p e
                    | None => false
                    end in
      let after := match rest with
                   | n :: _ => too_close minLimbWidth e n
                   | [] => false
                   end in
      (before || after) :: edge_flags minLimbWidth (Some e) rest
  end.

(** The erase loop removes exactly the flagged entries. *)
Definition remove_flagged (edges : list Z) (flags : list bool) : list Z :=
  map fst (filter (fun ef => negb (snd ef)) (combine edges flags)).

(** The edge list after the one-edge or many-edges branch; [None] is
    [return -1]. *)
Definition select_edges (s : Aspect) (K : Z) (edges : list Z)
  : option (list Z) :=
  match edges with
  | [] => None
  | [e] =>
      if (Z.abs e <? 2 * solarRadius (cfg s)) && (e <? 0)
      then Some [-1; - Z.abs e]
      else if (K - 2 * solarRadius (cfg s) <? Z.abs e) && (0 <? e)
      then Some [Z.abs e; - K]
      else None
  | _ =>
      Some (remove_flagged edges
              (edge_flags (minLimbWidth (cfg s)) None edges))
  end.

(** The window of the fit, [min] and [max] of the source. *)
Definition fit_window (K edge w : Z) : Z * Z :=
  ((if edge - w <? 0 then 0 else edge - w),
   (if K <? edge + w then K else edge + w)).

(** The indices [l] of the loop [for (l = min; l <= max; l++)]. *)
Definition fit_indices (K edge w : Z) : list Z :=
  let '(mn, mx) := fit_window K edge w in
  zseq mn (Z.to_nat (mx - mn + 1)).

Inductive Refinement :=
| Refined (fittedEdge : spec_float) (slope : spec_float)
| Rejected (code : Z).

(** The fit of one real edge: [fittedEdge] is a double. *)
Definition refine_edge (s : Aspect) (chord : list Z) (past : Z) (K edge : Z)
  (fit : list spec_float) : Refinement * list spec_float :=
  let '(mn, mx) := fit_window K edge (limbFitWidth (cfg s)) in
  if mx - mn + 1 <? 2 then (Rejected (-1), fit)
  else
    let ls := fit_indices K edge (limbFitWidth (cfg s)) in
    let x := map (fun l => F32.of_Z (l - edge)) ls in
    let y := map (fun l => F32.of_Z (chord_at chord past l)) ls in
    let fit' := LinearFit x y fit in
    let fittedEdge :=
      F64.of_float
        (F32.add (F32.div (F32.sub (lowerThreshold s) (fit_at fit' 0))
                          (fit_at fit' 1))
                 (F32.of_Z edge)) in
    if negb (isfinite fittedEdge) then (Rejected (-2), fit')
    else if SFltb fittedEdge (F64.of_Z mn) || SFgtb fittedEdge (F64.of_Z mx)
    then (Rejected (-3), fit')
    else (Refined fittedEdge (SFabs (fit_at fit' 1)), fit').

(** The result of [FindLimbCrossings]: the return code, the vector
    [crossings] and the member [slopes] as the call leaves them. *)
Record LimbResult := mkLimbResult {
  lr_code : Z;
  lr_crossings : list spec_float;
  lr_slopes : list spec_float }.

(** One turn of the loop [for (k = 0; k < 2; k++)] over the two edges:
    either a crossing is pushed (with [slopes] and the local [fit] as
    they are then) or the function returns. *)
Inductive EdgeStep :=
| Pushed (crossing : spec_float) (slopes fit : list spec_float)
| Returned (code : Z).

Definition edge_step (s : Aspect) (chord : list Z) (past : Z) (K k e : Z)
  (slopes0 fit : list spec_float) : EdgeStep :=
  if (k =? 0) && (e =? -1) then Pushed (F32.of_Z (-1)) slopes0 fit
  else if (k =? 1) && (e =? - K) then Pushed (F32.of_Z K) slopes0 fit
  else
    match refine_edge s chord past K (Z.abs e) fit with
    | (Rejected c, _) => Returned c
    | (Refined fittedEdge slope, fit') =>
        Pushed (F32.of_double fittedEdge) (slopes0 ++ [slope]) fit'
    end.

Definition fit_edges (s : Aspect) (chord : list Z) (past : Z) (K e0 e1 : Z)
  (slopes0 : list spec_float) : LimbResult :=
  match edge_step s chord past K 0 e0 slopes0 [] with
  | Returned c => mkLimbResult c [] slopes0
  | Pushed c0 slopes1 fit1 =>
      match edge_step s chord past K 1 e1 slopes1 fit1 with
      | Returned c => mkLimbResult c [c0] slopes1
      | Pushed c1 slopes2 _ => mkLimbResult 0 [c0; c1] slopes2
      end
  end.

(** [FindLimbCrossings(chord, crossings)]; [past] is the byte that
    follows the chord in memory. *)
Definition FindLimbCrossings (s : Aspect) (chord : list Z) (past : Z)
  (crossings slopes0 : list spec_float) : LimbResult :=
  let K := zlength chord in
  let '(edges, pixelMax) := scan_chord s chord past in
  if SFltb (F32.of_Z pixelMax) (upperThreshold s)
  then mkLimbResult (-1) crossings slopes0
  else
    match select_edges s K edges with
    | None => mkLimbResult (-1) crossings slopes0
    | Some [e0; e1] =>
        if (-1 <=? e0) && (e1 <? 0)
        then fit_edges s chord past K e0 e1 slopes0
        else mkLimbResult (-1) crossings slopes0
    | Some _ => mkLimbResult (-1) crossings slopes0
    end.

(** ** The centre estimator ([FindPixelCenter]) *)

Context {mem : Memory}.

Definition center_out_of_frame (s : Aspect) : bool :=
  SFltb (px (pixelCenter s)) (F32.of_Z 0)
  || SFgeb (px (pixelCenter s)) (F32.of_Z (width (frameSize s)))
  || SFltb (py (pixelCenter s)) (F32.of_Z 0)
  || SFgeb (py (pixelCenter s)) (F32.of_Z (height (frameSize s)))
  || negb (isfinite (px (pixelCenter s)))
  || negb (isfinite (py (pixelCenter s))).

(** [search]: no usable centre from the previous call, or no sub-image. *)
Definition search_mode (s : Aspect) : bool :=
  center_out_of_frame s || mat_empty (solarImage s).

(** [rows] or [cols]: [start + k*step] for k < limit, with
    [step = n/limit] and [start = step/2] (integer divisions).  With
    [limit = 0] the C++ division traps; here the list is empty. *)
Definition chord_positions (n limit : Z) : list Z :=
  let step := Z.quot n limit in
  let start := Z.quot step 2 in
  map (fun k => start + k * step) (zseq 0 (Z.to_nat limit)).

Record CenterLoop := mkCenterLoop {
  cl_limbCrossings : CoordList;
  cl_slopes : list spec_float;
  cl_midpoints : list spec_float }.

(** The body of the loop over the chords of one dimension; [dim = true]
    is [dim == 1] (row chords, crossings along x). *)
Definition chord_step (s : Aspect) (search : bool) (input : Mat Z)
  (dim : bool) (acc : CenterLoop) (pos : Z) : CenterLoop :=
  let chord := if dim then mat_row input pos else mat_col 0 input pos in
  let r := FindLimbCrossings s chord (past_end dim pos) [] (cl_slopes acc) in
  let skip := mkCenterLoop (cl_limbCrossings acc) (lr_slopes r)
                (cl_midpoints acc) in
  if (lr_code r =? -1) || (lr_code r =? -2) || (lr_code r =? -3) then skip
  else
    match lr_crossings r with
    | [c0; c1] =>
        if isfinite c0 && isfinite c1 then
          let off := if search then 0
                     else if dim then ix (solarImageOffset s)
                          else iy (solarImageOffset s) in
          let len := if dim then mat_cols input else mat_rows input in
          let flen := if dim then mat_cols (frame s)
                      else mat_rows (frame s) in
          if SFeqb c0 (F32.of_Z (-1)) && (0 <? off) then skip
          else if SFeqb c1 (F32.of_Z len) && (off + len <? flen) then skip
          else
            let add l c := if dim then CoordList_add l c (F32.of_Z pos)
                           else CoordList_add l (F32.of_Z pos) c in
            mkCenterLoop
              (add (add (cl_limbCrossings acc) c0) c1)
              (lr_slopes r)
              (cl_midpoints acc ++
                 [F32.of_double
                    (F64.div (F64.of_float (F32.add c0 c1)) (F64.of_Z 2))])
        else skip
    | _ => skip
    end.

(** Mean and standard deviation of the midpoints, as the source
    accumulates them. *)
Definition midpoint_mean (midpoints : list spec_float) : spec_float :=
  F32.div (fold_left F32.add midpoints f0) (F32.of_Z (zlength midpoints)).

Definition midpoint_std (midpoints : list spec_float) (mean : spec_float)
  : spec_float :=
  let sum :=
    fold_left
      (fun acc m =>
         let d := F64.of_float (F32.sub m mean) in
         F32.of_double (F64.add (F64.of_float acc) (F64.mul d d)))
      midpoints f0 in
  F32.of_double
    (F64.sqrt (F64.of_float (F32.div sum (F32.of_Z (zlength midpoints))))).

Definition translate (off : Point2i) (p : Point2f) : Point2f :=
  mkPoint2f (F32.add (px p) (F32.of_Z (ix off)))
            (F32.add (py p) (F32.of_Z (iy off))).

Definition FindPixelCenter (s : Aspect) : Aspect :=
  let search := search_mode s in
  let input := if search then frame s else solarImage s in
  let limit := if search then initialNumChords (cfg s)
               else chordsPerAxis (cfg s) in
  let rows := chord_positions (mat_rows input) limit in
  let cols := chord_positions (mat_cols input) limit in
  (* dim == 0: column chords *)
  let a0 := fold_left (chord_step s search input false) cols
              (mkCenterLoop [] [] []) in
  let mean0 := midpoint_mean (cl_midpoints a0) in
  let std0 := midpoint_std (cl_midpoints a0) mean0 in
  (* dim == 1: row chords *)
  let a1 := fold_left (chord_step s search input true) rows
              (mkCenterLoop (cl_limbCrossings a0) (cl_slopes a0) []) in
  let mean1 := midpoint_mean (cl_midpoints a1) in
  let std1 := midpoint_std (cl_midpoints a1) mean1 in
  let center := mkPoint2f mean1 mean0 in
  let error := mkPoint2f std1 std0 in
  let off := solarImageOffset s in
  let center' := if search then center else translate off center in
  let crossings' := if search then cl_limbCrossings a1
                    else map (translate off) (cl_limbCrossings a1) in
  set_slopes (cl_slopes a1)
    (set_limbCrossings crossings'
       (set_pixelError error (set_pixelCenter center' s))).

(** ** The fiducial detector ([FindPixelFiducials]) *)

Definition corr_at (correlation : Mat spec_float) (m n : Z) : spec_float :=
  mat_at S754_nan correlation m n.

Definition corr_of_point (correlation : Mat spec_float) (p : Point2f)
  : spec_float :=
  corr_at correlation (to_int (py p)) (to_int (px p)).

Definition point_of_ints (n m : Z) : Point2f :=
  mkPoint2f (F32.of_Z n) (F32.of_Z m).

(** The loop that looks for an accepted fiducial near (n, m): [Some] is
    [redundant == true], with the list as the loop leaves it. *)
Fixpoint replace_redundant (c : Config) (correlation : Mat spec_float)
  (thisValue : spec_float) (n m : Z) (fiducials : CoordList)
  : option CoordList :=
  match fiducials with
  | [] => None
  | p :: rest =>
      if SFltb (SFabs (F32.sub (py p) (F32.of_Z m)))
               (F32.of_Z (fiducialLength c * 2))
         && SFltb (SFabs (F32.sub (px p) (F32.of_Z n)))
                  (F32.of_Z (fiducialLength c * 2))
      then Some ((if SFgtb thisValue (corr_of_point correlation p)
                  then point_of_ints n m else p) :: rest)
      else option_map (cons p)
             (replace_redundant c correlation thisValue n m rest)
  end.

(** The search for the weakest of the first [numFiducials] fiducials:
    [(minIndex, minValue)]. *)
Definition weakest (correlation : Mat spec_float) (numFiducials : Z)
  (fiducials : CoordList) : Z * spec_float :=
  fold_left
    (fun '(minIndex, minValue) k =>
       let v := corr_of_point correlation
                  (znth (mkPoint2f S754_nan S754_nan) fiducials k) in
       if SFltb v minValue then (k, v) else (minIndex, minValue))
    (zseq 0 (Z.to_nat numFiducials))
    (-1, S754_infinity false).

Fixpoint replace_nth {A} (i : nat) (v : A) (l : list A) : list A :=
  match l, i with
  | [], _ => []
  | _ :: rest, O => v :: rest
  | a :: rest, S i' => a :: replace_nth i' v rest
  end.

Definition zreplace {A} (i : Z) (v : A) (l : list A) : list A :=
  if i <? 0 then l else replace_nth (Z.to_nat i) v l.

(** The body of the double loop over the correlation image. *)
Definition candidate_step (c : Config) (correlation : Mat spec_float)
  (threshold : spec_float) (fiducials : CoordList) (mn : Z * Z) : CoordList :=
  let '(m, n) := mn in
  let thisValue := corr_at correlation m n in
  if SFgtb thisValue threshold
     && (SFgtb thisValue (corr_at correlation m (n + 1))
         && SFgtb thisValue (corr_at correlation m (n - 1))
         && SFgtb thisValue (corr_at correlation (m + 1) n)
         && SFgtb thisValue (corr_at correlation (m - 1) n))
  then
    match replace_redundant c correlation thisValue n m fiducials with
    | Some fiducials' => fiducials'
    | None =>
        if zlength fiducials <? numFiducials c
        then CoordList_add fiducials (F32.of_Z n) (F32.of_Z m)
        else
          let '(minIndex, minValue) :=
            weakest correlation (numFiducials c) fiducials in
          if SFgtb thisValue minValue
          then zreplace minIndex (point_of_ints n m) fiducials
          else fiducials
    end
  else fiducials.

Definition interior_positions (rows cols : Z) : list (Z * Z) :=
  flat_map (fun m => map (fun n => (m, n)) (zseq 1 (Z.to_nat (cols - 2))))
           (zseq 1 (Z.to_nat (rows - 2))).

Definition range_positions (rowRange colRange : Range) : list (Z * Z) :=
  flat_map
    (fun m => map (fun n => (m, n))
                (zseq (r_start colRange)
                      (Z.to_nat (r_end colRange - r_start colRange))))
    (zseq (r_start rowRange) (Z.to_nat (r_end rowRange - r_start rowRange))).

(** The centroid of the correlation around one fiducial, plus [offset]. *)
Definition refine_fiducial (c : Config) (correlation : Mat spec_float)
  (threshold : spec_float) (offset : Point2f) (p : Point2f) : Point2f :=
  let rowRange := SafeRange (round_half_away (py p) - fiducialWidth c)
                    (round_half_away (py p) + fiducialWidth c + 1)
                    (mat_rows correlation) in
  let colRange := SafeRange (round_half_away (px p) - fiducialWidth c)
                    (round_half_away (px p) + fiducialWidth c + 1)
                    (mat_cols correlation) in
  let '(Cm, Cn, average) :=
    fold_left
      (fun '(Cm, Cn, average) '(m, n) =>
         let thisValue := corr_at correlation m n in
         if SFgtb thisValue threshold
         then (F32.add Cm (F32.mul (F32.of_Z m) thisValue),
               F32.add Cn (F32.mul (F32.of_Z n) thisValue),
               F32.add average thisValue)
         else (Cm, Cn, average))
      (range_positions rowRange colRange) (f0, f0, f0) in
  mkPoint2f (F32.add (F32.div Cn average) (px offset))
            (F32.add (F32.div Cm average) (py offset)).

Definition point_finite (p : Point2f) : bool :=
  isfinite (px p) && isfinite (py p).

(** The last loop: [erase] at index k is followed by [k++], so the
    element that moves into place k is not examined. *)
Fixpoint erase_nonfinite (fiducials : CoordList) : CoordList :=
  match fiducials with
  | [] => []
  | p :: rest =>
      if point_finite p then p :: erase_nonfinite rest
      else match rest with
           | [] => []
           | q :: rest' => q :: erase_nonfinite rest'
           end
  end.

Definition FindPixelFiducials (s : Aspect) : Aspect :=
  let c := cfg s in
  let input := map (map (fun p => F32.of_Z (Z.min p (frameMax s))))
                 (solarImage s) in
  let correlation := cv_matchTemplate input (kernel s) in
  let offset :=
    mkPoint2f
      (F32.of_Z (ix (solarImageOffset s) + Z.quot (mat_cols (kernel s)) 2))
      (F32.of_Z (iy (solarImageOffset s) + Z.quot (mat_rows (kernel s)) 2)) in
  let '(mean, stddev) := cv_meanStdDev correlation in
  let threshold1 :=
    F32.of_double
      (F64.add mean (F64.mul (F64.of_float (fiducialThreshold c)) stddev)) in
  let found :=
    fold_left (candidate_step c correlation threshold1)
      (interior_positions (mat_rows correlation) (mat_cols correlation)) [] in
  let threshold2 :=
    F32.of_double
      (F64.add mean
         (F64.mul (F64.of_float (F32.div (fiducialThreshold c) (F32.of_Z 2)))
                  stddev)) in
  let refined := map (refine_fiducial c correlation threshold2 offset) found in
  set_pixelFiducials (erase_nonfinite refined) s.

(** ** The fiducial identifier ([FindFiducialIDs]) *)

(** [pi]: [std::atan(1.0)*4] narrowed to float, 13176795 * 2^-22. *)
Definition pi : spec_float := S754_finite false 13176795 (-22).

Definition rotate (angle : spec_float) (point : Point2f) : Point2f :=
  let arg := F32.div (F32.mul (F32.mul (F32.of_Z 2) pi) angle)
                     (F32.of_Z 360) in
  let c := libm_cos arg in
  let s := libm_sin arg in
  mkPoint2f (F32.sub (F32.mul c (px point)) (F32.mul s (py point)))
            (F32.add (F32.mul s (px point)) (F32.mul c (py point))).

Definition rotate_list (angle : spec_float) (inPoints : CoordList)
  : CoordList := map (rotate angle) inPoints.

(** [fabs] is the C function: its float argument is widened and the
    result is a double. *)
Definition fabs (f : spec_float) : spec_float := SFabs (F64.of_float f).

(** [fabs(fabs(diff) - dist) < fiducialSpacingTol] *)
Definition near (c : Config) (diff dist : spec_float) : bool :=
  SFltb (SFabs (F64.sub (fabs diff) (F64.of_float dist)))
        (F64.of_float (fiducialSpacingTol c)).

(** [fabs(diff) > table[7] - tol && fabs(diff) < table[0] + tol] *)
Definition in_table_span (c : Config) (table : list spec_float)
  (diff : spec_float) : bool :=
  SFgtb (fabs diff)
        (F64.of_float (F32.sub (nth 7 table S754_nan) (fiducialSpacingTol c)))
  && SFltb (fabs diff)
        (F64.of_float (F32.add (nth 0 table S754_nan) (fiducialSpacingTol c))).

Definition pt_at (l : CoordList) (i : Z) : Point2f :=
  znth (mkPoint2f S754_nan S754_nan) l i.
Definition id_at (l : IndexList) (i : Z) : Point2i :=
  znth (mkPoint2i 0 0) l i.

(** The pair enumeration: [(rowPairs, colPairs)]. *)
Definition pair_step (c : Config) (rotated : CoordList)
  (acc : IndexList * IndexList) (kl : Z * Z) : IndexList * IndexList :=
  let '(rowPairs0, colPairs0) := acc in
  let '(k, l) := kl in
  let rowDiff := F32.sub (py (pt_at rotated k)) (py (pt_at rotated l)) in
  let colDiff := F32.sub (px (pt_at rotated k)) (px (pt_at rotated l)) in
  if near c rowDiff (fiducialSpacing c)
     && in_table_span c (nDistances c) colDiff
  then (rowPairs0, colPairs0 ++ [mkPoint2i k l])
  else if near c colDiff (fiducialSpacing c)
          && in_table_span c (mDistances c) rowDiff
  then (rowPairs0 ++ [mkPoint2i k l], colPairs0)
  else acc.

Definition unordered_pairs (K : nat) : list (Z * Z) :=
  flat_map (fun k => map (fun l => (k, l))
                       (zseq (k + 1) (K - 1 - Z.to_nat k)))
           (zseq 0 K).

(** [votes[i].push_back(v)] *)
Definition push_vote (i v : Z) (votes : list (list Z)) : list (list Z) :=
  zreplace i (znth [] votes i ++ [v]) votes.

(** First pass: the votes one pair casts from a distance table.  The
    pair (a, b) votes (d-7, d+1-7) when [diff > 0] and swapped
    otherwise, for every table entry [d] its distance is near.  ([d] is
    unsigned in the source: d-7 wraps below 7 and is the int d-7 again
    once stored in the vector of ints.) *)
Definition first_pass_votes (c : Config) (table : list spec_float)
  (diff : spec_float) (a b : Z) (votes : list (list Z)) : list (list Z) :=
  fold_left
    (fun votes d =>
       if near c diff (znth S754_nan table d) then
         if SFgtb diff (F32.of_Z 0)
         then push_vote b (d + 1 - 7) (push_vote a (d - 7) votes)
         else push_vote b (d - 7) (push_vote a (d + 1 - 7) votes)
       else votes)
    (zseq 0 (length table)) votes.

Definition first_pass_rows (c : Config) (rotated : CoordList)
  (rowPairs0 : IndexList) (K : nat) : list (list Z) :=
  fold_left
    (fun votes p =>
       let rowDiff := F32.sub (py (pt_at rotated (iy p)))
                              (py (pt_at rotated (ix p))) in
       first_pass_votes c (mDistances c) rowDiff (ix p) (iy p) votes)
    rowPairs0 (repeat [] K).

Definition first_pass_cols (c : Config) (rotated : CoordList)
  (colPairs0 : IndexList) (K : nat) : list (list Z) :=
  fold_left
    (fun votes p =>
       let colDiff := F32.sub (px (pt_at rotated (ix p)))
                              (px (pt_at rotated (iy p))) in
       first_pass_votes c (nDistances c) colDiff (ix p) (iy p) votes)
    colPairs0 (repeat [] K).

(** The tally of the first pass on one axis. *)
Definition tally1 (votes : list Z) : Z :=
  match Mode votes with
  | [] => -100
  | [m] => m
  | _ => -200
  end.

(** The tally of the second pass: an empty bag keeps the old value. *)
Definition tally2 (old : Z) (votes : list Z) : Z :=
  match Mode votes with
  | [] => old
  | [m] => m
  | _ => -200
  end.

(** Second pass.  A vote is recorded with the fiducial that receives it,
    the partner whose identifier it is derived from, and its value. *)
Inductive Axis := AxisX | AxisY.

Record Vote := mkVote {
  v_axis : Axis;
  v_target : Z;
  v_partner : Z;
  v_value : Z }.

Definition id_on (axis : Axis) (ids : IndexList) (i : Z) : Z :=
  match axis with
  | AxisX => ix (id_at ids i)
  | AxisY => iy (id_at ids i)
  end.

(** Votes on the axis the two members of a pair share: the unknown
    member takes the value of its partner. *)
Definition same_votes (axis : Axis) (ids : IndexList) (a b : Z) : list Vote :=
  if (id_on axis ids a =? -100) && negb (id_on axis ids b =? -100)
  then [mkVote axis a b (id_on axis ids b)]
  else if negb (id_on axis ids a =? -100) && (id_on axis ids b =? -100)
  then [mkVote axis b a (id_on axis ids a)]
  else [].

(** Votes on the axis along which the two members are neighbours: the
    unknown member is one step from its partner, the side given by the
    sign of [diff]. *)
Definition step_votes (axis : Axis) (ids : IndexList) (diff : spec_float)
  (a b : Z) : list Vote :=
  if (id_on axis ids a =? -100) && negb (id_on axis ids b =? -100)
  then [mkVote axis a b
          (if SFgeb diff (F32.of_Z 0) then id_on axis ids b - 1
           else id_on axis ids b + 1)]
  else if negb (id_on axis ids a =? -100) && (id_on axis ids b =? -100)
  then [mkVote axis b a
          (if SFgeb diff (F32.of_Z 0) then id_on axis ids a + 1
           else id_on axis ids a - 1)]
  else [].

Definition second_pass_row_pair (rotated : CoordList) (ids : IndexList)
  (p : Point2i) : list Vote :=
  let rowDiff := F32.sub (py (pt_at rotated (iy p)))
                         (py (pt_at rotated (ix p))) in
  same_votes AxisX ids (ix p) (iy p)
  ++ step_votes AxisY ids rowDiff (ix p) (iy p).

Definition second_pass_col_pair (rotated : CoordList) (ids : IndexList)
  (p : Point2i) : list Vote :=
  let colDiff := F32.sub (px (pt_at rotated (ix p)))
                         (px (pt_at rotated (iy p))) in
  same_votes AxisY ids (ix p) (iy p)
  ++ step_votes AxisX ids colDiff (ix p) (iy p).

(** All the [push_back]s of the second pass, in program order. *)
Definition second_pass_votes (rotated : CoordList) (ids : IndexList)
  (rowPairs0 colPairs0 : IndexList) : list Vote :=
  flat_map (second_pass_row_pair rotated ids) rowPairs0
  ++ flat_map (second_pass_col_pair rotated ids) colPairs0.

(** [(rowVotes, colVotes)] after the votes are pushed. *)
Definition cast_votes (K : nat) (votes : list Vote)
  : list (list Z) * list (list Z) :=
  fold_left
    (fun '(rowVotes, colVotes) v =>
       match v_axis v with
       | AxisY => (push_vote (v_target v) (v_value v) rowVotes, colVotes)
       | AxisX => (rowVotes, push_vote (v_target v) (v_value v) colVotes)
       end)
    votes (repeat [] K, repeat [] K).

(** The identifiers after the first pass. *)
Definition first_pass_ids (c : Config) (rotated : CoordList)
  (rowPairs0 colPairs0 : IndexList) (K : nat) : IndexList :=
  map (fun rc => mkPoint2i (tally1 (snd rc)) (tally1 (fst rc)))
      (combine (first_pass_rows c rotated rowPairs0 K)
               (first_pass_cols c rotated colPairs0 K)).

(** The identifiers after the second pass. *)
Definition second_pass_ids (ids : IndexList) (votes : list Vote) : IndexList :=
  let '(rowVotes, colVotes) := cast_votes (length ids) votes in
  map (fun '(id, (rv, cv)) =>
         mkPoint2i (tally2 (ix id) cv) (tally2 (iy id) rv))
      (combine ids (combine rowVotes colVotes)).

Definition find_pairs (c : Config) (rotated : CoordList) (K : nat)
  : IndexList * IndexList :=
  fold_left (pair_step c rotated) (unordered_pairs K) ([], []).

Definition rotatedFiducials (s : Aspect) : CoordList :=
  rotate_list (fiducialTwist (cfg s)) (pixelFiducials s).

(** The pairs and the identifiers at the end of the first pass:
    [(rowPairs, colPairs, fiducialIDs)]. *)
Definition first_pass (s : Aspect) : IndexList * IndexList * IndexList :=
  let K := length (pixelFiducials s) in
  let '(rowPairs0, colPairs0) := find_pairs (cfg s) (rotatedFiducials s) K in
  (rowPairs0, colPairs0,
   first_pass_ids (cfg s) (rotatedFiducials s) rowPairs0 colPairs0 K).

(** The votes of the second pass. *)
Definition second_pass (s : Aspect) : list Vote :=
  let '(rowPairs0, colPairs0, ids1) := first_pass s in
  second_pass_votes (rotatedFiducials s) ids1 rowPairs0 colPairs0.

Definition FindFiducialIDs (s : Aspect) : Aspect :=
  let '(rowPairs0, colPairs0, ids1) := first_pass s in
  set_fiducialIDs (second_pass_ids ids1 (second_pass s))
    (set_colPairs colPairs0 (set_rowPairs rowPairs0 s)).

(** ** The mapping fit ([FindMapping]) *)

(** The test that makes the loops skip a fiducial. *)
Definition id_skipped (id : Point2i) : bool :=
  (ix id <? -10) || (iy id <? -10).

(** The vectors [x] and [y] collected for one dimension. *)
Definition fit_points (dim : Z) (fiducials : CoordList) (ids : IndexList)
  : list (spec_float * spec_float) :=
  flat_map
    (fun k =>
       let id := id_at ids k in
       if id_skipped id then []
       else
         let screenPoint := fiducialIDtoScreen id in
         if dim =? 0 then [(px (pt_at fiducials k), px screenPoint)]
         else [(py (pt_at fiducials k), py screenPoint)])
    (zseq 0 (length fiducials)).

Definition FindMapping (s : Aspect) : Aspect :=
  let p0 := fit_points 0 (pixelFiducials s) (fiducialIDs s) in
  let fit0 := LinearFit (map fst p0) (map snd p0) [] in
  let p1 := fit_points 1 (pixelFiducials s) (fiducialIDs s) in
  let fit1 := LinearFit (map fst p1) (map snd p1) fit0 in
  set_mapping [fit_at fit0 0; fit_at fit0 1; fit_at fit1 0; fit_at fit1 1] s.

Definition PixelToScreen (s : Aspect) (pixelPoint : Point2f) : Point2f :=
  mkPoint2f
    (F32.add (fit_at (mapping s) 0) (F32.mul (fit_at (mapping s) 1) (px pixelPoint)))
    (F32.add (fit_at (mapping s) 2) (F32.mul (fit_at (mapping s) 3) (py pixelPoint))).

(** ** The state machine ([Run]) *)

Definition sentinel : Point2f := mkPoint2f (F32.of_Z (-1)) (F32.of_Z (-1)).

(** The statements before the first test. *)
Definition Run_clear (s : Aspect) : Aspect :=
  set_conditionNumbers (repeat f0 2)
    (set_mapping (repeat f0 4)
       (set_fiducialIDs []
          (set_pixelFiducials []
             (set_slopes [] (set_limbCrossings [] s))))).

(** The loop that counts the valid identifiers. *)
Definition count_validIDs (ids : IndexList) : Z :=
  zlength (filter (fun id => negb (id_skipped id)) ids).

Definition error_too_large (s : Aspect) : bool :=
  SFgtb (px (pixelError s)) (errorLimit (cfg s))
  || SFgtb (py (pixelError s)) (errorLimit (cfg s))
  || negb (isfinite (px (pixelError s)))
  || negb (isfinite (py (pixelError s))).

(** [int subimageSize = solarRadius*(1+radiusMargin)] *)
Definition subimageSize (c : Config) : Z :=
  to_int (F32.mul (F32.of_Z (solarRadius c))
                  (F32.add (F32.of_Z 1) (radiusMargin c))).

(** [(int) fiducialSpacing + 2*fiducialLength] *)
Definition min_solar_side (c : Config) : Z :=
  to_int (fiducialSpacing c) + 2 * fiducialLength c.

(** From the fiducial stage to the end. *)
Definition Run_fiducials (s : Aspect) : Aspect :=
  let s := FindPixelFiducials s in
  if zlength (pixelFiducials s) =? 0 then set_state NO_FIDUCIALS s
  else if zlength (pixelFiducials s) <? 3 then set_state FEW_FIDUCIALS s
  else
    let s := FindFiducialIDs s in
    let validIDs := count_validIDs (fiducialIDs s) in
    if validIDs =? 0 then set_state NO_IDS s
    else if validIDs <? 3 then set_state FEW_IDS s
    else set_state NO_ERROR (FindMapping s).

(** From the selection of the sub-image to the end. *)
Definition Run_subimage (s : Aspect) : Aspect :=
  let c := cfg s in
  let size := subimageSize c in
  let rowRange :=
    SafeRange (to_int (F32.sub (py (pixelCenter s)) (F32.of_Z size)))
              (to_int (F32.add (py (pixelCenter s)) (F32.of_Z size)))
              (height (frameSize s)) in
  let colRange :=
    SafeRange (to_int (F32.sub (px (pixelCenter s)) (F32.of_Z size)))
              (to_int (F32.add (px (pixelCenter s)) (F32.of_Z size)))
              (width (frameSize s)) in
  let s := set_solarImage (submat (frame s) rowRange colRange) s in
  if mat_empty (solarImage s) then set_state SOLAR_IMAGE_EMPTY s
  else
    let s := set_solarImageSize (mat_size (solarImage s)) s in
    if (width (solarImageSize s) <? min_solar_side c)
       || (height (solarImageSize s) <? min_solar_side c)
    then set_state SOLAR_IMAGE_SMALL s
    else
      let s := set_solarImageOffset
                 (mkPoint2i (r_start colRange) (r_start rowRange)) s in
      if (ix (solarImageOffset s) <? 0)
         || (width (frameSize s) - width (solarImageSize s) + 1
             <=? ix (solarImageOffset s))
         || (iy (solarImageOffset s) <? 0)
         || (height (frameSize s) - height (solarImageSize s) + 1
             <=? iy (solarImageOffset s))
      then set_state SOLAR_IMAGE_OFFSET_OUT_OF_BOUNDS s
      else Run_fiducials s.

(** From the centre stage to the end. *)
Definition Run_center (s : Aspect) : Aspect :=
  let s := FindPixelCenter s in
  if zlength (limbCrossings s) =? 0
  then set_pixelCenter sentinel (set_state NO_LIMB_CROSSINGS s)
  else if zlength (limbCrossings s) <? 4
  then set_pixelCenter sentinel (set_state FEW_LIMB_CROSSINGS s)
  else if center_out_of_frame s
  then set_state CENTER_OUT_OF_BOUNDS (set_pixelCenter sentinel s)
  else if error_too_large s
  then set_state CENTER_ERROR_LARGE (set_pixelCenter sentinel s)
  else Run_subimage s.

(** [Aspect::Run]: the object after the call; the value returned is its
    [state]. *)
Definition Run (s : Aspect) : Aspect :=
  let s := Run_clear s in
  if AspectCode_eqb (state s) FRAME_EMPTY then set_state FRAME_EMPTY s
  else
    let '(mn, mx) := calcMinMax (frame s) in
    let s := set_frameMax mx (set_frameMin mn s) in
    if mx <=? mn then set_state MIN_MAX_BAD s
    else if mx - mn <? 32 then set_state DYNAMIC_RANGE_LOW s
    else Run_center s.

(** ** The getters

    [code] is the integer value of each enumerator, fixed by the
    declaration of [AspectCode] in processing.hpp.  A getter returns its
    code together with its reference arguments as the call leaves
    them. *)
Section Getters.
Variable code : AspectCode -> Z.

Definition before (s : Aspect) (ceiling : AspectCode) : bool :=
  code (state s) <? code ceiling.

Definition GetPixelMinMax (s : Aspect) (min max : Z) : AspectCode * (Z * Z) :=
  if before s FRAME_EMPTY then (NO_ERROR, (frameMin s, frameMax s))
  else (state s, (min, max)).

Definition GetPixelCrossings (s : Aspect) (crossings : CoordList)
  : AspectCode * CoordList :=
  if before s LIMB_ERROR then (NO_ERROR, [] ++ limbCrossings s)
  else (state s, crossings).

Definition GetPixelCenter (s : Aspect) (center : Point2f)
  : AspectCode * Point2f :=
  if before s CENTER_ERROR then (NO_ERROR, pixelCenter s)
  else (state s, center).

Definition GetPixelError (s : Aspect) (error : Point2f)
  : AspectCode * Point2f :=
  if before s CENTER_ERROR then (NO_ERROR, pixelError s)
  else (state s, error).

Definition GetPixelFiducials (s : Aspect) (fiducials : CoordList)
  : AspectCode * CoordList :=
  if before s FIDUCIAL_ERROR then (NO_ERROR, [] ++ pixelFiducials s)
  else (state s, fiducials).

Definition GetFiducialPairs (s : Aspect) (rows cols : IndexList)
  : AspectCode * (IndexList * IndexList) :=
  if before s ID_ERROR then (NO_ERROR, ([] ++ rowPairs s, [] ++ colPairs s))
  else (state s, (rows, cols)).

Definition GetFiducialIDs (s : Aspect) (IDs : IndexList)
  : AspectCode * IndexList :=
  if before s ID_ERROR then (NO_ERROR, [] ++ fiducialIDs s)
  else (state s, IDs).

Definition GetMapping (s : Aspect) (map : list spec_float)
  : AspectCode * list spec_float :=
  if before s MAPPING_ERROR then (NO_ERROR, [] ++ mapping s)
  else (state s, map).

Definition GetScreenCenter (s : Aspect) (center : Point2f)
  : AspectCode * Point2f :=
  if before s MAPPING_ERROR then (NO_ERROR, PixelToScreen s (pixelCenter s))
  else (state s, center).

(** The list is cleared before the test. *)
Definition GetScreenFiducials (s : Aspect) (fiducials : CoordList)
  : AspectCode * CoordList :=
  let fiducials := @nil Point2f in
  if before s MAPPING_ERROR
  then (NO_ERROR, map (PixelToScreen s) (pixelFiducials s))
  else (state s, fiducials).

End Getters.

(** ** [Aspect::FiducialRun]

    The fiducial stages run on the whole frame, without the centre
    stage.  The locals [rowRange] and [colRange] are declared and never
    assigned: a default-constructed [cv::Range] is (0, 0), so the offset
    the function stores is (0, 0). *)

(** From [solarImage = frame] to the end. *)
Definition FiducialRun_image (s : Aspect) : Aspect :=
  let c := cfg s in
  let rowRange := mkRange 0 0 in
  let colRange := mkRange 0 0 in
  let s := set_solarImage (frame s) s in
  if mat_empty (solarImage s) then set_state SOLAR_IMAGE_EMPTY s
  else
    let s := set_solarImageSize (mat_size (solarImage s)) s in
    if (width (solarImageSize s) <? min_solar_side c)
       || (height (solarImageSize s) <? min_solar_side c)
    then set_state SOLAR_IMAGE_SMALL s
    else
      let s := set_solarImageOffset
                 (mkPoint2i (r_start colRange) (r_start rowRange)) s in
      if (ix (solarImageOffset s) <? 0)
         || (width (frameSize s) - width (solarImageSize s) + 1
             <=? ix (solarImageOffset s))
         || (iy (solarImageOffset s) <? 0)
         || (height (frameSize s) - height (solarImageSize s) + 1
             <=? iy (solarImageOffset s))
      then set_state SOLAR_IMAGE_OFFSET_OUT_OF_BOUNDS s
      else Run_fiducials s.

Definition FiducialRun (s : Aspect) : Aspect :=
  let s := Run_clear s in
  if AspectCode_eqb (state s) FRAME_EMPTY then set_state FRAME_EMPTY s
  else
    let '(mn, mx) := calcMinMax (frame s) in
    let s := set_frameMax mx (set_frameMin mn s) in
    if mx <=? mn then set_state MIN_MAX_BAD s
    else if mx - mn <? 32 then set_state DYNAMIC_RANGE_LOW s
    else FiducialRun_image s.

(** ** The parameter accessors

    The enumerations [AspectFloat] and [AspectInt] are declared in
    processing.hpp, which is not among the sources; their members are
    the names the four switches use, and [FLOAT_OTHER] and [INT_OTHER]
    stand for any value the switches leave to [default]. *)
Inductive AspectFloat :=
| LIMB_THRESHOLD | DISK_THRESHOLD | ERROR_LIMIT | RADIUS_MARGIN
| FIDUCIAL_THRESHOLD | FIDUCIAL_SPACING | FIDUCIAL_SPACING_TOL
| FIDUCIAL_TWIST | FLOAT_OTHER.

Inductive AspectInt :=
| NUM_CHORDS_SEARCHING | NUM_CHORDS_OPERATING | MIN_LIMB_WIDTH
| LIMB_FIT_WIDTH | SOLAR_RADIUS | FIDUCIAL_LENGTH | FIDUCIAL_WIDTH
| NUM_FIDUCIALS | INT_OTHER.

Definition set_cfg (v : Config) (s : Aspect) : Aspect :=
  mkAspect v (state s) (frame s) (frameSize s) (frameMin s) (frameMax s) (solarImage s) (solarImageSize s) (solarImageOffset s) (pixelCenter s) (pixelError s) (kernel s) (mapping s) (conditionNumbers s) (limbCrossings s) (slopes s) (pixelFiducials s) (fiducialIDs s) (rowPairs s) (colPairs s).

(** An assignment to one parameter. *)
Definition assign_initialNumChords (v : Z) (c : Config) : Config :=
  mkConfig v (chordsPerAxis c) (limbThreshold c) (diskThreshold c) (solarRadius c) (radiusMargin c) (errorLimit c) (limbFitWidth c) (fiducialLength c) (fiducialWidth c) (fiducialThreshold c) (minLimbWidth c) (numFiducials c) (fiducialSpacing c) (fiducialSpacingTol c) (fiducialTwist c) (mDistances c) (nDistances c).
Definition assign_chordsPerAxis (v : Z) (c : Config) : Config :=
  mkConfig (initialNumChords c) v (limbThreshold c) (diskThreshold c) (solarRadius c) (radiusMargin c) (errorLimit c) (limbFitWidth c) (fiducialLength c) (fiducialWidth c) (fiducialThreshold c) (minLimbWidth c) (numFiducials c) (fiducialSpacing c) (fiducialSpacingTol c) (fiducialTwist c) (mDistances c) (nDistances c).
Definition assign_limbThreshold (v : spec_float) (c : Config) : Config :=
  mkConfig (initialNumChords c) (chordsPerAxis c) v (diskThreshold c) (solarRadius c) (radiusMargin c) (errorLimit c) (limbFitWidth c) (fiducialLength c) (fiducialWidth c) (fiducialThreshold c) (minLimbWidth c) (numFiducials c) (fiducialSpacing c) (fiducialSpacingTol c) (fiducialTwist c) (mDistances c) (nDistances c).
Definition assign_diskThreshold (v : spec_float) (c : Config) : Config :=
  mkConfig (initialNumChords c) (chordsPerAxis c) (limbThreshold c) v (solarRadius c) (radiusMargin c) (errorLimit c) (limbFitWidth c) (fiducialLength c) (fiducialWidth c) (fiducialThreshold c) (minLimbWidth c) (numFiducials c) (fiducialSpacing c) (fiducialSpacingTol c) (fiducialTwist c) (mDistances c) (nDistances c).
Definition assign_solarRadius (v : Z) (c : Config) : Config :=
  mkConfig (initialNumChords c) (chordsPerAxis c) (limbThreshold c) (diskThreshold c) v (radiusMargin c) (errorLimit c) (limbFitWidth c) (fiducialLength c) (fiducialWidth c) (fiducialThreshold c) (minLimbWidth c) (numFiducials c) (fiducialSpacing c) (fiducialSpacingTol c) (fiducialTwist c) (mDistances c) (nDistances c).
Definition assign_radiusMargin (v : spec_float) (c : Config) : Config :=
  mkConfig (initialNumChords c) (chordsPerAxis c) (limbThreshold c) (diskThreshold c) (solarRadius c) v (errorLimit c) (limbFitWidth c) (fiducialLength c) (fiducialWidth c) (fiducialThreshold c) (minLimbWidth c) (numFiducials c) (fiducialSpacing c) (fiducialSpacingTol c) (fiducialTwist c) (mDistances c) (nDistances c).
Definition assign_errorLimit (v : spec_float) (c : Config) : Config :=
  mkConfig (initialNumChords c) (chordsPerAxis c) (limbThreshold c) (diskThreshold c) (solarRadius c) (radiusMargin c) v (limbFitWidth c) (fiducialLength c) (fiducialWidth c) (fiducialThreshold c) (minLimbWidth c) (numFiducials c) (fiducialSpacing c) (fiducialSpacingTol c) (fiducialTwist c) (mDistances c) (nDistances c).
Definition assign_limbFitWidth (v : Z) (c : Config) : Config :=
  mkConfig (initialNumChords c) (chordsPerAxis c) (limbThreshold c) (diskThreshold c) (solarRadius c) (radiusMargin c) (errorLimit c) v (fiducialLength c) (fiducialWidth c) (fiducialThreshold c) (minLimbWidth c) (numFiducials c) (fiducialSpacing c) (fiducialSpacingTol c) (fiducialTwist c) (mDistances c) (nDistances c).
Definition assign_fiducialLength (v : Z) (c : Config) : Config :=
  mkConfig (initialNumChords c) (chordsPerAxis c) (limbThreshold c) (diskThreshold c) (solarRadius c) (radiusMargin c) (errorLimit c) (limbFitWidth c) v (fiducialWidth c) (fiducialThreshold c) (minLimbWidth c) (numFiducials c) (fiducialSpacing c) (fiducialSpacingTol c) (fiducialTwist c) (mDistances c) (nDistances c).
Definition assign_fiducialWidth (v : Z) (c : Config) : Config :=
  mkConfig (initialNumChords c) (chordsPerAxis c) (limbThreshold c) (diskThreshold c) (solarRadius c) (radiusMargin c) (errorLimit c) (limbFitWidth c) (fiducialLength c) v (fiducialThreshold c) (minLimbWidth c) (numFiducials c) (fiducialSpacing c) (fiducialSpacingTol c) (fiducialTwist c) (mDistances c) (nDistances c).
Definition assign_fiducialThreshold (v : spec_float) (c : Config) : Config :=
  mkConfig (initialNumChords c) (chordsPerAxis c) (limbThreshold c) (diskThreshold c) (solarRadius c) (radiusMargin c) (errorLimit c) (limbFitWidth c) (fiducialLength c) (fiducialWidth c) v (minLimbWidth c) (numFiducials c) (fiducialSpacing c) (fiducialSpacingTol c) (fiducialTwist c) (mDistances c) (nDistances c).
Definition assign_minLimbWidth (v : Z) (c : Config) : Config :=
  mkConfig (initialNumChords c) (chordsPerAxis c) (limbThreshold c) (diskThreshold c) (solarRadius c) (radiusMargin c) (errorLimit c) (limbFitWidth c) (fiducialLength c) (fiducialWidth c) (fiducialThreshold c) v (numFiducials c) (fiducialSpacing c) (fiducialSpacingTol c) (fiducialTwist c) (mDistances c) (nDistances c).
Definition assign_numFiducials (v : Z) (c : Config) : Config :=
  mkConfig (initialNumChords c) (chordsPerAxis c) (limbThreshold c) (diskThreshold c) (solarRadius c) (radiusMargin c) (errorLimit c) (limbFitWidth c) (fiducialLength c) (fiducialWidth c) (fiducialThreshold c) (minLimbWidth c) v (fiducialSpacing c) (fiducialSpacingTol c) (fiducialTwist c) (mDistances c) (nDistances c).
Definition assign_fiducialSpacing (v : spec_float) (c : Config) : Config :=
  mkConfig (initialNumChords c) (chordsPerAxis c) (limbThreshold c) (diskThreshold c) (solarRadius c) (radiusMargin c) (errorLimit c) (limbFitWidth c) (fiducialLength c) (fiducialWidth c) (fiducialThreshold c) (minLimbWidth c) (numFiducials c) v (fiducialSpacingTol c) (fiducialTwist c) (mDistances c) (nDistances c).
Definition assign_fiducialSpacingTol (v : spec_float) (c : Config) : Config :=
  mkConfig (initialNumChords c) (chordsPerAxis c) (limbThreshold c) (diskThreshold c) (solarRadius c) (radiusMargin c) (errorLimit c) (limbFitWidth c) (fiducialLength c) (fiducialWidth c) (fiducialThreshold c) (minLimbWidth c) (numFiducials c) (fiducialSpacing c) v (fiducialTwist c) (mDistances c) (nDistances c).
Definition assign_fiducialTwist (v : spec_float) (c : Config) : Config :=
  mkConfig (initialNumChords c) (chordsPerAxis c) (limbThreshold c) (diskThreshold c) (solarRadius c) (radiusMargin c) (errorLimit c) (limbFitWidth c) (fiducialLength c) (fiducialWidth c) (fiducialThreshold c) (minLimbWidth c) (numFiducials c) (fiducialSpacing c) (fiducialSpacingTol c) v (mDistances c) (nDistances c).

Definition GetFloat (s : Aspect) (variable : AspectFloat) : spec_float :=
  match variable with
  | LIMB_THRESHOLD => limbThreshold (cfg s)
  | DISK_THRESHOLD => diskThreshold (cfg s)
  | ERROR_LIMIT => errorLimit (cfg s)
  | RADIUS_MARGIN => radiusMargin (cfg s)
  | FIDUCIAL_THRESHOLD => fiducialThreshold (cfg s)
  | FIDUCIAL_SPACING => fiducialSpacing (cfg s)
  | FIDUCIAL_SPACING_TOL => fiducialSpacingTol (cfg s)
  | FIDUCIAL_TWIST => fiducialTwist (cfg s)
  | FLOAT_OTHER => f0
  end.

Definition GetInteger (s : Aspect) (variable : AspectInt) : Z :=
  match variable with
  | NUM_CHORDS_SEARCHING => initialNumChords (cfg s)
  | NUM_CHORDS_OPERATING => chordsPerAxis (cfg s)
  | MIN_LIMB_WIDTH => minLimbWidth (cfg s)
  | LIMB_FIT_WIDTH => limbFitWidth (cfg s)
  | SOLAR_RADIUS => solarRadius (cfg s)
  | FIDUCIAL_LENGTH => fiducialLength (cfg s)
  | FIDUCIAL_WIDTH => fiducialWidth (cfg s)
  | NUM_FIDUCIALS => numFiducials (cfg s)
  | INT_OTHER => 0
  end.

Definition SetFloat (variable : AspectFloat) (value : spec_float) (s : Aspect)
  : Aspect :=
  match variable with
  | LIMB_THRESHOLD => set_cfg (assign_limbThreshold value (cfg s)) s
  | DISK_THRESHOLD => set_cfg (assign_diskThreshold value (cfg s)) s
  | ERROR_LIMIT => set_cfg (assign_errorLimit value (cfg s)) s
  | RADIUS_MARGIN => set_cfg (assign_radiusMargin value (cfg s)) s
  | FIDUCIAL_THRESHOLD => set_cfg (assign_fiducialThreshold value (cfg s)) s
  | FIDUCIAL_SPACING => set_cfg (assign_fiducialSpacing value (cfg s)) s
  | FIDUCIAL_SPACING_TOL => set_cfg (assign_fiducialSpacingTol value (cfg s)) s
  | FIDUCIAL_TWIST => set_cfg (assign_fiducialTwist value (cfg s)) s
  | FLOAT_OTHER => s
  end.

Definition SetInteger (variable : AspectInt) (value : Z) (s : Aspect)
  : Aspect :=
  match variable with
  | NUM_CHORDS_SEARCHING => set_cfg (assign_initialNumChords value (cfg s)) s
  | NUM_CHORDS_OPERATING => set_cfg (assign_chordsPerAxis value (cfg s)) s
  | MIN_LIMB_WIDTH => set_cfg (assign_minLimbWidth value (cfg s)) s
  | LIMB_FIT_WIDTH => set_cfg (assign_limbFitWidth value (cfg s)) s
  | SOLAR_RADIUS => set_cfg (assign_solarRadius value (cfg s)) s
  | FIDUCIAL_LENGTH => set_cfg (assign_fiducialLength value (cfg s)) s
  | FIDUCIAL_WIDTH => set_cfg (assign_fiducialWidth value (cfg s)) s
  | NUM_FIDUCIALS => set_cfg (assign_numFiducials value (cfg s)) s
  | INT_OTHER => s
  end.

End Pipeline.

(** ** A backend for evaluating the pipeline

    Straightforward implementations of the routines of [OpenCV], used
    where the pipeline is run on a concrete frame: a Cholesky solver for
    the 2x2 system, the direct cross-correlation, mean and deviation in
    double, the cross template of [GenerateKernel] reduced to its values
    -1, 0 and 1, and short Taylor sums for the cosine and the sine. *)
Module Backend.

Definition eps32 : spec_float := S754_finite false 8388608 (-46).

(** A = L L^T with L = ((l00, 0), (l10, l11)); X = 0 when A is not
    positive definite. *)
Definition solve (a00 a01 a10 a11 b0 b1 : spec_float)
  : spec_float * spec_float :=
  let d := F64.of_float in
  let one := F64.of_Z 1 in
  if SFltb (d a00) (d eps32) then (f0, f0)
  else
    let i00 := F32.of_double (F64.div one (F64.sqrt (d a00))) in
    let l10 := F32.of_double (F64.mul (d a10) (d i00)) in
    let s := F64.sub (d a11) (F64.mul (d l10) (d l10)) in
    if SFltb s (d eps32) then (f0, f0)
    else
      let i11 := F32.of_double (F64.div one (F64.sqrt s)) in
      let y0 := F32.of_double (F64.mul (d b0) (d i00)) in
      let y1 := F32.of_double
                  (F64.mul (F64.sub (d b1) (F64.mul (d l10) (d y0)))
                           (d i11)) in
      let x1 := F32.of_double (F64.mul (d y1) (d i11)) in
      let x0 := F32.of_double
                  (F64.mul (F64.sub (d y0) (F64.mul (d l10) (d x1)))
                           (d i00)) in
      (x0, x1).

(** R(i, j) = sum over (u, v) of T(u, v) * I(i+u, j+v) *)
Definition window_sum (input templ : Mat spec_float) (i j : Z)
  : spec_float :=
  fold_left
    (fun acc '(u, row) =>
       fold_left
         (fun acc '(v, t) =>
            F32.add acc (F32.mul t (mat_at S754_nan input (i + u) (j + v))))
         (combine (zseq 0 (length row)) row) acc)
    (combine (zseq 0 (length templ)) templ) f0.

Definition matchTemplate (input templ : Mat spec_float) : Mat spec_float :=
  let rows := mat_rows input - mat_rows templ + 1 in
  let cols := mat_cols input - mat_cols templ + 1 in
  map (fun i => map (fun j => window_sum input templ i j)
                    (zseq 0 (Z.to_nat cols)))
      (zseq 0 (Z.to_nat rows)).

Definition meanStdDev (m : Mat spec_float) : spec_float * spec_float :=
  let vals := map F64.of_float (concat m) in
  let n := F64.of_Z (zlength vals) in
  let mean := F64.div (fold_left F64.add vals (F64.of_Z 0)) n in
  let sq := fold_left
              (fun acc v => let e := F64.sub v mean in
                            F64.add acc (F64.mul e e))
              vals (F64.of_Z 0) in
  (mean, F64.sqrt (F64.div sq n)).

(** The cross of [GenerateKernel]: two bars of the given width in a
    square of side 2*(length/2 + 1) + 1. *)
Definition on_cross (length width m n : Z) : bool :=
  let side := 2 * (Z.quot length 2 + 1) + 1 in
  let lo := Z.quot length 2 + 1 - Z.quot width 2 in
  let hi := Z.quot length 2 + 1 + Z.quot width 2 + 1 in
  let inL x := (1 <=? x) && (x <? side - 1) in
  let inW x := (lo <=? x) && (x <? hi) in
  (inL m && inW n) || (inW m && inL n).

(** -1 on the rim of the cross, 1 on the pixels that touch it, 0
    elsewhere (where the normalised template is below 1e-3). *)
Definition kernel_value (length width m n : Z) : spec_float :=
  let side := 2 * (Z.quot length 2 + 1) + 1 in
  let inside x y := (0 <=? x) && (x <? side) && (0 <=? y) && (y <? side) in
  let on x y := inside x y && on_cross length width x y in
  let off x y := inside x y && negb (on_cross length width x y) in
  let near f := f (m - 1) n || f (m + 1) n || f m (n - 1) || f m (n + 1) in
  if on m n then (if near off then F32.of_Z (-1) else f0)
  else (if near on then F32.of_Z 1 else f0).

Definition GenerateKernel (length width : Z) : Mat spec_float :=
  let side := 2 * (Z.quot length 2 + 1) + 1 in
  map (fun m => map (fun n => kernel_value length width m n)
                    (zseq 0 (Z.to_nat side)))
      (zseq 0 (Z.to_nat side)).

Definition taylor (terms : list (Z * Z)) (x : spec_float) : spec_float :=
  let d := F64.of_float x in
  F32.of_double
    (fold_left
       (fun acc '(k, fact) =>
          F64.add acc
            (F64.div (fold_left F64.mul (repeat d (Z.to_nat k)) (F64.of_Z 1))
                     (F64.of_Z fact)))
       terms (F64.of_Z 0)).

Definition cos := taylor [(0, 1); (2, -2); (4, 24); (6, -720); (8, 40320)].
Definition sin := taylor [(1, 1); (3, -6); (5, 120); (7, -5040)].

Definition backend : OpenCV :=
  {| cv_solve := solve;
     cv_matchTemplate := matchTemplate;
     cv_meanStdDev := meanStdDev;
     cv_GenerateKernel := GenerateKernel;
     libm_cos := cos;
     libm_sin := sin |}.

(** The memory in which the byte [v] follows every chord. *)
Definition memory (v : Z) : Memory := {| past_end := fun _ _ => v |}.

Definition zeros : Memory := memory 0.

(** The memory in which 0 follows the chords at the positions below [n]
    and [v] the others. *)
Definition zeros_below (n v : Z) : Memory :=
  {| past_end := fun _ pos => if pos <? n then 0 else v |}.

End Backend.

(** ** Vocabulary of the properties *)

(** A getter that returns [state] and leaves [args] in its reference
    arguments. *)
Definition echoes {A} (result : AspectCode * A) (s : Aspect) (args : A) : Prop :=
  result = (state s, args).


(** A numbering in which the states of a later stage have the smaller
    codes, as the tests [state < ..._ERROR] of the getters presuppose. *)
Definition stage_code (c : AspectCode) : Z :=
  match c with
  | NO_ERROR => 0
  | MAPPING_ERROR => 1 | MAPPING_ILL_CONDITIONED => 2
  | ID_ERROR => 3 | FEW_IDS => 4 | NO_IDS => 5
  | FIDUCIAL_ERROR => 6 | FEW_FIDUCIALS => 7 | NO_FIDUCIALS => 8
  | SOLAR_IMAGE_OFFSET_OUT_OF_BOUNDS => 9 | SOLAR_IMAGE_SMALL => 10
  | SOLAR_IMAGE_EMPTY => 11
  | CENTER_ERROR => 12 | CENTER_ERROR_LARGE => 13 | CENTER_OUT_OF_BOUNDS => 14
  | LIMB_ERROR => 15 | FEW_LIMB_CROSSINGS => 16 | NO_LIMB_CROSSINGS => 17
  | DYNAMIC_RANGE_LOW => 18 | MIN_MAX_BAD => 19
  | FRAME_EMPTY => 20
  | STALE_DATA => 21
  end.


(** The cumulative histogram: the number of pixels of value at most [j]. *)
Definition cumulative (frame : Mat Z) (j : Z) : Z :=
  zlength (filter (fun v => v <=? j) (concat frame)).

(** The smallest intensity in [0, 255] that satisfies [P] (255 when
    there is none). *)
Definition first_reaching (P : Z -> bool) : Z :=
  match find P (zseq 0 256) with
  | Some j => j
  | None => 255
  end.

Definition pixel_count (frame : Mat Z) : Z := mat_rows frame * mat_cols frame.

(** The pixel count up to which the running total of the histogram loop
    is exact: the loop adds a float bin count to the total in binary32,
    which holds every integer up to 2^24. *)
Definition exact_count_limit : Z := 2 ^ 24.

(** The robust minimum: the smallest intensity whose cumulative count
    reaches 0.5% of the pixels. *)
Definition robust_min (frame : Mat Z) : Z :=
  first_reaching
    (fun j => 5 * pixel_count frame <=? 1000 * cumulative frame j).

(** The robust maximum as the specification words it: the smallest
    intensity whose cumulative count reaches 99.5% of the pixels. *)
Definition robust_max_spec (frame : Mat Z) : Z :=
  first_reaching
    (fun j => 995 * pixel_count frame <=? 1000 * cumulative frame j).

(** The robust maximum with the count truncated, as [calcMinMax] has it:
    the smallest intensity whose cumulative count reaches the integer
    part of 99.5% of the pixels. *)
Definition robust_max_floor (frame : Mat Z) : Z :=
  first_reaching
    (fun j => (995 * pixel_count frame) / 1000 <=? cumulative frame j).

Definition uniform (frame : Mat Z) : Prop :=
  exists v, Forall (Forall (eq v)) frame.

(** [P j] holds and fails below [j]. *)
Definition least (P : Z -> bool) (j : Z) : Prop :=
  0 <= j /\ P j = true /\ forall i, 0 <= i < j -> P i = false.

(** The invariant of the histogram loop before bin [n] is added. *)
Definition low_reached (f : Mat Z) (j : Z) : bool :=
  reaches_low (cumulative f j) (pixel_count f).
Definition high_reached (f : Mat Z) (j : Z) : bool :=
  reaches_high (cumulative f j) (pixel_count f).

Definition found_ok (P : Z -> bool) (n : Z) (found : bool) (v : Z) : Prop :=
  if found then least P v /\ v < n
  else forall i, 0 <= i < n -> P i = false.

Definition MinMaxInv (f : Mat Z) (n : Z) (st : MinMaxLoop) : Prop :=
  mm_total st = cumulative f (n - 1)
  /\ found_ok (low_reached f) n (mm_min_found st) (mm_min st)
  /\ found_ok (high_reached f) n (mm_max_found st) (mm_max st).

(** The states [Run] can return, by the stage that sets them. *)
Definition after_center : list AspectCode :=
  [SOLAR_IMAGE_EMPTY; SOLAR_IMAGE_SMALL; SOLAR_IMAGE_OFFSET_OUT_OF_BOUNDS;
   NO_FIDUCIALS; FEW_FIDUCIALS; NO_IDS; FEW_IDS; NO_ERROR].

Definition at_center : list AspectCode :=
  [NO_LIMB_CROSSINGS; FEW_LIMB_CROSSINGS; CENTER_OUT_OF_BOUNDS;
   CENTER_ERROR_LARGE].

Definition before_center : list AspectCode :=
  [FRAME_EMPTY; MIN_MAX_BAD; DYNAMIC_RANGE_LOW].

(** The sizes of [fiducialIDs] and [pixelFiducials] after [Run]. *)
Definition sizes_agree (r : Aspect) : Prop :=
  (state r <> FEW_FIDUCIALS ->
   length (fiducialIDs r) = length (pixelFiducials r))
  /\ (state r = FEW_FIDUCIALS ->
      fiducialIDs r = [] /\ (0 < length (pixelFiducials r) < 3)%nat).


(** [pixelCenter] is a finite point of [0, W) x [0, H). *)
Definition in_frame (s : Aspect) : Prop :=
  isfinite (px (pixelCenter s)) = true
  /\ isfinite (py (pixelCenter s)) = true
  /\ SFleb (F32.of_Z 0) (px (pixelCenter s)) = true
  /\ SFltb (px (pixelCenter s)) (F32.of_Z (width (frameSize s))) = true
  /\ SFleb (F32.of_Z 0) (py (pixelCenter s)) = true
  /\ SFltb (py (pixelCenter s)) (F32.of_Z (height (frameSize s))) = true.

(** Modelled from the spec: processing.hpp, which declares [AspectCode],
    is not among the sources; section 3 of the specification orders the
    states by severity, and the states "at or below the CENTER group" are
    NO_ERROR through CENTER_ERROR_LARGE of that order. *)
Definition at_or_below_center_group (c : AspectCode) : bool :=
  match c with
  | NO_ERROR | DYNAMIC_RANGE_LOW | MIN_MAX_BAD | FRAME_EMPTY
  | NO_LIMB_CROSSINGS | FEW_LIMB_CROSSINGS
  | CENTER_OUT_OF_BOUNDS | CENTER_ERROR_LARGE => true
  | _ => false
  end.

(** ** Frames on which the pipeline is evaluated *)

(** Two pixels at 0 and two at 10. *)
Definition frame_low_range : Mat Z := [[0; 0; 10; 10]].

(** Nine pixels at 0 and one at 255. *)
Definition frame_skewed : Mat Z := [[0; 0; 0; 0; 0; 0; 0; 0; 0; 255]].

(** 8 x 8, a bright square of side 5 in the top left corner: the Sun cut
    by two sides of the sensor. *)
Definition frame_corner : Mat Z :=
  map (fun r => map (fun c => if (r <? 5) && (c <? 5) then 200 else 0)
                    (zseq 0 8))
      (zseq 0 8).

(** 48 x 48, a bright square of side 36 in the top left corner with one
    dark cross of length 15 and width 3 centred at (16, 16). *)
Definition frame_one_cross : Mat Z :=
  map (fun r =>
         map (fun c =>
                if (r <? 36) && (c <? 36)
                then if Backend.on_cross 15 2 (r - 8) (c - 8) then 0 else 200
                else 0)
             (zseq 0 48))
      (zseq 0 48).

(** An object with the frame loaded, fresh from the constructor. *)
Definition loaded (f : Mat Z) : Aspect :=
  LoadFrame f (Aspect_new (cv := Backend.backend)).

(** An object whose frame has robust min 0 and robust max 200. *)
Definition lit : Aspect :=
  set_frameMax 200 (set_frameMin 0 (Aspect_new (cv := Backend.backend))).

(** Chords: [n] pixels at [v]. *)
Definition run_of (n : nat) (v : Z) : list Z := repeat v n.

(** 40 pixels, bright from 5 to 38: the falling edge is at K - 2. *)
Definition chord_falling_at_end : list Z :=
  run_of 5 0 ++ run_of 34 200 ++ run_of 1 0.

(** 8 pixels, bright from 0 to 4: a lone falling edge at 4. *)
Definition chord_lone_falling : list Z := run_of 5 200 ++ run_of 3 0.

(** 10 and 200 pixels, bright from 3 on: a lone rising edge at 3. *)
Definition chord_rising_short : list Z := run_of 3 0 ++ run_of 7 200.
Definition chord_rising_long : list Z := run_of 3 0 ++ run_of 197 200.

(** 8 pixels, a lone falling edge at 2 behind a bright spike. *)
Definition chord_spike : list Z := [51; 51; 255; 50; 50; 50; 50; 50].

(** The image the chords are cut from and the shift applied to the
    stored crossings: the frame and no shift when searching, the
    sub-image and its offset otherwise. *)
Definition chord_input (s : Aspect) : Mat Z :=
  if search_mode s then frame s else solarImage s.
Definition chord_shift (s : Aspect) : Point2f -> Point2f :=
  if search_mode s then (fun p => p) else translate (solarImageOffset s).

(** The number of chords cut along each axis: [initialNumChords] when
    searching, [chordsPerAxis] otherwise. *)
Definition chord_limit (s : Aspect) : Z :=
  if search_mode s then initialNumChords (cfg s) else chordsPerAxis (cfg s).

(** The values [FindLimbCrossings] reports for a chord of length [K]: a
    virtual crossing, -1 or K verbatim, or the float nearest a refined
    position [f] that lies in its fit window [mn, mx], itself within
    [0, K]. *)
Definition crossing_value (K : Z) (c : spec_float) : Prop :=
  c = F32.of_Z (-1)
  \/ c = F32.of_Z K
  \/ exists f mn mx,
       c = F32.of_double f /\ isfinite f = true
       /\ 0 <= mn /\ mx <= K
       /\ SFleb (F64.of_Z mn) f = true /\ SFleb f (F64.of_Z mx) = true.

(** A stored limb crossing: a crossing value [c] of one of the [limit]
    chords cut along an axis of [input], shifted: on the row chord at
    [pos], one of the row positions, the point (c, pos); on the column
    chord at [pos], one of the column positions, the point (pos, c). *)
Definition stored_crossing (input : Mat Z) (limit : Z)
  (shift : Point2f -> Point2f) (p : Point2f) : Prop :=
  exists c pos,
    (In pos (chord_positions (mat_rows input) limit)
     /\ p = shift (mkPoint2f c (F32.of_Z pos))
     /\ crossing_value (zlength (mat_row input pos)) c)
    \/ (In pos (chord_positions (mat_cols input) limit)
        /\ p = shift (mkPoint2f (F32.of_Z pos) c)
        /\ crossing_value (zlength (mat_col 0 input pos)) c).

(** Every stored crossing has both coordinates inside the frame. *)
Definition crossings_in_frame (s : Aspect) : Prop :=
  Forall
    (fun p =>
       SFleb (F32.of_Z 0) (px p) = true
       /\ SFltb (px p) (F32.of_Z (width (frameSize s))) = true
       /\ SFleb (F32.of_Z 0) (py p) = true
       /\ SFltb (py p) (F32.of_Z (height (frameSize s))) = true)
    (limbCrossings s).

(** An identifier valid on both axes: both coordinates above -10. *)
Definition valid_id (id : Point2i) : bool :=
  (-10 <? ix id) && (-10 <? iy id).

(** The number of identifiers valid on both axes, and the state the
    count gates once the identification stage has run: NO_IDS for none,
    FEW_IDS for one or two, and NO_ERROR (after the mapping fit) from
    three on. *)
Definition valid_count (ids : IndexList) : Z :=
  zlength (filter valid_id ids).

Definition gated_state (n : Z) : AspectCode :=
  if n =? 0 then NO_IDS else if n <? 3 then FEW_IDS else NO_ERROR.

(** The states of the identification stage and after. *)
Definition id_stage_states : list AspectCode := [NO_IDS; FEW_IDS; NO_ERROR].

(** An object left in a state of the identification stage or after has
    the state its number of valid identifiers gates. *)
Definition gate_respected (r : Aspect) : Prop :=
  In (state r) id_stage_states ->
  state r = gated_state (valid_count (fiducialIDs r)).

(** The points of the fit of one dimension taken from exactly the
    fiducials with a valid identifier. *)
Definition valid_fit_points (dim : Z) (fiducials : CoordList) (ids : IndexList)
  : list (spec_float * spec_float) :=
  flat_map
    (fun k =>
       if valid_id (id_at ids k)
       then [if dim =? 0
             then (px (pt_at fiducials k), px (fiducialIDtoScreen (id_at ids k)))
             else (py (pt_at fiducials k), py (fiducialIDtoScreen (id_at ids k)))]
       else [])
    (zseq 0 (length fiducials)).

(** The values an identifier coordinate takes: a vote of the first pass
    (-7 .. 7), unknown or ambiguous, or a vote of the second pass (a
    partner's value or one step from it). *)
Definition first_pass_value (z : Z) : Prop :=
  -7 <= z <= 7 \/ z = -100 \/ z = -200.
Definition id_value (z : Z) : Prop :=
  -8 <= z <= 8 \/ z = -100 \/ z = -199 \/ z = -200 \/ z = -201.

(** Four fiducials: 0 and 1 form a row pair; 1 forms column pairs with 2
    and with 3, at distances that give it the column votes 1 and -1. *)
Definition fiducials_tie : CoordList :=
  [mkPoint2f (float_of_ratio 1156 10) (F32.of_Z 160);
   mkPoint2f (F32.of_Z 100) (F32.of_Z 100);
   mkPoint2f (float_of_ratio 1468 10) (float_of_ratio 1156 10);
   mkPoint2f (float_of_ratio 5008 100) (float_of_ratio 1156 10)].

Definition with_fiducials (l : CoordList) : Aspect :=
  set_pixelFiducials l (Aspect_new (cv := Backend.backend)).

(** The outputs of [Run] that the getters expose. *)
Definition outputs (s : Aspect) :=
  (state s, pixelCenter s, pixelError s, limbCrossings s, pixelFiducials s,
   fiducialIDs s, mapping s).

(** What one call of [Run] hands to the next: the centre and the
    sub-image with its offset. *)
Definition hint (s : Aspect) := (pixelCenter s, solarImage s, solarImageOffset s).

(** The bytes that follow the chords a call of [Run] on [s] cuts are
    the same in the two memories. *)
Definition same_bytes (s : Aspect) (m1 m2 : Memory) : Prop :=
  (forall pos,
     In pos (chord_positions (mat_rows (chord_input s)) (chord_limit s)) ->
     past_end (Memory := m1) true pos = past_end (Memory := m2) true pos)
  /\ (forall pos,
       In pos (chord_positions (mat_cols (chord_input s)) (chord_limit s)) ->
       past_end (Memory := m1) false pos = past_end (Memory := m2) false pos).

(** The members a stage may read before the pipeline has written them,
    all but [state], [pixelError], [solarImageSize], [rowPairs] and
    [colPairs]. *)
Definition shared (s : Aspect) :=
  (cfg s, frame s, frameSize s, frameMin s, frameMax s, solarImage s,
   solarImageOffset s, pixelCenter s, kernel s, mapping s, conditionNumbers s,
   limbCrossings s, slopes s, pixelFiducials s, fiducialIDs s).

(** Two objects that differ at most in [state], [solarImageSize],
    [rowPairs] and [colPairs]. *)
Definition agree (s1 s2 : Aspect) : Prop :=
  shared s1 = shared s2 /\ pixelError s1 = pixelError s2.

(** The members no stage writes. *)
Definition static (s : Aspect) := (cfg s, frame s, frameSize s, kernel s).

(** 2 x 4, dark along row 0 and column 0, where the chords of so small a
    frame are cut. *)
Definition frame_dark_chords : Mat Z := [[0; 0; 0; 0]; [0; 100; 100; 100]].

(** 4 x 40, every row dark, bright from 5 to 34, dark: the 30 row chords
    are all row 0 and each gives two crossings; no column chord has an
    edge. *)
Definition frame_band : Mat Z :=
  repeat (run_of 5 0 ++ run_of 30 200 ++ run_of 5 0) 4.

(** The object as [Run] has it when it calls [FindPixelCenter]: outputs
    cleared, robust min and max stored. *)
Definition Run_base (s : Aspect) : Aspect :=
  set_frameMax (snd (calcMinMax (frame s)))
    (set_frameMin (fst (calcMinMax (frame s))) (Run_clear s)).

(** ** Vocabulary of the further properties *)

(** Every member but the configuration. *)
Definition data_members (s : Aspect) :=
  (state s, frame s, frameSize s, frameMin s, frameMax s, solarImage s,
   solarImageSize s, solarImageOffset s, pixelCenter s, pixelError s,
   kernel s, mapping s, conditionNumbers s, limbCrossings s, slopes s,
   pixelFiducials s, fiducialIDs s, rowPairs s, colPairs s).

(** What the constructor derives from the parameters: the two distance
    tables (from [fiducialSpacing]) and the template (from
    [fiducialLength] and [fiducialWidth]). *)
Definition derived (s : Aspect) :=
  (mDistances (cfg s), nDistances (cfg s), kernel s).

(** An object fresh from the constructor. *)
Definition fresh : Aspect := Aspect_new (cv := Backend.backend).

(** A range [cv::Mat::operator()] accepts for a dimension of [size]. *)
Definition legal_range (r : Range) (size : Z) : Prop :=
  0 <= r_start r <= r_end r /\ r_end r <= size.

(** The states [FiducialRun] can return on an object whose [frameSize]
    is the size of its frame. *)
Definition fiducial_run_states : list AspectCode :=
  [FRAME_EMPTY; MIN_MAX_BAD; DYNAMIC_RANGE_LOW; SOLAR_IMAGE_SMALL;
   NO_FIDUCIALS; FEW_FIDUCIALS; NO_IDS; FEW_IDS; NO_ERROR].

(** The states set from the fiducial stage on. *)
Definition fiducial_stage_states : list AspectCode :=
  [NO_FIDUCIALS; FEW_FIDUCIALS; NO_IDS; FEW_IDS; NO_ERROR].

(** The number of entries of [data] equal to [v]. *)
Definition occurrences (v : Z) (data : list Z) : Z :=
  zlength (filter (Z.eqb v) data).

(** The count a frequency map holds for [k] (0 when [k] is no key) and
    the largest count it holds. *)
Fixpoint lookup (m : list (Z * Z)) (k : Z) : Z :=
  match m with
  | [] => 0
  | (k', c) :: m' => if k =? k' then c else lookup m' k
  end.

Definition largest_count (m : list (Z * Z)) : Z :=
  fold_left (fun a kc => Z.max a (snd kc)) m 0.

(** Structural equality of floats, of points and of identifiers. *)
Definition spec_float_eqb (x y : spec_float) : bool :=
  match x, y with
  | S754_zero a, S754_zero b => Bool.eqb a b
  | S754_infinity a, S754_infinity b => Bool.eqb a b
  | S754_nan, S754_nan => true
  | S754_finite s m e, S754_finite s' m' e' =>
      Bool.eqb s s' && Pos.eqb m m' && Z.eqb e e'
  | _, _ => false
  end.

Definition Point2f_eqb (p q : Point2f) : bool :=
  spec_float_eqb (px p) (px q) && spec_float_eqb (py p) (py q).

Definition Point2i_eqb (a b : Point2i) : bool :=
  (ix a =? ix b) && (iy a =? iy b).

(** The identifiers the identification stage can assign when it
    succeeds on both axes: -8 .. 8 on each. *)
Definition in_grid (id : Point2i) : Prop :=
  -8 <= ix id <= 8 /\ -8 <= iy id <= 8.

Definition id_grid : list Point2i :=
  flat_map (fun x => map (mkPoint2i x) (zseq (-8) 17)) (zseq (-8) 17).

(** No two identifiers of the list have the same screen position. *)
Definition screen_injective_on (ids : list Point2i) : bool :=
  let images := map (fun id => (id, fiducialIDtoScreen id)) ids in
  forallb
    (fun a =>
       forallb
         (fun b => negb (Point2f_eqb (snd a) (snd b))
                   || Point2i_eqb (fst a) (fst b))
         images)
    images.

(** The steps of the screen grid at table entry [k], between the
    identifiers [k - 7] and [k - 6] of one axis at [j] on the other:
    [(dx, dy)] along x and along y. *)
Definition screen_step_x (k j : Z) : spec_float * spec_float :=
  let lo := fiducialIDtoScreen (mkPoint2i (k - 7) j) in
  let hi := fiducialIDtoScreen (mkPoint2i (k - 6) j) in
  (F32.sub (px hi) (px lo), F32.sub (py hi) (py lo)).

Definition screen_step_y (k j : Z) : spec_float * spec_float :=
  let lo := fiducialIDtoScreen (mkPoint2i j (k - 7)) in
  let hi := fiducialIDtoScreen (mkPoint2i j (k - 6)) in
  (F32.sub (px hi) (px lo), F32.sub (py hi) (py lo)).

(** The table entry in screen units: the table built for a spacing of
    15, times 6. *)
Definition table_step (k : Z) : spec_float :=
  F32.mul (F32.of_Z 6) (znth S754_nan (distance_table (F32.of_Z 15)) k).

Definition table_matches_screen (k j : Z) : bool :=
  let '(xx, xy) := screen_step_x k j in
  let '(yx, yy) := screen_step_y k j in
  spec_float_eqb xx (table_step k) && spec_float_eqb xy (F32.of_Z 90)
  && spec_float_eqb yy (table_step k) && spec_float_eqb yx (F32.of_Z (-90)).

(** A pair of fiducial indices as the pair loop lists it: the smaller
    index first, both below the number [K] of fiducials. *)
Definition ordered_pair (K : Z) (p : Point2i) : Prop :=
  0 <= ix p < iy p /\ iy p < K.

(** Fiducial [i] is a member of no pair of the list. *)
Definition unpaired (i : Z) (pairs : IndexList) : Prop :=
  forall p, In p pairs -> ix p <> i /\ iy p <> i.

(** One isolated fiducial. *)
Definition fiducials_single : CoordList :=
  [mkPoint2f (F32.of_Z 100) (F32.of_Z 100)].

(** The pairs listed so far: each from an index pair already visited,
    none twice, none in both lists. *)
Definition pairs_inv (done : list (Z * Z)) (acc : IndexList * IndexList)
  : Prop :=
  NoDup (fst acc ++ snd acc)
  /\ forall p, In p (fst acc ++ snd acc) -> In (ix p, iy p) done.

(** * Properties *)

Lemma AspectCode_eqb_eq (a b : AspectCode) :
  AspectCode_eqb a b = true <-> a = b.
Proof. destruct a, b; simpl; split; intro H; try reflexivity; discriminate H. Qed.

Lemma AspectCode_eqb_refl (a : AspectCode) : AspectCode_eqb a a = true.
Proof. apply AspectCode_eqb_eq. reflexivity. Qed.

(** ** Getters on error *)

Section GetterProperties.
Variable code : AspectCode -> Z.

(** C10.  A getter called when [state] is not below its ceiling returns
    [state]; all getters but [GetScreenFiducials] leave their reference
    arguments as the caller passed them, and [GetScreenFiducials] returns
    with the caller's list emptied. *)
Theorem getters_at_or_past_ceiling (s : Aspect) :
  (code FRAME_EMPTY <= code (state s) ->
     forall mn mx, echoes (GetPixelMinMax code s mn mx) s (mn, mx))
  /\ (code LIMB_ERROR <= code (state s) ->
     forall l, echoes (GetPixelCrossings code s l) s l)
  /\ (code CENTER_ERROR <= code (state s) ->
     (forall p, echoes (GetPixelCenter code s p) s p)
     /\ (forall p, echoes (GetPixelError code s p) s p))
  /\ (code FIDUCIAL_ERROR <= code (state s) ->
     forall l, echoes (GetPixelFiducials code s l) s l)
  /\ (code ID_ERROR <= code (state s) ->
     (forall r c, echoes (GetFiducialPairs code s r c) s (r, c))
     /\ (forall l, echoes (GetFiducialIDs code s l) s l))
  /\ (code MAPPING_ERROR <= code (state s) ->
     (forall m, echoes (GetMapping code s m) s m)
     /\ (forall p, echoes (GetScreenCenter code s p) s p)
     /\ (forall l, echoes (GetScreenFiducials code s l) s [])).
Proof.
  assert (E : forall c, code c <= code (state s) -> before code s c = false).
  { intros c H. unfold before. apply Z.ltb_ge. exact H. }
  unfold echoes, GetPixelMinMax, GetPixelCrossings, GetPixelCenter,
    GetPixelError, GetPixelFiducials, GetFiducialPairs, GetFiducialIDs,
    GetMapping, GetScreenCenter, GetScreenFiducials.
  repeat split; intros; rewrite (E _ H); reflexivity.
Qed.

End GetterProperties.

Lemma getters_at_or_past_ceiling_witness :
  let s := Aspect_new (cv := Backend.backend) in
  GetPixelCenter stage_code s sentinel = (STALE_DATA, sentinel)
  /\ GetScreenFiducials stage_code s [sentinel] = (STALE_DATA, []).
Proof.
  intro s.
  pose proof (getters_at_or_past_ceiling stage_code s) as H.
  destruct H as (_ & _ & Hc & _ & _ & Hm).
  split.
  - apply Hc. simpl. lia.
  - apply Hm. simpl. lia.
Defined.

(** ** Floating-point comparisons *)

Lemma SFcompare_antisym (x y : spec_float) :
  SFcompare y x = option_map CompOpp (SFcompare x y).
Proof.
  destruct x as [sx|sx| |sx mx ex], y as [sy|sy| |sy my ey]; simpl;
    try reflexivity; try (destruct sx; reflexivity);
    try (destruct sy; reflexivity);
    try (destruct sx, sy; reflexivity).
  assert (P : Pos.compare_cont Eq my mx = CompOpp (Pos.compare_cont Eq mx my)).
  { rewrite Pos.compare_cont_antisym. reflexivity. }
  destruct sx, sy; simpl; try reflexivity;
    rewrite (Z.compare_antisym ex ey); destruct (ex ?= ey); simpl;
    try reflexivity;
    rewrite P; destruct (Pos.compare_cont Eq mx my); reflexivity.
Qed.

(** On numbers, "not less" is "greater or equal". *)
Lemma SFltb_false_SFleb (x y : spec_float) :
  isnan x = false -> isnan y = false ->
  SFltb x y = false -> SFleb y x = true.
Proof.
  intros Hx Hy. unfold SFltb, SFleb. rewrite (SFcompare_antisym x y).
  destruct x, y; try discriminate; simpl;
    repeat match goal with |- context [if ?b then _ else _] => destruct b end;
    simpl; try congruence;
    repeat match goal with
           | |- context [match ?c with Eq => _ | Lt => _ | Gt => _ end] =>
               destruct c; simpl
           end; congruence.
Qed.

Lemma SFleb_false_SFltb (x y : spec_float) :
  isnan x = false -> isnan y = false ->
  SFleb x y = false -> SFltb y x = true.
Proof.
  intros Hx Hy. unfold SFltb, SFleb. rewrite (SFcompare_antisym x y).
  destruct x, y; try discriminate; simpl;
    repeat match goal with |- context [if ?b then _ else _] => destruct b end;
    simpl; try congruence;
    repeat match goal with
           | |- context [match ?c with Eq => _ | Lt => _ | Gt => _ end] =>
               destruct c; simpl
           end; congruence.
Qed.

Lemma isfinite_not_nan (x : spec_float) : isfinite x = true -> isnan x = false.
Proof. destruct x; simpl; congruence. Qed.

(** Rounding a non-negative mantissa never gives NaN. *)
Section RoundNotNan.
Variables prec emax : Z.

Lemma shr_1_nonneg mrs : 0 <= shr_m mrs -> 0 <= shr_m (shr_1 mrs).
Proof.
  destruct mrs as [m r s]. simpl. destruct m as [|p|p]; simpl; try lia;
    destruct p; simpl; lia.
Qed.

Lemma iter_pos_nonneg n : forall mrs,
  0 <= shr_m mrs -> 0 <= shr_m (iter_pos shr_1 n mrs).
Proof.
  induction n as [n IH|n IH|]; intros mrs H; simpl.
  - apply IH, IH, shr_1_nonneg, H.
  - apply IH, IH, H.
  - apply shr_1_nonneg, H.
Qed.

Lemma shr_fexp_nonneg m e l :
  0 <= m -> 0 <= shr_m (fst (shr_fexp prec emax m e l)).
Proof.
  intro H. unfold shr_fexp, shr.
  assert (H0 : 0 <= shr_m (shr_record_of_loc m l)).
  { destruct l as [|[| |]]; exact H. }
  destruct (_ - e) as [|p|p]; simpl; try exact H0.
  apply iter_pos_nonneg, H0.
Qed.

Lemma round_nearest_even_nonneg m l : 0 <= m -> 0 <= round_nearest_even m l.
Proof.
  intro H. unfold round_nearest_even.
  destruct l as [|[| |]]; try lia. destruct (Z.even m); lia.
Qed.

Lemma binary_round_aux_not_nan sx mx ex lx :
  0 <= mx -> isnan (binary_round_aux prec emax sx mx ex lx) = false.
Proof.
  intro H. unfold binary_round_aux.
  pose proof (shr_fexp_nonneg mx ex lx H) as H1.
  destruct (shr_fexp prec emax mx ex lx) as [mrs' e']. simpl in H1.
  pose proof (shr_fexp_nonneg _ e' loc_Exact
                (round_nearest_even_nonneg _ (loc_of_shr_record mrs') H1)) as H2.
  destruct (shr_fexp prec emax _ e' loc_Exact) as [mrs'' e'']. simpl in H2.
  destruct (shr_m mrs'') as [|p|p]; [reflexivity| |lia].
  destruct (e'' <=? emax - prec); reflexivity.
Qed.

Lemma binary_round_not_nan sx mx ex :
  isnan (binary_round prec emax sx mx ex) = false.
Proof.
  unfold binary_round. destruct (shl_align _ _ _) as [mz ez].
  apply binary_round_aux_not_nan. lia.
Qed.

Lemma binary_normalize_not_nan m e sz :
  isnan (binary_normalize prec emax m e sz) = false.
Proof.
  unfold binary_normalize. destruct m; [reflexivity| |];
    apply binary_round_not_nan.
Qed.

End RoundNotNan.

Lemma F32_of_Z_not_nan (z : Z) : isnan (F32.of_Z z) = false.
Proof. apply binary_normalize_not_nan. Qed.

Lemma F64_of_Z_not_nan (z : Z) : isnan (F64.of_Z z) = false.
Proof. apply binary_normalize_not_nan. Qed.

(** ** The histogram loop *)

Lemma zlength_nonneg {A} (l : list A) : 0 <= zlength l.
Proof. unfold zlength. lia. Qed.

Lemma zlength_cons {A} (a : A) (l : list A) : zlength (a :: l) = zlength l + 1.
Proof. unfold zlength. simpl length. lia. Qed.

Lemma zlength_app {A} (l1 l2 : list A) :
  zlength (l1 ++ l2) = zlength l1 + zlength l2.
Proof. unfold zlength. rewrite length_app. lia. Qed.

Lemma cumulative_step_list (l : list Z) (j : Z) :
  zlength (filter (fun v => v <=? j) l)
  = zlength (filter (fun v => v <=? j - 1) l) + zlength (filter (Z.eqb j) l).
Proof.
  induction l as [|v l IH]; simpl; [reflexivity|].
  destruct (Z.leb_spec v j), (Z.leb_spec v (j - 1)), (Z.eqb_spec j v);
    try lia; rewrite ?zlength_cons; lia.
Qed.

Lemma cumulative_step (f : Mat Z) (j : Z) :
  cumulative f j = cumulative f (j - 1) + count_value j f.
Proof. apply cumulative_step_list. Qed.

Lemma filter_none (l : list Z) (j : Z) :
  Forall is_uchar l -> j < 0 -> filter (fun v => v <=? j) l = [].
Proof.
  intros H Hj. induction H as [|v l Hv _ IH]; simpl; [reflexivity|].
  unfold is_uchar in Hv. destruct (Z.leb_spec v j); [lia|exact IH].
Qed.

Lemma filter_all (l : list Z) (j : Z) :
  Forall is_uchar l -> 255 <= j -> filter (fun v => v <=? j) l = l.
Proof.
  intros H Hj. induction H as [|v l Hv _ IH]; simpl; [reflexivity|].
  unfold is_uchar in Hv. destruct (Z.leb_spec v j); [|lia]. now rewrite IH.
Qed.

Lemma Forall_concat {A} (P : A -> Prop) (m : list (list A)) :
  Forall (Forall P) m -> Forall P (concat m).
Proof.
  induction 1 as [|r m Hr _ IH]; simpl; [constructor|].
  apply Forall_app. split; assumption.
Qed.

Lemma zlength_concat_rect {A} (m : list (list A)) (c : Z) :
  Forall (fun row => zlength row = c) m ->
  zlength (concat m) = zlength m * c.
Proof.
  induction 1 as [|r m Hr _ IH]; [reflexivity|].
  cbn [concat]. rewrite zlength_app, zlength_cons, IH, Hr. lia.
Qed.

Lemma cumulative_below (f : Mat Z) :
  frame_wf f -> cumulative f (-1) = 0.
Proof.
  intros [_ H]. unfold cumulative.
  rewrite filter_none; [reflexivity| |lia]. now apply Forall_concat.
Qed.

Lemma cumulative_top (f : Mat Z) :
  frame_wf f -> cumulative f 255 = pixel_count f.
Proof.
  intros [Hr H]. unfold cumulative, pixel_count.
  rewrite filter_all; [| now apply Forall_concat | lia].
  apply zlength_concat_rect. exact Hr.
Qed.

Lemma pixel_count_nonneg (f : Mat Z) : 0 <= pixel_count f.
Proof.
  unfold pixel_count, mat_rows, mat_cols.
  destruct f as [|r f]; [simpl; lia|].
  pose proof (zlength_nonneg (r :: f)). pose proof (zlength_nonneg r). nia.
Qed.

Lemma found_ok_step (P : Z -> bool) (n : Z) (found : bool) (v : Z) :
  0 <= n ->
  found_ok P n found v ->
  found_ok P (n + 1)
    (if negb found && P n then true else found)
    (if negb found && P n then n else v).
Proof.
  intros Hn H. destruct found; simpl in *.
  - destruct H as [H1 H2]. split; [exact H1|lia].
  - destruct (P n) eqn:E; simpl.
    + split; [|lia]. repeat split; [lia|exact E|exact H].
    + intros i Hi. destruct (Z.eq_dec i n) as [->|Hne]; [exact E|].
      apply H. lia.
Qed.

Lemma calcMinMax_body_inv (f : Mat Z) (n : Z) (st : MinMaxLoop) :
  0 <= n -> MinMaxInv f n st ->
  MinMaxInv f (n + 1) (calcMinMax_body f (pixel_count f) n st).
Proof.
  intros Hn (Ht & Hmin & Hmax).
  assert (Tot : mm_total st + count_value n f = cumulative f n).
  { rewrite Ht. symmetry. apply cumulative_step. }
  pose proof (found_ok_step _ n _ _ Hn Hmin) as Smin.
  pose proof (found_ok_step _ n _ _ Hn Hmax) as Smax.
  unfold low_reached in Smin at 2 3. unfold high_reached in Smax at 2 3.
  unfold calcMinMax_body. rewrite Tot.
  destruct (negb (mm_min_found st) && reaches_low (cumulative f n) (pixel_count f));
  destruct (negb (mm_max_found st) && reaches_high (cumulative f n) (pixel_count f));
  (split; [cbn [mm_total]; f_equal; lia|]); cbn [mm_min mm_min_found mm_max mm_max_found];
  split; assumption.
Qed.

Lemma top_reached (f : Mat Z) :
  frame_wf f -> low_reached f 255 = true /\ high_reached f 255 = true.
Proof.
  intro Hwf. unfold low_reached, high_reached, reaches_low, reaches_high.
  rewrite (cumulative_top f Hwf).
  pose proof (pixel_count_nonneg f) as Hp.
  split; apply Z.leb_le; [lia|].
  apply Z.div_le_upper_bound; lia.
Qed.

Lemma calcMinMax_loop_correct (f : Mat Z) (Hwf : frame_wf f) :
  forall fuel n st j,
    0 <= n -> n + Z.of_nat fuel = 256 -> MinMaxInv f n st -> j = n mod 256 ->
    exists st',
      calcMinMax_loop fuel f (pixel_count f) j st = Some st'
      /\ (least (low_reached f) (mm_min st') /\ mm_min st' < 256)
      /\ (least (high_reached f) (mm_max st') /\ mm_max st' < 256).
Proof.
  induction fuel as [|fuel IH]; intros n st j Hn Hf Inv Hj.
  - (* all 256 bins added: both values are found *)
    assert (n = 256) by lia. subst n.
    destruct Inv as (_ & Hmin & Hmax).
    destruct (top_reached f Hwf) as [Tl Th].
    unfold found_ok in Hmin, Hmax. simpl.
    destruct (mm_min_found st); [|rewrite Hmin in Tl; [discriminate|lia]].
    destruct (mm_max_found st); [|rewrite Hmax in Th; [discriminate|lia]].
    simpl. exists st. split; [reflexivity|split; assumption].
  - simpl.
    destruct (mm_min_found st && mm_max_found st) eqn:E.
    + apply andb_true_iff in E. destruct E as [E1 E2].
      destruct Inv as (_ & Hmin & Hmax). unfold found_ok in Hmin, Hmax.
      rewrite E1 in Hmin. rewrite E2 in Hmax. cbv iota in Hmin, Hmax.
      exists st. split; [reflexivity|]. split; (split; [tauto|lia]).
    + assert (Hj' : j = n) by (subst j; apply Z.mod_small; lia).
      subst j. rewrite Hj'.
      apply (IH (n + 1)); [lia|lia| |reflexivity].
      apply calcMinMax_body_inv; assumption.
Qed.

Lemma MinMaxInv_init (f : Mat Z) : frame_wf f -> MinMaxInv f 0 calcMinMax_init.
Proof.
  intro Hwf. unfold MinMaxInv, calcMinMax_init; simpl.
  split; [symmetry; apply (cumulative_below f Hwf)|].
  split; intros i Hi; lia.
Qed.

Lemma find_zseq_least (P : Z -> bool) :
  forall n a j,
    a <= j < a + Z.of_nat n -> P j = true ->
    (forall i, a <= i < j -> P i = false) ->
    find P (zseq a n) = Some j.
Proof.
  induction n as [|n IH]; intros a j Hj Pj Hlt; [lia|].
  simpl. destruct (Z.eq_dec a j) as [->|Hne].
  - now rewrite Pj.
  - rewrite (Hlt a) by lia. apply IH; [lia|exact Pj|].
    intros i Hi. apply Hlt. lia.
Qed.

Lemma first_reaching_least (P : Z -> bool) (j : Z) :
  least P j -> j < 256 -> first_reaching P = j.
Proof.
  intros (H0 & Pj & Hlt) Hj. unfold first_reaching.
  rewrite (find_zseq_least P 256 0 j); [reflexivity|simpl; lia|exact Pj|exact Hlt].
Qed.

Lemma first_reaching_ext (P Q : Z -> bool) :
  (forall j, P j = Q j) -> first_reaching P = first_reaching Q.
Proof.
  intro H. unfold first_reaching.
  assert (E : forall l, find P l = find Q l).
  { induction l as [|a l IH]; simpl; [reflexivity|]. rewrite H, IH. reflexivity. }
  now rewrite E.
Qed.

(** [calcMinMax] computes the robust minimum and the robust maximum with
    the truncated count; the loop never runs out of its 256 turns. *)
Lemma calcMinMax_robust (f : Mat Z) :
  frame_wf f ->
  calcMinMax_opt f = Some (robust_min f, robust_max_floor f)
  /\ calcMinMax f = (robust_min f, robust_max_floor f).
Proof.
  intro Hwf.
  destruct (calcMinMax_loop_correct f Hwf 256 0 calcMinMax_init 0)
    as (st & Hst & (Lmin & Bmin) & (Lmax & Bmax));
    [lia|simpl; lia|apply MinMaxInv_init; exact Hwf|reflexivity|].
  assert (Emin : robust_min f = mm_min st).
  { rewrite <- (first_reaching_least _ _ Lmin Bmin). unfold robust_min.
    apply first_reaching_ext. intro j. unfold low_reached, reaches_low.
    apply eq_true_iff_eq. rewrite !Z.leb_le. lia. }
  assert (Emax : robust_max_floor f = mm_max st).
  { rewrite <- (first_reaching_least _ _ Lmax Bmax). reflexivity. }
  assert (E : calcMinMax_opt f = Some (robust_min f, robust_max_floor f)).
  { unfold calcMinMax_opt. fold (pixel_count f). rewrite Hst, Emin, Emax.
    reflexivity. }
  split; [exact E|]. unfold calcMinMax. now rewrite E.
Qed.

(** ** What each stage writes *)

Ltac fields :=
  cbn [cfg state frame frameSize frameMin frameMax solarImage solarImageSize
       solarImageOffset pixelCenter pixelError kernel mapping conditionNumbers
       limbCrossings slopes pixelFiducials fiducialIDs rowPairs colPairs
       set_state set_frame set_frameSize set_frameMin set_frameMax
       set_solarImage set_solarImageSize set_solarImageOffset set_pixelCenter
       set_pixelError set_mapping set_conditionNumbers set_limbCrossings
       set_slopes set_pixelFiducials set_fiducialIDs set_rowPairs
       set_colPairs] in *.

Section StageShapes.
Context {cv : OpenCV} {mem : Memory}.

Lemma FindPixelCenter_shape (s : Aspect) :
  exists c e l sl,
    FindPixelCenter s
    = set_slopes sl (set_limbCrossings l (set_pixelError e (set_pixelCenter c s))).
Proof. unfold FindPixelCenter. repeat eexists. Qed.

Lemma FindPixelFiducials_shape (s : Aspect) :
  exists l, FindPixelFiducials s = set_pixelFiducials l s.
Proof.
  unfold FindPixelFiducials.
  destruct (cv_meanStdDev _) as [mean stddev]. eexists. reflexivity.
Qed.

Lemma push_vote_length (i v : Z) (votes : list (list Z)) :
  length (push_vote i v votes) = length votes.
Proof.
  unfold push_vote, zreplace. destruct (i <? 0); [reflexivity|].
  generalize (znth [] votes i ++ [v]) as x. generalize (Z.to_nat i) as n.
  induction votes as [|a votes IH]; intros [|n] x; simpl; try reflexivity.
  now rewrite IH.
Qed.

Lemma fold_left_length_inv {A B} (f : list A -> B -> list A) (l : list B) :
  (forall a b, length (f a b) = length a) ->
  forall a, length (fold_left f l a) = length a.
Proof.
  intro H. induction l as [|b l IH]; intro a; simpl; [reflexivity|].
  now rewrite IH, H.
Qed.

Lemma first_pass_votes_length c table diff a b votes :
  length (first_pass_votes c table diff a b votes) = length votes.
Proof.
  unfold first_pass_votes. apply fold_left_length_inv.
  intros v d. destruct (near c diff _); [|reflexivity].
  destruct (SFgtb diff _); now rewrite !push_vote_length.
Qed.

Lemma first_pass_ids_length c rotated rp cp K :
  length (first_pass_ids c rotated rp cp K) = K.
Proof.
  unfold first_pass_ids, first_pass_rows, first_pass_cols.
  rewrite length_map, length_combine.
  rewrite !fold_left_length_inv, repeat_length; [lia| |];
    intros; apply first_pass_votes_length.
Qed.

Lemma cast_votes_length K votes :
  length (fst (cast_votes K votes)) = K /\ length (snd (cast_votes K votes)) = K.
Proof.
  unfold cast_votes.
  assert (G : forall l (acc : list (list Z) * list (list Z)),
             length (fst acc) = K /\ length (snd acc) = K ->
             length (fst (fold_left
               (fun '(rowVotes, colVotes) v =>
                  match v_axis v with
                  | AxisY => (push_vote (v_target v) (v_value v) rowVotes, colVotes)
                  | AxisX => (rowVotes, push_vote (v_target v) (v_value v) colVotes)
                  end) l acc)) = K
             /\ length (snd (fold_left
               (fun '(rowVotes, colVotes) v =>
                  match v_axis v with
                  | AxisY => (push_vote (v_target v) (v_value v) rowVotes, colVotes)
                  | AxisX => (rowVotes, push_vote (v_target v) (v_value v) colVotes)
                  end) l acc)) = K).
  { induction l as [|v l IH]; intros [r c] [Hr Hc]; simpl in *; [tauto|].
    apply IH. destruct (v_axis v); simpl; rewrite ?push_vote_length; tauto. }
  apply G. simpl. now rewrite !repeat_length.
Qed.

Lemma second_pass_ids_length ids votes :
  length (second_pass_ids ids votes) = length ids.
Proof.
  unfold second_pass_ids.
  destruct (cast_votes_length (length ids) votes) as [Hr Hc].
  destruct (cast_votes (length ids) votes) as [r c]. simpl in Hr, Hc.
  rewrite length_map, !length_combine. lia.
Qed.

Lemma FindFiducialIDs_shape (s : Aspect) :
  exists ids rp cp,
    FindFiducialIDs s = set_fiducialIDs ids (set_colPairs cp (set_rowPairs rp s))
    /\ length ids = length (pixelFiducials s).
Proof.
  unfold FindFiducialIDs, second_pass, first_pass.
  destruct (find_pairs _ _ _) as [rp cp].
  eexists _, rp, cp. split; [reflexivity|].
  now rewrite second_pass_ids_length, first_pass_ids_length.
Qed.

Lemma FindMapping_shape (s : Aspect) :
  exists a b c d, FindMapping s = set_mapping [a; b; c; d] s.
Proof. unfold FindMapping. repeat eexists. Qed.

End StageShapes.

(** ** The paths of [Run] *)

Section RunPaths.
Context {cv : OpenCV} {mem : Memory}.

Ltac split_ifs :=
  repeat match goal with
         | |- context [if ?b then _ else _] => destruct b eqn:?
         end.

Lemma zlength_zero_nil {A} (l : list A) : (zlength l =? 0) = true -> l = [].
Proof.
  intro H. apply Z.eqb_eq in H. destruct l; [reflexivity|].
  rewrite zlength_cons in H. pose proof (zlength_nonneg l). lia.
Qed.

(** The fiducial, identification and mapping stages: the states they can
    end in, what they leave alone, and the sizes of their products. *)
Lemma Run_fiducials_props (s : Aspect) :
  let r := Run_fiducials s in
  In (state r) [NO_FIDUCIALS; FEW_FIDUCIALS; NO_IDS; FEW_IDS; NO_ERROR]
  /\ (pixelCenter r = pixelCenter s /\ pixelError r = pixelError s
      /\ frameSize r = frameSize s /\ limbCrossings r = limbCrossings s
      /\ solarImage r = solarImage s
      /\ solarImageOffset r = solarImageOffset s)
  /\ (length (mapping s) = 4%nat -> length (mapping r) = 4%nat)
  /\ (fiducialIDs s = [] -> sizes_agree r).
Proof.
  unfold sizes_agree, Run_fiducials. cbv zeta.
  destruct (FindPixelFiducials_shape s) as (l & ->).
  destruct (FindFiducialIDs_shape (set_pixelFiducials l s))
    as (ids & rp & cp & -> & Hlen).
  destruct (FindMapping_shape
              (set_fiducialIDs ids
                 (set_colPairs cp (set_rowPairs rp (set_pixelFiducials l s)))))
    as (a & b & c & d & ->).
  fields.
  destruct (zlength l =? 0) eqn:E0; [|destruct (zlength l <? 3) eqn:E3];
    [| |destruct (count_validIDs ids =? 0);
        [|destruct (count_validIDs ids <? 3)]]; fields;
    (split; [simpl; tauto|]); (split; [repeat split; reflexivity|]);
    (split; [try (intros _; reflexivity); tauto|]); intro Hids.
  - apply zlength_zero_nil in E0. subst l. rewrite Hids.
    split; [reflexivity|intro H; discriminate H].
  - split; [intro H; now elim H|]. intros _. split; [exact Hids|].
    apply Z.eqb_neq in E0. apply Z.ltb_lt in E3. unfold zlength in *. lia.
  - split; [intros _; exact Hlen|intro H; discriminate H].
  - split; [intros _; exact Hlen|intro H; discriminate H].
  - split; [intros _; exact Hlen|intro H; discriminate H].
Qed.

Lemma Run_subimage_props (s : Aspect) :
  let r := Run_subimage s in
  In (state r) after_center
  /\ (pixelCenter r = pixelCenter s /\ pixelError r = pixelError s
      /\ frameSize r = frameSize s /\ limbCrossings r = limbCrossings s)
  /\ (length (mapping s) = 4%nat -> length (mapping r) = 4%nat)
  /\ (fiducialIDs s = [] -> pixelFiducials s = [] -> sizes_agree r).
Proof.
  unfold Run_subimage. cbv zeta.
  match goal with |- context [set_solarImage ?i s] => generalize i; intro img end.
  match goal with |- context [mkPoint2i ?a ?b] => generalize (mkPoint2i a b); intro off end.
  fields.
  destruct (mat_empty img); [|destruct (_ || _)]; fields.
  1,2: (split; [simpl; tauto|]); (split; [repeat split; reflexivity|]);
    (split; [tauto|]); intros Hi Hp; unfold sizes_agree; fields; rewrite Hi, Hp;
    (split; [reflexivity|intro H; discriminate H]).
  destruct (_ || _); fields.
  - (split; [simpl; tauto|]); (split; [repeat split; reflexivity|]);
    (split; [tauto|]); intros Hi Hp; unfold sizes_agree; fields; rewrite Hi, Hp;
    (split; [reflexivity|intro H; discriminate H]).
  - match goal with |- context [Run_fiducials ?x] =>
      destruct (Run_fiducials_props x) as (Hst & (Hc & He & Hf & Hl & _) & Hm & Hs)
    end.
    fields. split; [|split; [|split]].
    + simpl in Hst |- *. tauto.
    + rewrite Hc, He, Hf, Hl. repeat split; reflexivity.
    + exact Hm.
    + intros Hi _. apply Hs. exact Hi.
Qed.

Lemma center_out_of_frame_ext (r s : Aspect) :
  pixelCenter r = pixelCenter s -> frameSize r = frameSize s ->
  center_out_of_frame r = center_out_of_frame s.
Proof. intros H1 H2. unfold center_out_of_frame. now rewrite H1, H2. Qed.

Lemma Run_center_props (s : Aspect) :
  let r := Run_center s in
  In (state r) (at_center ++ after_center)
  /\ frameSize r = frameSize s
  /\ limbCrossings r = limbCrossings (FindPixelCenter s)
  /\ (In (state r) at_center -> pixelCenter r = sentinel)
  /\ (In (state r) after_center ->
      center_out_of_frame r = false
      /\ pixelCenter r = pixelCenter (FindPixelCenter s))
  /\ (length (mapping s) = 4%nat -> length (mapping r) = 4%nat)
  /\ (fiducialIDs s = [] -> pixelFiducials s = [] -> sizes_agree r).
Proof.
  unfold Run_center. cbv zeta.
  destruct (FindPixelCenter_shape s) as (c & e & l & sl & ->). fields.
  set (s1 := set_slopes sl (set_limbCrossings l (set_pixelError e (set_pixelCenter c s)))).
  destruct (zlength l =? 0); [|destruct (zlength l <? 4);
    [|destruct (center_out_of_frame s1) eqn:Ec;
      [|destruct (error_too_large s1)]]]; fields.
  1-4: (split; [simpl; tauto|]); (split; [reflexivity|]);
    (split; [reflexivity|]); (split; [reflexivity|]);
    (split; [simpl; intuition discriminate|]); (split; [tauto|]);
    intros Hi Hp; unfold sizes_agree; subst s1; fields; rewrite Hi, Hp;
    (split; [reflexivity|intro H; discriminate H]).
  destruct (Run_subimage_props s1) as (Hst & (Hc & He & Hf & Hl) & Hm & Hs).
  split; [apply in_or_app; right; exact Hst|].
  split; [exact Hf|]. split; [exact Hl|].
  split.
  { intro H. exfalso. revert H Hst. generalize (state (Run_subimage s1)).
    intros st H1 H2. simpl in H1, H2.
    repeat (destruct H1 as [<-|H1]; [intuition discriminate|]). exact H1. }
  split.
  { intros _. split; [|exact Hc].
    rewrite (center_out_of_frame_ext _ s1 Hc Hf). exact Ec. }
  split; [exact Hm|]. exact Hs.
Qed.

Lemma Run_clear_props (s : Aspect) :
  let r := Run_clear s in
  length (mapping r) = 4%nat /\ fiducialIDs r = [] /\ pixelFiducials r = []
  /\ limbCrossings r = [] /\ state r = state s /\ frame r = frame s
  /\ frameSize r = frameSize s /\ pixelCenter r = pixelCenter s
  /\ chord_input r = chord_input s /\ chord_shift r = chord_shift s
  /\ chord_limit r = chord_limit s.
Proof. unfold Run_clear. fields. repeat split; reflexivity. Qed.

Lemma not_center_out_of_frame (s : Aspect) :
  center_out_of_frame s = false -> in_frame s.
Proof.
  unfold center_out_of_frame, in_frame, SFgeb. intro H.
  repeat (apply orb_false_iff in H; destruct H as [H ?]).
  repeat match goal with
         | H : negb _ = false |- _ => apply negb_false_iff in H
         end.
  repeat split; try assumption.
  - apply SFltb_false_SFleb;
      [now apply isfinite_not_nan|apply F32_of_Z_not_nan|assumption].
  - apply SFleb_false_SFltb;
      [apply F32_of_Z_not_nan|now apply isfinite_not_nan|assumption].
  - apply SFltb_false_SFleb;
      [now apply isfinite_not_nan|apply F32_of_Z_not_nan|assumption].
  - apply SFleb_false_SFltb;
      [apply F32_of_Z_not_nan|now apply isfinite_not_nan|assumption].
Qed.

Lemma not_in_before_center (c : AspectCode) :
  In c (at_center ++ after_center) -> ~ In c before_center.
Proof.
  simpl. intros H1 H2.
  repeat (destruct H1 as [<-|H1]; [intuition discriminate|]). exact H1.
Qed.

(** [Run], path by path. *)
Lemma Run_props (s : Aspect) :
  let r := Run s in
  let mn := fst (calcMinMax (frame s)) in
  let mx := snd (calcMinMax (frame s)) in
  In (state r) (before_center ++ at_center ++ after_center)
  /\ frameSize r = frameSize s
  /\ length (mapping r) = 4%nat
  /\ sizes_agree r
  /\ (In (state r) before_center -> pixelCenter r = pixelCenter s)
  /\ (In (state r) at_center -> pixelCenter r = sentinel)
  /\ (In (state r) after_center -> in_frame r)
  /\ (state s = FRAME_EMPTY -> state r = FRAME_EMPTY)
  /\ (state s <> FRAME_EMPTY ->
      (state r = MIN_MAX_BAD <-> mx <= mn)
      /\ (mn < mx -> (state r = DYNAMIC_RANGE_LOW <-> mx - mn < 32)))
  /\ (limbCrossings r = []
      \/ exists s', limbCrossings r = limbCrossings (FindPixelCenter s')
                    /\ chord_input s' = chord_input s
                    /\ chord_shift s' = chord_shift s
                    /\ chord_limit s' = chord_limit s).
Proof.
  unfold Run. cbv zeta.
  destruct (Run_clear_props s)
    as (Hm & Hi & Hp & Hl & Hst & Hfr & Hfs & Hpc & Hci & Hcs & Hcl).
  rewrite Hst, Hfr.
  generalize dependent (Run_clear s).
  intros s0 Hm Hi Hp Hl Hst Hfr Hfs Hpc Hci Hcs Hcl.
  destruct (AspectCode_eqb (state s) FRAME_EMPTY) eqn:E.
  { apply AspectCode_eqb_eq in E. fields.
    split; [simpl; tauto|]. split; [exact Hfs|]. split; [exact Hm|].
    split; [unfold sizes_agree; fields; rewrite Hi, Hp;
            split; [reflexivity|intro H; discriminate H]|].
    split; [intros _; exact Hpc|].
    split; [simpl; intuition discriminate|].
    split; [simpl; intuition discriminate|].
    split; [reflexivity|]. split; [intro H; now elim H|]. left. exact Hl. }
  assert (Hne : state s <> FRAME_EMPTY).
  { intro H. rewrite H in E. discriminate E. }
  destruct (calcMinMax (frame s)) as [mn mx]. cbn [fst snd].
  destruct (Z.leb_spec mx mn) as [Hle|Hlt];
    [|destruct (Z.ltb_spec (mx - mn) 32) as [H32|H32]]; fields.
  1,2: (split; [simpl; tauto|]); (split; [exact Hfs|]); (split; [exact Hm|]);
    (split; [unfold sizes_agree; fields; rewrite Hi, Hp;
             split; [reflexivity|intro H; discriminate H]|]);
    (split; [intros _; exact Hpc|]);
    (split; [simpl; intuition discriminate|]);
    (split; [simpl; intuition discriminate|]);
    (split; [intro H; now elim Hne|]);
    (split; [|left; exact Hl]); intros _;
    (split; [split; intro; (reflexivity || discriminate || lia)|]); intros;
    split; intro; (reflexivity || discriminate || lia).
  assert (Hm1 : length (mapping (set_frameMax mx (set_frameMin mn s0))) = 4%nat)
    by exact Hm.
  assert (Hi1 : fiducialIDs (set_frameMax mx (set_frameMin mn s0)) = [])
    by exact Hi.
  assert (Hp1 : pixelFiducials (set_frameMax mx (set_frameMin mn s0)) = [])
    by exact Hp.
  assert (Hfs1 : frameSize (set_frameMax mx (set_frameMin mn s0)) = frameSize s)
    by exact Hfs.
  assert (Hci1 : chord_input (set_frameMax mx (set_frameMin mn s0)) = chord_input s)
    by exact Hci.
  assert (Hcs1 : chord_shift (set_frameMax mx (set_frameMin mn s0)) = chord_shift s)
    by exact Hcs.
  assert (Hcl1 : chord_limit (set_frameMax mx (set_frameMin mn s0)) = chord_limit s)
    by exact Hcl.
  generalize dependent (set_frameMax mx (set_frameMin mn s0)).
  intros s1 Hm1 Hi1 Hp1 Hfs1 Hci1 Hcs1 Hcl1.
  destruct (Run_center_props s1) as (Hs & Hf & Hlc & Hat & Haf & Hmm & Hsz).
  assert (Hnb := not_in_before_center _ Hs).
  generalize dependent (Run_center s1). intros r1 Hs Hf Hlc Hat Haf Hmm Hsz Hnb.
  split; [apply in_or_app; right; exact Hs|].
  split; [rewrite Hf; exact Hfs1|].
  split; [apply Hmm; exact Hm1|].
  split; [apply Hsz; [exact Hi1|exact Hp1]|].
  split; [intro H; now elim Hnb|].
  split; [exact Hat|].
  split; [intro H; apply not_center_out_of_frame, Haf, H|].
  split; [intro H; now elim Hne|].
  split; [|right; exists s1; split; [exact Hlc|repeat split; assumption]].
  intros _. simpl in Hnb.
  split; [split; [intro H; rewrite H in Hnb; tauto|lia]|].
  intros _. split; [intro H; rewrite H in Hnb; tauto|lia].
Qed.

End RunPaths.

(** ** Sizes of the products of [Run] *)

Section RunTheorems.
Context {cv : OpenCV} {mem : Memory}.

(** C1, amended.  After [Run], whatever state it returns, [mapping] has
    exactly 4 entries; [fiducialIDs] and [pixelFiducials] have the same
    size in every state but FEW_FIDUCIALS, where [Run] returns before the
    identification stage: [fiducialIDs] is then empty and
    [pixelFiducials] holds one or two points. *)
Theorem Run_sizes (s : Aspect) :
  let r := Run s in
  length (mapping r) = 4%nat
  /\ (state r <> FEW_FIDUCIALS ->
      length (fiducialIDs r) = length (pixelFiducials r))
  /\ (state r = FEW_FIDUCIALS ->
      fiducialIDs r = [] /\ (0 < length (pixelFiducials r) < 3)%nat).
Proof.
  intro r. destruct (Run_props s) as (_ & _ & Hm & Hs & _).
  split; [exact Hm|exact Hs].
Qed.

(** C2, amended.  After [Run]: in the states set after the centre stage
    (the SOLAR_IMAGE, FIDUCIALS and IDS states and NO_ERROR),
    [pixelCenter] is finite and lies in [0, W) x [0, H); in the states of
    the limb and centre stages it is the sentinel (-1, -1); in
    FRAME_EMPTY, MIN_MAX_BAD and DYNAMIC_RANGE_LOW it is what it was
    before the call. *)
Theorem Run_pixelCenter (s : Aspect) :
  let r := Run s in
  (In (state r) after_center -> in_frame r)
  /\ (In (state r) at_center -> pixelCenter r = sentinel)
  /\ (In (state r) before_center -> pixelCenter r = pixelCenter s).
Proof.
  intro r. destruct (Run_props s) as (_ & _ & _ & _ & Hb & Ha & Hf & _).
  split; [exact Hf|]. split; [exact Ha|exact Hb].
Qed.

Lemma find_zseq_spec (P : Z -> bool) : forall n a,
  match find P (zseq a n) with
  | Some i => a <= i < a + Z.of_nat n /\ P i = true
              /\ forall k, a <= k < i -> P k = false
  | None => forall k, a <= k < a + Z.of_nat n -> P k = false
  end.
Proof.
  induction n as [|n IH]; intro a; [simpl; lia|].
  cbn [zseq find]. destruct (P a) eqn:E.
  - split; [lia|]. split; [exact E|lia].
  - specialize (IH (a + 1)). destruct (find P (zseq (a + 1) n)) as [i|].
    + destruct IH as (H1 & H2 & H3). split; [lia|]. split; [exact H2|].
      intros k Hk. destruct (Z.eq_dec k a) as [->|]; [exact E|apply H3; lia].
    + intros k Hk. destruct (Z.eq_dec k a) as [->|]; [exact E|apply IH; lia].
Qed.

Lemma first_reaching_range (P : Z -> bool) : 0 <= first_reaching P < 256.
Proof.
  unfold first_reaching. pose proof (find_zseq_spec P 256 0) as H.
  destruct (find P (zseq 0 256)); simpl in H; lia.
Qed.

Lemma first_reaching_le (P : Z -> bool) (j : Z) :
  0 <= j < 256 -> P j = true -> first_reaching P <= j.
Proof.
  intros Hj Pj. unfold first_reaching. pose proof (find_zseq_spec P 256 0) as H.
  destruct (find P (zseq 0 256)) as [i|].
  - destruct H as (_ & _ & H). destruct (Z.le_gt_cases i j); [assumption|].
    rewrite H in Pj; [discriminate|lia].
  - rewrite H in Pj; [discriminate|simpl; lia].
Qed.

Lemma first_reaching_ge (P : Z -> bool) (v : Z) :
  v < 256 -> (forall i, 0 <= i < v -> P i = false) -> v <= first_reaching P.
Proof.
  intros Hv Hlt. unfold first_reaching. pose proof (find_zseq_spec P 256 0) as H.
  destruct (find P (zseq 0 256)) as [i|]; [|lia].
  destruct H as (H1 & H2 & _). destruct (Z.le_gt_cases v i); [assumption|].
  rewrite Hlt in H2; [discriminate|lia].
Qed.

Lemma filter_uniform (v j : Z) (l : list Z) :
  Forall (eq v) l ->
  filter (fun x => x <=? j) l = if v <=? j then l else [].
Proof.
  induction 1 as [|x l <- _ IH]; simpl; [now destruct (v <=? j)|].
  rewrite IH. now destruct (v <=? j).
Qed.

Lemma uniform_min_max (f : Mat Z) :
  frame_wf f -> uniform f -> robust_max_floor f <= robust_min f.
Proof.
  intros Hwf [v Hu]. pose proof Hwf as [Hr Hpix].
  pose proof (pixel_count_nonneg f) as Hlen.
  assert (Hcat : zlength (concat f) = pixel_count f)
    by (apply zlength_concat_rect; exact Hr).
  assert (Hcum : forall j, cumulative f j = if v <=? j then pixel_count f else 0).
  { intro j. unfold cumulative.
    rewrite (filter_uniform v j) by (apply Forall_concat; exact Hu).
    destruct (v <=? j); [exact Hcat|reflexivity]. }
  destruct (Z.eq_dec (pixel_count f) 0) as [E0|Hpos].
  - transitivity 0; [|apply first_reaching_range].
    apply first_reaching_le; [lia|]. rewrite E0. apply Z.leb_le.
    rewrite Hcum, E0. change (995 * 0 / 1000) with 0.
    destruct (v <=? 0); reflexivity.
  - assert (Hv : is_uchar v).
    { apply Forall_concat in Hu. apply Forall_concat in Hpix.
      destruct (concat f) as [|x l]; [unfold zlength in Hcat; simpl in Hcat; lia|].
      inversion Hu; subst. inversion Hpix; subst. assumption. }
    unfold is_uchar in Hv. transitivity v.
    + apply first_reaching_le; [lia|]. apply Z.leb_le. rewrite Hcum.
      rewrite Z.leb_refl. apply Z.div_le_upper_bound; lia.
    + apply first_reaching_ge; [lia|]. intros i Hi. apply Z.leb_gt.
      rewrite Hcum. destruct (Z.leb_spec v i); lia.
Qed.

(** C6, amended.  For a loaded frame of at most 2^24 pixels (the
    counts up to which the float additions of the histogram loop are
    exact), [Run] returns MIN_MAX_BAD exactly when the robust min
    (smallest intensity whose cumulative count reaches 0.5% of the
    pixels) is at least the robust max, the smallest intensity whose
    cumulative count reaches the integer part of 99.5% of the pixel
    count; every uniform frame yields MIN_MAX_BAD; and when min < max,
    [Run] returns DYNAMIC_RANGE_LOW exactly when max - min < 32. *)
Theorem Run_minmax_states (s : Aspect) :
  frame_wf (frame s) -> pixel_count (frame s) <= exact_count_limit ->
  state s <> FRAME_EMPTY ->
  let f := frame s in
  let r := Run s in
  (state r = MIN_MAX_BAD <-> robust_max_floor f <= robust_min f)
  /\ (uniform f -> state r = MIN_MAX_BAD)
  /\ (robust_min f < robust_max_floor f ->
      (state r = DYNAMIC_RANGE_LOW <-> robust_max_floor f - robust_min f < 32)).
Proof.
  intros Hwf _ Hne f r.
  destruct (Run_props s) as (_ & _ & _ & _ & _ & _ & _ & _ & H & _).
  specialize (H Hne). destruct (calcMinMax_robust (frame s) Hwf) as [_ E].
  rewrite E in H. cbn [fst snd] in H. destruct H as [H1 H2].
  split; [exact H1|]. split; [|exact H2].
  intro Hu. apply H1. apply uniform_min_max; assumption.
Qed.

End RunTheorems.

(** ** Evaluations on concrete frames *)

(** C1 as stated fails: on [frame_one_cross] the detector accepts one
    fiducial, [Run] returns FEW_FIDUCIALS before the identification
    stage, and the two sizes are 0 and 1. *)
Lemma sizes_differ_when_few_fiducials :
  let r := Run (cv := Backend.backend) (mem := Backend.zeros) (loaded frame_one_cross) in
  state r = FEW_FIDUCIALS
  /\ length (fiducialIDs r) <> length (pixelFiducials r).
Proof.
  vm_compute. split; [reflexivity|intro H; discriminate H].
Qed.

Lemma Run_sizes_witness :
  let r := Run (cv := Backend.backend) (mem := Backend.zeros) (loaded frame_one_cross) in
  length (mapping r) = 4%nat
  /\ fiducialIDs r = [] /\ (0 < length (pixelFiducials r) < 3)%nat.
Proof.
  intro r.
  destruct (Run_sizes (cv := Backend.backend) (mem := Backend.zeros) (loaded frame_one_cross))
    as (Hm & _ & Hf).
  split; [exact Hm|]. apply Hf. vm_compute. reflexivity.
Defined.

(** C2 as stated fails in both directions: on [frame_low_range] a fresh
    object returns DYNAMIC_RANGE_LOW, a state at or below the CENTER
    group, with [pixelCenter] still (-1, -1); on [frame_corner] it
    returns SOLAR_IMAGE_SMALL, a state above the CENTER group, with the
    centre it found. *)
Lemma pixelCenter_claim_fails :
  (let r := Run (cv := Backend.backend) (mem := Backend.zeros) (loaded frame_low_range) in
   state r = DYNAMIC_RANGE_LOW
   /\ at_or_below_center_group (state r) = true
   /\ ~ in_frame r)
  /\ (let r := Run (cv := Backend.backend) (mem := Backend.zeros) (loaded frame_corner) in
      state r = SOLAR_IMAGE_SMALL
      /\ at_or_below_center_group (state r) = false
      /\ pixelCenter r <> sentinel).
Proof.
  split; cbv zeta.
  - split; [vm_compute; reflexivity|]. split; [vm_compute; reflexivity|].
    intros (_ & _ & H & _). vm_compute in H. discriminate H.
  - split; [vm_compute; reflexivity|]. split; [vm_compute; reflexivity|].
    vm_compute. intro H. discriminate H.
Qed.

Lemma Run_pixelCenter_witness :
  in_frame (Run (cv := Backend.backend) (mem := Backend.zeros) (loaded frame_corner))
  /\ pixelCenter (Run (cv := Backend.backend) (mem := Backend.zeros) (loaded frame_low_range))
     = sentinel.
Proof.
  split.
  - apply (Run_pixelCenter (cv := Backend.backend) (mem := Backend.zeros) (loaded frame_corner)).
    vm_compute. tauto.
  - etransitivity;
      [apply (Run_pixelCenter (cv := Backend.backend) (mem := Backend.zeros) (loaded frame_low_range));
       vm_compute; tauto|].
    reflexivity.
Defined.

(** C6 as stated fails: in [frame_skewed] the cumulative count reaches
    0.5% of the 10 pixels at intensity 0 and 99.5% of them only at 255,
    yet [Run] returns MIN_MAX_BAD, because 9 pixels reach the integer
    part of 9.95. *)
Lemma minmax_claim_fails :
  robust_min frame_skewed < robust_max_spec frame_skewed
  /\ state (Run (cv := Backend.backend) (mem := Backend.zeros) (loaded frame_skewed)) = MIN_MAX_BAD.
Proof. vm_compute. split; reflexivity. Qed.

Lemma frame_low_range_wf : frame_wf frame_low_range.
Proof.
  split; repeat constructor; unfold is_uchar; lia.
Qed.

Lemma Run_minmax_states_witness :
  frame_wf frame_low_range
  /\ pixel_count frame_low_range <= exact_count_limit
  /\ state (Run (cv := Backend.backend) (mem := Backend.zeros) (loaded frame_low_range))
     = DYNAMIC_RANGE_LOW.
Proof.
  split; [exact frame_low_range_wf|].
  assert (Hlen : pixel_count (frame (loaded frame_low_range)) <= exact_count_limit)
    by (vm_compute; discriminate).
  split; [exact Hlen|].
  assert (Hne : state (loaded frame_low_range) <> FRAME_EMPTY)
    by (vm_compute; intro H; discriminate H).
  destruct (Run_minmax_states (cv := Backend.backend) (mem := Backend.zeros)
              (loaded frame_low_range) frame_low_range_wf Hlen Hne)
    as (_ & _ & H).
  apply H; vm_compute; reflexivity.
Defined.

(** ** The chord limb finder *)

(** C9: the claim holds of no chord whose last real edge is within
    [limbFitWidth] of the end; the code reads index K there.  On
    [chord_falling_at_end] (K = 40) the scan finds the edges 5 and -38,
    both are kept, the fit loop of edge 38 runs over 36..40, and the
    value found at index 40 changes the crossing returned. *)
Lemma fit_loop_reads_past_end :
  let chord := chord_falling_at_end in
  zlength chord = 40
  /\ (forall past, fst (scan_chord lit chord past) = [5; -38])
  /\ select_edges lit 40 [5; -38] = Some [5; -38]
  /\ fit_indices 40 38 (limbFitWidth (cfg lit)) = [36; 37; 38; 39; 40]
  /\ lr_crossings (FindLimbCrossings (cv := Backend.backend) lit chord 0 [] [])
     <> lr_crossings (FindLimbCrossings (cv := Backend.backend) lit chord 255 [] []).
Proof.
  cbv zeta. split; [vm_compute; reflexivity|].
  split; [intro past; vm_compute; reflexivity|].
  split; [vm_compute; reflexivity|]. split; [vm_compute; reflexivity|].
  vm_compute. intro H. discriminate H.
Qed.

Section LimbFinder.
Context {cv : OpenCV} {mem : Memory}.

Lemma scan_edges_bound (pLT : Z) :
  forall rest k lastValue pixelMax edges K,
    1 <= k -> K = k + zlength rest ->
    Forall (fun e => - (K - 2) <= e <= K - 1) edges ->
    Forall (fun e => - (K - 2) <= e <= K - 1)
           (fst (scan_edges pLT k lastValue pixelMax rest edges)).
Proof.
  induction rest as [|v rest IH]; intros k lastValue pixelMax edges K Hk HK He;
    [exact He|].
  cbn [scan_edges]. rewrite zlength_cons in HK.
  pose proof (zlength_nonneg rest) as Hr.
  apply IH; [lia|lia|].
  destruct (_ && _); [|destruct (_ && _)]; try exact He;
    apply Forall_app; (split; [exact He|]); constructor; [lia|constructor|lia|constructor].
Qed.

Lemma scan_chord_bound (s : Aspect) (chord : list Z) (past : Z) :
  Forall (fun e => - (zlength chord - 2) <= e <= zlength chord - 1)
         (fst (scan_chord s chord past)).
Proof.
  unfold scan_chord. destruct chord as [|v chord]; [constructor|].
  cbn [tl]. apply scan_edges_bound; [lia|rewrite zlength_cons; lia|constructor].
Qed.

(** C5, amended.  For a chord whose maximum is not below the upper
    threshold and whose scan records exactly one crossing at position
    p > 0:
    - a lone falling edge with p < 2*solarRadius gets a virtual rising
      edge, and the chord returns 0 with the pair (-1, refined p) when
      the refinement of the falling edge succeeds, and otherwise the
      code of the refinement, -1, -2 or -3;
    - a lone rising edge with p > K - 2*solarRadius gets a virtual
      trailing edge, reported at K, and the chord returns 0 with the
      pair (refined p, K) when the refinement of the rising edge
      succeeds, and otherwise the code of the refinement, -1, -2 or -3;
    - a lone rising edge with p <= K - 2*solarRadius is rejected with
      -1.
    A rising edge gets no virtual leading edge at -1. *)
Theorem lone_edge_chords (s : Aspect) (chord cr sl : list _)
  (past p pixelMax : Z) :
  let K := zlength chord in
  SFltb (F32.of_Z pixelMax) (upperThreshold s) = false ->
  0 < p ->
  (scan_chord s chord past = ([- p], pixelMax) -> p < 2 * solarRadius (cfg s) ->
   FindLimbCrossings s chord past cr sl
   = match fst (refine_edge s chord past K p []) with
     | Refined f slope =>
         mkLimbResult 0 [F32.of_Z (-1); F32.of_double f] (sl ++ [slope])
     | Rejected c => mkLimbResult c [F32.of_Z (-1)] sl
     end)
  /\ (scan_chord s chord past = ([p], pixelMax) ->
      FindLimbCrossings s chord past cr sl
      = if K - 2 * solarRadius (cfg s) <? p
        then match fst (refine_edge s chord past K p []) with
             | Refined f slope =>
                 mkLimbResult 0 [F32.of_double f; F32.of_Z K] (sl ++ [slope])
             | Rejected c => mkLimbResult c [] sl
             end
        else mkLimbResult (-1) cr sl).
Proof.
  intros K Hmax Hp. pose proof (scan_chord_bound s chord past) as Hb.
  fold K in Hb.
  assert (A1 : Z.abs (- p) = p) by lia.
  assert (A2 : Z.abs p = p) by lia.
  assert (E1 : (- p <? 0) = true) by (apply Z.ltb_lt; lia).
  assert (E2 : (p <? 0) = false) by (apply Z.ltb_ge; lia).
  assert (E3 : (0 <? p) = true) by (apply Z.ltb_lt; lia).
  assert (E4 : (p =? -1) = false) by (apply Z.eqb_neq; lia).
  assert (E5 : (-1 <=? p) = true) by (apply Z.leb_le; lia).
  split.
  - intros Hscan HR. rewrite Hscan in Hb. cbn [fst] in Hb.
    inversion Hb as [|e l He _]; subst.
    assert (E6 : (p <? 2 * solarRadius (cfg s)) = true) by (apply Z.ltb_lt; lia).
    assert (E7 : (- p =? - K) = false) by (apply Z.eqb_neq; lia).
    unfold FindLimbCrossings. rewrite Hscan, Hmax. fold K.
    unfold select_edges. rewrite A1, E6, E1. cbn [andb].
    rewrite Z.leb_refl, E1. cbn [andb].
    unfold fit_edges, edge_step.
    change (0 =? 0) with true. change (-1 =? -1) with true.
    change (1 =? 1) with true. cbn [andb]. rewrite E7. cbn [andb].
    rewrite A1.
    destruct (refine_edge s chord past K p []) as [[f slope|c] fit']; reflexivity.
  - intros Hscan. rewrite Hscan in Hb. cbn [fst] in Hb.
    inversion Hb as [|e l He _]; subst.
    assert (E8 : (- K <? 0) = true) by (apply Z.ltb_lt; lia).
    unfold FindLimbCrossings. rewrite Hscan, Hmax. fold K.
    unfold select_edges. rewrite A2, E2, E3, andb_false_r, andb_true_r.
    destruct (K - 2 * solarRadius (cfg s) <? p); [|reflexivity].
    rewrite E5, E8. cbn [andb]. unfold fit_edges, edge_step.
    change (0 =? 0) with true. change (0 =? 1) with false.
    change (1 =? 1) with true. rewrite E4, Z.eqb_refl. cbn [andb].
    rewrite A2.
    destruct (refine_edge s chord past K p []) as [[f slope|c] fit']; reflexivity.
Qed.

End LimbFinder.

(** C5 as stated fails.  For the rising edge: both chords below have
    exactly one crossing, a rising edge at column 3, and solarRadius is
    98; the chord of 200 pixels is rejected, and the chord of 10 pixels
    returns a pair whose first member is the refined edge and whose
    second is the virtual crossing at K = 10; neither has a virtual edge
    at -1.  For the falling edge: [chord_spike] has a lone falling edge
    at position 2, well below 2*solarRadius, and returns -3, no pair,
    because the refined position leaves its fit window. *)
Lemma lone_edge_claim_fails :
  scan_chord lit chord_rising_long 0 = ([3], 200)
  /\ scan_chord lit chord_rising_short 0 = ([3], 200)
  /\ (let r := FindLimbCrossings (cv := Backend.backend) lit chord_rising_long 0 [] [] in
      lr_code r = -1 /\ lr_crossings r = [])
  /\ (let r := FindLimbCrossings (cv := Backend.backend) lit chord_rising_short 0 [] [] in
      lr_code r = 0
      /\ nth 0 (lr_crossings r) S754_nan <> F32.of_Z (-1)
      /\ nth 1 (lr_crossings r) S754_nan = F32.of_Z 10)
  /\ scan_chord lit chord_spike 0 = ([-2], 255)
  /\ lr_code (FindLimbCrossings (cv := Backend.backend) lit chord_spike 0 [] []) = -3.
Proof.
  vm_compute. repeat split; try reflexivity. intro H. discriminate H.
Qed.

Lemma lone_edge_chords_witness :
  let r := FindLimbCrossings (cv := Backend.backend) lit chord_lone_falling 0 [] [] in
  lr_code r = 0 /\ nth 0 (lr_crossings r) S754_nan = F32.of_Z (-1).
Proof.
  intro r. subst r.
  assert (Hmax : SFltb (F32.of_Z 200) (upperThreshold lit) = false)
    by (vm_compute; reflexivity).
  assert (Hp : 0 < 4) by lia.
  destruct (lone_edge_chords (cv := Backend.backend) lit chord_lone_falling
              [] [] 0 4 200 Hmax Hp) as [H _].
  rewrite H; [|vm_compute; reflexivity|vm_compute; reflexivity].
  vm_compute. split; reflexivity.
Defined.

(** ** The stored limb crossings *)

Section LimbCrossings.
Context {cv : OpenCV} {mem : Memory}.

Lemma fit_window_bounds (K edge w : Z) :
  0 <= K -> 0 <= fst (fit_window K edge w) /\ snd (fit_window K edge w) <= K.
Proof.
  intro HK. unfold fit_window. cbn [fst snd].
  destruct (Z.ltb_spec (edge - w) 0), (Z.ltb_spec K (edge + w)); lia.
Qed.

Lemma refine_edge_value (s : Aspect) (chord : list Z) (past K edge : Z)
  (fit fit' : list spec_float) (f slope : spec_float) :
  0 <= K ->
  refine_edge s chord past K edge fit = (Refined f slope, fit') ->
  crossing_value K (F32.of_double f).
Proof.
  intros HK. unfold refine_edge.
  pose proof (fit_window_bounds K edge (limbFitWidth (cfg s)) HK) as [Hmn Hmx].
  destruct (fit_window K edge (limbFitWidth (cfg s))) as [mn mx].
  cbn [fst snd] in Hmn, Hmx.
  destruct (mx - mn + 1 <? 2); [discriminate|].
  match goal with
  | |- context [isfinite ?x] => generalize x; intro fe
  end.
  match goal with
  | |- context [SFabs ?x] => generalize x; intro sl
  end.
  match goal with
  | |- context [LinearFit ?x ?y ?z] => generalize (LinearFit x y z); intro ft
  end.
  destruct (isfinite fe) eqn:Hfin; cbn [negb]; [|discriminate].
  destruct (SFltb fe (F64.of_Z mn)) eqn:Hlo; cbn [orb]; [discriminate|].
  destruct (SFgtb fe (F64.of_Z mx)) eqn:Hhi; [discriminate|].
  intro H. injection H as <- _ _.
  right. right. exists fe, mn, mx.
  repeat split; try assumption.
  - apply SFltb_false_SFleb;
      [now apply isfinite_not_nan|apply F64_of_Z_not_nan|exact Hlo].
  - apply SFltb_false_SFleb;
      [apply F64_of_Z_not_nan|now apply isfinite_not_nan|exact Hhi].
Qed.

Lemma edge_step_value (s : Aspect) (chord : list Z) (past K k e : Z)
  (sl fit sl' fit' : list spec_float) (c : spec_float) :
  0 <= K ->
  edge_step s chord past K k e sl fit = Pushed c sl' fit' ->
  crossing_value K c.
Proof.
  intros HK. unfold edge_step.
  destruct (_ && _); [intro H; injection H as <- _ _; now left|].
  destruct (_ && _); [intro H; injection H as <- _ _; right; now left|].
  destruct (refine_edge s chord past K (Z.abs e) fit) as [[f slope|code] ft] eqn:E;
    [|discriminate].
  intro H. injection H as <- _ _.
  eapply refine_edge_value; eassumption.
Qed.

Lemma FindLimbCrossings_values (s : Aspect) (chord : list Z) (past : Z)
  (sl : list spec_float) (c0 c1 : spec_float) :
  lr_crossings (FindLimbCrossings s chord past [] sl) = [c0; c1] ->
  crossing_value (zlength chord) c0 /\ crossing_value (zlength chord) c1.
Proof.
  pose proof (zlength_nonneg chord) as HK.
  unfold FindLimbCrossings.
  destruct (scan_chord s chord past) as [edges pixelMax].
  destruct (SFltb _ _); [discriminate|].
  destruct (select_edges s (zlength chord) edges) as [[|e0 [|e1 [|e2 l]]]|];
    try discriminate.
  destruct (_ && _); [|discriminate].
  unfold fit_edges.
  destruct (edge_step s chord past (zlength chord) 0 e0 sl []) as [a sl1 fit1|c] eqn:E0;
    [|discriminate].
  destruct (edge_step s chord past (zlength chord) 1 e1 sl1 fit1) as [b sl2 fit2|c] eqn:E1;
    [|discriminate].
  cbn [lr_crossings]. intro H. injection H as <- <-.
  split; eapply edge_step_value; eassumption.
Qed.

Lemma chord_step_inv (s : Aspect) (search dim : bool) (input : Mat Z)
  (limit : Z) (acc : CenterLoop) (pos : Z) :
  In pos (chord_positions (if dim then mat_rows input else mat_cols input)
            limit) ->
  Nat.Even (length (cl_limbCrossings acc))
  /\ Forall (stored_crossing input limit (fun p => p)) (cl_limbCrossings acc) ->
  Nat.Even (length (cl_limbCrossings (chord_step s search input dim acc pos)))
  /\ Forall (stored_crossing input limit (fun p => p))
            (cl_limbCrossings (chord_step s search input dim acc pos)).
Proof.
  intros Hpos [Hev Hall]. unfold chord_step. cbv zeta.
  destruct (_ || _); [split; assumption|].
  destruct (lr_crossings _) as [|c0 [|c1 [|c2 l]]] eqn:E;
    try (split; assumption).
  destruct (_ && _); [|split; assumption].
  destruct (_ && _); [split; assumption|].
  destruct (_ && _); [split; assumption|].
  cbn [cl_limbCrossings].
  apply FindLimbCrossings_values in E. destruct E as [V0 V1].
  replace ((if dim
            then CoordList_add
                   (if dim
                    then CoordList_add (cl_limbCrossings acc) c0 (F32.of_Z pos)
                    else CoordList_add (cl_limbCrossings acc) (F32.of_Z pos) c0)
                   c1 (F32.of_Z pos)
            else CoordList_add
                   (if dim
                    then CoordList_add (cl_limbCrossings acc) c0 (F32.of_Z pos)
                    else CoordList_add (cl_limbCrossings acc) (F32.of_Z pos) c0)
                   (F32.of_Z pos) c1))
    with (cl_limbCrossings acc
          ++ (if dim
              then [mkPoint2f c0 (F32.of_Z pos); mkPoint2f c1 (F32.of_Z pos)]
              else [mkPoint2f (F32.of_Z pos) c0; mkPoint2f (F32.of_Z pos) c1]))
    by (unfold CoordList_add; destruct dim; rewrite <- app_assoc; reflexivity).
  split.
  - rewrite length_app. destruct Hev as [n Hn].
    exists (S n). destruct dim; cbn [length]; lia.
  - apply Forall_app. split; [exact Hall|].
    destruct dim.
    + constructor;
        [exists c0, pos; left; split; [exact Hpos|split; [reflexivity|exact V0]]|].
      constructor;
        [exists c1, pos; left; split; [exact Hpos|split; [reflexivity|exact V1]]|].
      constructor.
    + constructor;
        [exists c0, pos; right; split; [exact Hpos|split; [reflexivity|exact V0]]|].
      constructor;
        [exists c1, pos; right; split; [exact Hpos|split; [reflexivity|exact V1]]|].
      constructor.
Qed.

Lemma chord_fold_inv (s : Aspect) (search dim : bool) (input : Mat Z)
  (limit : Z) :
  forall positions acc,
    incl positions
         (chord_positions (if dim then mat_rows input else mat_cols input)
            limit) ->
    Nat.Even (length (cl_limbCrossings acc))
    /\ Forall (stored_crossing input limit (fun p => p)) (cl_limbCrossings acc) ->
    Nat.Even (length (cl_limbCrossings
                        (fold_left (chord_step s search input dim) positions acc)))
    /\ Forall (stored_crossing input limit (fun p => p))
              (cl_limbCrossings
                 (fold_left (chord_step s search input dim) positions acc)).
Proof.
  induction positions as [|pos positions IH]; intros acc Hin H; [exact H|].
  cbn [fold_left]. apply IH; [intros x Hx; apply Hin; now right|].
  apply chord_step_inv; [apply Hin; now left|exact H].
Qed.

Lemma stored_crossing_shift (input : Mat Z) (limit : Z) (off : Point2i)
  (p : Point2f) :
  stored_crossing input limit (fun p => p) p ->
  stored_crossing input limit (translate off) (translate off p).
Proof.
  intros (c & pos & [(Hp & -> & H)|(Hp & -> & H)]); exists c, pos; [left|right];
    (split; [exact Hp|split; [reflexivity|exact H]]).
Qed.

Lemma FindPixelCenter_crossings (s : Aspect) :
  Nat.Even (length (limbCrossings (FindPixelCenter s)))
  /\ Forall (stored_crossing (chord_input s) (chord_limit s) (chord_shift s))
            (limbCrossings (FindPixelCenter s)).
Proof.
  unfold FindPixelCenter, chord_input, chord_limit, chord_shift. cbv zeta. fields.
  set (input := if search_mode s then frame s else solarImage s).
  set (limit := if search_mode s then initialNumChords (cfg s)
                else chordsPerAxis (cfg s)).
  match goal with
  | |- context [fold_left (chord_step s (search_mode s) input true) ?rows
                  (mkCenterLoop (cl_limbCrossings ?a0) _ _)] =>
      assert (H0 : Nat.Even (length (cl_limbCrossings a0))
                   /\ Forall (stored_crossing input limit (fun p => p))
                             (cl_limbCrossings a0))
        by (apply (chord_fold_inv s (search_mode s) false input limit);
            [apply incl_refl|split; [exists 0%nat; reflexivity|constructor]]);
      pose proof (chord_fold_inv s (search_mode s) true input limit rows
                    (mkCenterLoop (cl_limbCrossings a0) (cl_slopes a0) [])
                    (incl_refl _) H0)
        as [Hev Hall];
      generalize dependent (cl_limbCrossings
        (fold_left (chord_step s (search_mode s) input true) rows
           (mkCenterLoop (cl_limbCrossings a0) (cl_slopes a0) [])))
  end.
  intros l Hev Hall. clear H0.
  destruct (search_mode s).
  - split; assumption.
  - rewrite length_map. split; [exact Hev|].
    apply Forall_map. revert Hall. apply Forall_impl.
    intros p Hp. apply stored_crossing_shift, Hp.
Qed.

(** C4, amended.  After every [Run], [limbCrossings] has an even number
    of entries, and every stored crossing is, up to the shift by the
    sub-image offset, a point of one of the row or column chords the
    call cuts (its coordinate across the chord is one of the chord
    positions of that axis) whose coordinate along the chord is a
    virtual crossing stored verbatim as -1 or as the chord length K, or
    a refined crossing inside its fit window, which lies within
    [0, K]. *)
Theorem Run_limbCrossings (s : Aspect) :
  let r := Run s in
  Nat.Even (length (limbCrossings r))
  /\ Forall (stored_crossing (chord_input s) (chord_limit s) (chord_shift s))
            (limbCrossings r).
Proof.
  intro r.
  destruct (Run_props s) as (_ & _ & _ & _ & _ & _ & _ & _ & _ & H).
  fold r in H. destruct H as [->|(s' & -> & Hi & Hs & Hl)].
  - split; [exists 0%nat; reflexivity|constructor].
  - rewrite <- Hi, <- Hs, <- Hl. apply FindPixelCenter_crossings.
Qed.

End LimbCrossings.

(** C4 as stated fails for the virtual crossings: on [frame_corner] the
    first stored crossing is (0, -1), the virtual crossing of the column
    chord at x = 0. *)
Lemma virtual_crossing_outside_frame :
  let r := Run (cv := Backend.backend) (mem := Backend.zeros) (loaded frame_corner) in
  hd sentinel (limbCrossings r) = mkPoint2f (F32.of_Z 0) (F32.of_Z (-1))
  /\ SFleb (F32.of_Z 0) (F32.of_Z (-1)) = false
  /\ ~ crossings_in_frame r.
Proof.
  cbv zeta. split; [vm_compute; reflexivity|]. split; [vm_compute; reflexivity|].
  unfold crossings_in_frame. intro H.
  remember (limbCrossings (Run (cv := Backend.backend) (mem := Backend.zeros) (loaded frame_corner))) as l eqn:E.
  vm_compute in E. subst l. inversion H as [|p l (_ & _ & H3 & _) _].
  vm_compute in H3. discriminate H3.
Qed.

(** ** The second identification pass *)

Section SecondPass.
Context {cv : OpenCV} {mem : Memory}.

Lemma same_votes_sound (axis : Axis) (ids : IndexList) (a b : Z) (v : Vote) :
  In v (same_votes axis ids a b) ->
  v_axis v = axis
  /\ ((v_target v = a /\ v_partner v = b) \/ (v_target v = b /\ v_partner v = a))
  /\ id_on axis ids (v_target v) = -100
  /\ id_on axis ids (v_partner v) <> -100
  /\ v_value v = id_on axis ids (v_partner v).
Proof.
  unfold same_votes.
  destruct (Z.eqb_spec (id_on axis ids a) (-100)) as [Ha|Ha];
    destruct (Z.eqb_spec (id_on axis ids b) (-100)) as [Hb|Hb]; cbn [andb negb In];
    intro H; try contradiction; destruct H as [<-|[]];
    cbn [v_axis v_target v_partner v_value]; tauto.
Qed.

Lemma step_votes_sound (axis : Axis) (ids : IndexList) (diff : spec_float)
  (a b : Z) (v : Vote) :
  In v (step_votes axis ids diff a b) ->
  v_axis v = axis
  /\ ((v_target v = a /\ v_partner v = b) \/ (v_target v = b /\ v_partner v = a))
  /\ id_on axis ids (v_target v) = -100
  /\ id_on axis ids (v_partner v) <> -100
  /\ (v_value v = id_on axis ids (v_partner v) - 1
      \/ v_value v = id_on axis ids (v_partner v) + 1).
Proof.
  unfold step_votes.
  destruct (Z.eqb_spec (id_on axis ids a) (-100)) as [Ha|Ha];
    destruct (Z.eqb_spec (id_on axis ids b) (-100)) as [Hb|Hb]; cbn [andb negb In];
    intro H; try contradiction; destruct H as [<-|[]];
    cbn [v_axis v_target v_partner v_value];
    destruct (SFgeb diff (F32.of_Z 0)); tauto.
Qed.

(** C8, amended.  Every vote of the second pass goes to a member of a
    row or column pair whose identifier on the axis of the vote is -100,
    and is derived from the other member of the pair, whose identifier
    on that axis is not -100 (it may be the ambiguity marker -200): the
    vote is the partner's value, or one step from it. *)
Theorem second_pass_votes_sound (rotated : CoordList) (ids : IndexList)
  (rowPairs0 colPairs0 : IndexList) (v : Vote) :
  In v (second_pass_votes rotated ids rowPairs0 colPairs0) ->
  (exists p, In p (rowPairs0 ++ colPairs0)
             /\ ((v_target v = ix p /\ v_partner v = iy p)
                 \/ (v_target v = iy p /\ v_partner v = ix p)))
  /\ id_on (v_axis v) ids (v_target v) = -100
  /\ id_on (v_axis v) ids (v_partner v) <> -100
  /\ (v_value v = id_on (v_axis v) ids (v_partner v)
      \/ v_value v = id_on (v_axis v) ids (v_partner v) - 1
      \/ v_value v = id_on (v_axis v) ids (v_partner v) + 1).
Proof.
  unfold second_pass_votes. intro H. apply in_app_or in H.
  destruct H as [H|H]; apply in_flat_map in H; destruct H as (p & Hp & H);
    [unfold second_pass_row_pair in H|unfold second_pass_col_pair in H];
    apply in_app_or in H; destruct H as [H|H];
    [apply same_votes_sound in H|apply step_votes_sound in H
    |apply same_votes_sound in H|apply step_votes_sound in H];
    destruct H as (Hax & Hpair & Ht & Hq & Hv); rewrite Hax;
    (split; [exists p; split; [apply in_or_app; tauto|exact Hpair]|]);
    (split; [exact Ht|]); (split; [exact Hq|]); tauto.
Qed.

End SecondPass.

(** C8 as stated fails: among [fiducials_tie], fiducial 1 collects the
    column votes 1 and -1 in the first pass and is marked -200; in the
    second pass its row-pair partner 0, unknown in column, receives the
    vote -200 from it and ends with the column identifier -200. *)
Lemma vote_from_ambiguous_partner :
  let s := with_fiducials fiducials_tie in
  let ids1 := snd (first_pass (cv := Backend.backend) s) in
  id_on AxisX ids1 0 = -100
  /\ id_on AxisX ids1 1 = -200
  /\ In (mkVote AxisX 0 1 (-200)) (second_pass (cv := Backend.backend) s)
  /\ id_on AxisX (fiducialIDs (FindFiducialIDs (cv := Backend.backend) s)) 0 = -200.
Proof.
  vm_compute. repeat split; try reflexivity. left. reflexivity.
Qed.

Lemma second_pass_votes_sound_witness :
  let s := with_fiducials fiducials_tie in
  let ids1 := snd (first_pass (cv := Backend.backend) s) in
  id_on AxisX ids1 0 = -100 /\ id_on AxisX ids1 1 <> -100.
Proof.
  intros s ids1.
  assert (H : In (mkVote AxisX 0 1 (-200))
                (second_pass_votes
                   (rotatedFiducials (cv := Backend.backend) s) ids1
                   [mkPoint2i 0 1] [mkPoint2i 1 2; mkPoint2i 1 3]))
    by (vm_compute; left; reflexivity).
  apply second_pass_votes_sound in H. destruct H as (_ & H1 & H2 & _).
  split; [exact H1|exact H2].
Defined.

(** ** The identifiers that reach the mapping fit *)

Section MappingFit.
Context {cv : OpenCV} {mem : Memory}.

Lemma freq_incr_keys (v : Z) (m : list (Z * Z)) (k : Z) :
  In k (map fst (freq_incr v m)) -> k = v \/ In k (map fst m).
Proof.
  induction m as [|[k0 c0] m IH]; simpl.
  - intros [<-|[]]. now left.
  - destruct (v <? k0); [simpl; intuition|].
    destruct (v =? k0); simpl; intuition.
Qed.

Lemma frequencyCount_keys (data : list Z) (k : Z) :
  In k (map fst (frequencyCount data)) -> In k data.
Proof.
  unfold frequencyCount.
  assert (G : forall l acc,
             In k (map fst (fold_left (fun m v => freq_incr v m) l acc)) ->
             In k l \/ In k (map fst acc)).
  { induction l as [|v l IH]; intros acc H; simpl in *; [now right|].
    apply IH in H. destruct H as [H|H]; [tauto|].
    apply freq_incr_keys in H. intuition. }
  intro H. apply G in H. destruct H as [H|[]]. exact H.
Qed.

Lemma Mode_In (data : list Z) (m : Z) : In m (Mode data) -> In m data.
Proof.
  unfold Mode. intro H. apply frequencyCount_keys.
  revert H. generalize (frequencyCount data). intro fc.
  assert (G : forall l acc,
             In m (snd (fold_left Mode_scan l acc)) ->
             In m (map fst l) \/ In m (snd acc)).
  { induction l as [|[k c] l IH]; intros [cm md] H; simpl in *; [now right|].
    apply IH in H. destruct H as [H|H]; [tauto|].
    unfold Mode_scan in H.
    destruct (cm <? c); simpl in H; [intuition|].
    destruct (c =? cm); simpl in H; [|tauto].
    apply in_app_or in H. simpl in H. intuition. }
  intro H. apply G in H. destruct H as [H|[]]. exact H.
Qed.

Lemma zseq_In (n : nat) : forall a d, In d (zseq a n) -> a <= d < a + Z.of_nat n.
Proof.
  induction n as [|n IH]; intros a d H; simpl in H; [contradiction|].
  destruct H as [<-|H]; [lia|]. apply IH in H. lia.
Qed.

Lemma replace_nth_Forall {A} (P : A -> Prop) (x : A) :
  P x -> forall l i, Forall P l -> Forall P (replace_nth i x l).
Proof.
  intros Hx. induction l as [|a l IH]; intros i H; [destruct i; constructor|].
  inversion H; subst. destruct i; simpl; constructor; auto.
Qed.

Lemma znth_Forall {A} (P : A -> Prop) (d : A) (l : list A) (i : Z) :
  P d -> Forall P l -> P (znth d l i).
Proof.
  intros Hd Hl. unfold znth. destruct (i <? 0); [exact Hd|].
  destruct (nth_in_or_default (Z.to_nat i) l d) as [H | ->]; [|exact Hd].
  rewrite Forall_forall in Hl. apply Hl, H.
Qed.

Lemma push_vote_Forall (P : Z -> Prop) (i v : Z) (votes : list (list Z)) :
  P v -> Forall (Forall P) votes -> Forall (Forall P) (push_vote i v votes).
Proof.
  intros Hv H. unfold push_vote, zreplace. destruct (i <? 0); [exact H|].
  apply replace_nth_Forall; [|exact H].
  apply Forall_app. split; [|constructor; [exact Hv|constructor]].
  apply znth_Forall; [constructor|exact H].
Qed.

Lemma fold_left_inv {A B} (I : A -> Prop) (f : A -> B -> A) (l : list B) :
  (forall a b, In b l -> I a -> I (f a b)) -> forall a, I a -> I (fold_left f l a).
Proof.
  induction l as [|b l IH]; intros H a Ha; [exact Ha|].
  simpl. apply IH; [intros; apply H; [now right|assumption]|].
  apply H; [now left|exact Ha].
Qed.

Lemma repeat_Forall {A} (P : A -> Prop) (x : A) (n : nat) :
  P x -> Forall P (repeat x n).
Proof. intro H. induction n; simpl; constructor; auto. Qed.

Lemma first_pass_votes_range (c : Config) (table : list spec_float)
  (diff : spec_float) (a b : Z) (votes : list (list Z)) :
  (length table <= 14)%nat ->
  Forall (Forall (fun v => -7 <= v <= 7)) votes ->
  Forall (Forall (fun v => -7 <= v <= 7))
         (first_pass_votes c table diff a b votes).
Proof.
  intros Hlen H. unfold first_pass_votes.
  apply fold_left_inv; [|exact H].
  intros vs d Hd Hvs. apply zseq_In in Hd.
  destruct (near c diff _); [|exact Hvs].
  destruct (SFgtb diff _); repeat apply push_vote_Forall; try exact Hvs; lia.
Qed.

Lemma tally1_value (votes : list Z) :
  Forall (fun v => -7 <= v <= 7) votes -> first_pass_value (tally1 votes).
Proof.
  intro H. unfold tally1, first_pass_value.
  destruct (Mode votes) as [|m [|m' l]] eqn:E; [tauto| |tauto].
  left. rewrite Forall_forall in H. apply H, Mode_In. rewrite E. now left.
Qed.

Lemma first_pass_ids_values (c : Config) (rotated : CoordList)
  (rp cp : IndexList) (K : nat) :
  (length (mDistances c) <= 14)%nat -> (length (nDistances c) <= 14)%nat ->
  Forall (fun id => first_pass_value (ix id) /\ first_pass_value (iy id))
         (first_pass_ids c rotated rp cp K).
Proof.
  intros Hm Hn. unfold first_pass_ids.
  assert (Hr : Forall (Forall (fun v => -7 <= v <= 7))
                      (first_pass_rows c rotated rp K)).
  { unfold first_pass_rows. apply fold_left_inv.
    - intros; now apply first_pass_votes_range.
    - apply repeat_Forall. constructor. }
  assert (Hc : Forall (Forall (fun v => -7 <= v <= 7))
                      (first_pass_cols c rotated cp K)).
  { unfold first_pass_cols. apply fold_left_inv.
    - intros; now apply first_pass_votes_range.
    - apply repeat_Forall. constructor. }
  apply Forall_map. rewrite Forall_forall. intros [rv cv0] Hin.
  cbn [fst snd ix iy].
  rewrite Forall_forall in Hr, Hc.
  split; apply tally1_value;
    [apply Hc; eapply in_combine_r|apply Hr; eapply in_combine_l]; exact Hin.
Qed.

Lemma id_on_first_pass_value (axis : Axis) (ids : IndexList) (i : Z) :
  Forall (fun id => first_pass_value (ix id) /\ first_pass_value (iy id)) ids ->
  first_pass_value (id_on axis ids i).
Proof.
  intro H. unfold id_on, id_at.
  assert (G : first_pass_value (ix (znth (mkPoint2i 0 0) ids i))
              /\ first_pass_value (iy (znth (mkPoint2i 0 0) ids i))).
  { apply (znth_Forall
             (fun id => first_pass_value (ix id) /\ first_pass_value (iy id)));
      [|exact H].
    unfold first_pass_value. simpl. lia. }
  destruct axis; tauto.
Qed.

(** The values of the votes of the second pass. *)
Lemma second_pass_vote_values (rotated : CoordList) (ids rp cp : IndexList) :
  Forall (fun id => first_pass_value (ix id) /\ first_pass_value (iy id)) ids ->
  Forall (fun v => id_value (v_value v) /\ v_value v <> -100)
         (second_pass_votes rotated ids rp cp).
Proof.
  intro Hids. rewrite Forall_forall. intros v H.
  unfold second_pass_votes in H. apply in_app_or in H.
  assert (G : forall axis, v_axis v = axis ->
              id_on axis ids (v_partner v) <> -100 ->
              (v_value v = id_on axis ids (v_partner v)
               \/ v_value v = id_on axis ids (v_partner v) - 1
               \/ v_value v = id_on axis ids (v_partner v) + 1) ->
              id_value (v_value v) /\ v_value v <> -100).
  { intros axis _ Hne Hv.
    pose proof (id_on_first_pass_value axis ids (v_partner v) Hids) as Hp.
    unfold first_pass_value in Hp. unfold id_value. lia. }
  destruct H as [H|H]; apply in_flat_map in H; destruct H as (p & Hp & H);
    [unfold second_pass_row_pair in H|unfold second_pass_col_pair in H];
    apply in_app_or in H; destruct H as [H|H];
    [apply same_votes_sound in H|apply step_votes_sound in H
    |apply same_votes_sound in H|apply step_votes_sound in H];
    destruct H as (Hax & _ & _ & Hq & Hv); eapply G; eauto; tauto.
Qed.

Lemma cast_votes_values (P : Z -> Prop) (K : nat) (votes : list Vote) :
  Forall (fun v => P (v_value v)) votes ->
  Forall (Forall P) (fst (cast_votes K votes))
  /\ Forall (Forall P) (snd (cast_votes K votes)).
Proof.
  intro H. unfold cast_votes.
  apply (fold_left_inv
           (fun acc : list (list Z) * list (list Z) =>
              Forall (Forall P) (fst acc) /\ Forall (Forall P) (snd acc))).
  - intros [r c] v Hv [Hr Hc]. rewrite Forall_forall in H. specialize (H v Hv).
    destruct (v_axis v); cbn [fst snd]; split;
      try assumption; apply push_vote_Forall; assumption.
  - cbn [fst snd]. split; apply repeat_Forall; constructor.
Qed.

Lemma tally2_value (old : Z) (votes : list Z) :
  first_pass_value old -> Forall id_value votes -> id_value (tally2 old votes).
Proof.
  intros Ho H. unfold tally2.
  destruct (Mode votes) as [|m [|m' l]] eqn:E.
  - unfold first_pass_value in Ho. unfold id_value. lia.
  - rewrite Forall_forall in H. apply H, Mode_In. rewrite E. now left.
  - unfold id_value. lia.
Qed.

Lemma second_pass_ids_values (ids : IndexList) (votes : list Vote) :
  Forall (fun id => first_pass_value (ix id) /\ first_pass_value (iy id)) ids ->
  Forall (fun v => id_value (v_value v)) votes ->
  Forall (fun id => id_value (ix id) /\ id_value (iy id))
         (second_pass_ids ids votes).
Proof.
  intros Hids Hv. unfold second_pass_ids.
  destruct (cast_votes_values id_value (length ids) votes Hv) as [Hr Hc].
  destruct (cast_votes (length ids) votes) as [rv cv0]. cbn [fst snd] in Hr, Hc.
  apply Forall_map. rewrite Forall_forall. intros [id [r c]] Hin.
  cbn [ix iy].
  pose proof (in_combine_l _ _ _ _ Hin) as H1.
  pose proof (in_combine_r _ _ _ _ Hin) as H2.
  pose proof (in_combine_l _ _ _ _ H2) as H3.
  pose proof (in_combine_r _ _ _ _ H2) as H4.
  rewrite Forall_forall in Hids, Hr, Hc.
  destruct (Hids id H1) as [Hx Hy].
  split; apply tally2_value; auto.
Qed.

Lemma FindFiducialIDs_values (s : Aspect) :
  (length (mDistances (cfg s)) <= 14)%nat ->
  (length (nDistances (cfg s)) <= 14)%nat ->
  Forall (fun id => id_value (ix id) /\ id_value (iy id))
         (fiducialIDs (FindFiducialIDs s)).
Proof.
  intros Hm Hn. unfold FindFiducialIDs, second_pass, first_pass.
  destruct (find_pairs _ _ _) as [rp cp]. fields.
  pose proof (first_pass_ids_values (cfg s) (rotatedFiducials s) rp cp
                (length (pixelFiducials s)) Hm Hn) as H1.
  apply second_pass_ids_values; [exact H1|].
  pose proof (second_pass_vote_values (rotatedFiducials s) _ rp cp H1) as H2.
  revert H2. apply Forall_impl. tauto.
Qed.

Lemma id_value_skipped (id : Point2i) :
  id_value (ix id) -> id_value (iy id) -> id_skipped id = negb (valid_id id).
Proof.
  unfold id_value, id_skipped, valid_id. intros Hx Hy.
  rewrite negb_andb.
  f_equal; apply eq_true_iff_eq; rewrite negb_true_iff, Z.ltb_lt, Z.ltb_ge; lia.
Qed.

Lemma count_validIDs_valid (ids : IndexList) :
  Forall (fun id => id_value (ix id) /\ id_value (iy id)) ids ->
  count_validIDs ids = valid_count ids.
Proof.
  intro Hv. unfold count_validIDs, valid_count. f_equal. apply filter_ext_in.
  intros id Hin. rewrite Forall_forall in Hv. destruct (Hv id Hin).
  rewrite id_value_skipped by assumption. apply negb_involutive.
Qed.

Lemma gate_respected_other (r : Aspect) :
  ~ In (state r) id_stage_states -> gate_respected r.
Proof. intros H H'. contradiction. Qed.

(** The gate of [Run], lines 269 to 286, on the identifiers the
    identification stage returns. *)
Lemma Run_fiducials_gate (s : Aspect) :
  (length (mDistances (cfg s)) <= 14)%nat ->
  (length (nDistances (cfg s)) <= 14)%nat ->
  gate_respected (Run_fiducials s)
  /\ (3 <= zlength (pixelFiducials (FindPixelFiducials s)) ->
      state (Run_fiducials s)
      = gated_state
          (valid_count (fiducialIDs (FindFiducialIDs (FindPixelFiducials s))))).
Proof.
  intros Hm Hn. unfold gate_respected, Run_fiducials. cbv zeta.
  destruct (FindPixelFiducials_shape s) as (l & ->).
  pose proof (FindFiducialIDs_values (set_pixelFiducials l s) Hm Hn) as Hv.
  apply count_validIDs_valid in Hv.
  destruct (FindFiducialIDs_shape (set_pixelFiducials l s))
    as (ids & rp & cp & E & _).
  rewrite E in *. clear E.
  destruct (FindMapping_shape
              (set_fiducialIDs ids
                 (set_colPairs cp (set_rowPairs rp (set_pixelFiducials l s)))))
    as (a & b & c & d & ->).
  fields. unfold gated_state.
  destruct (Z.eqb_spec (zlength l) 0) as [E0|E0];
    [|destruct (Z.ltb_spec (zlength l) 3) as [E3|E3]]; fields.
  - split; [intro H; simpl in H; intuition discriminate|lia].
  - split; [intro H; simpl in H; intuition discriminate|lia].
  - destruct (count_validIDs ids =? 0) eqn:C0;
      [fields; rewrite <- Hv, C0; split; reflexivity|].
    destruct (count_validIDs ids <? 3) eqn:C3;
      fields; rewrite <- Hv, C0, C3; split; reflexivity.
Qed.

Lemma Run_subimage_gate (s : Aspect) :
  (length (mDistances (cfg s)) <= 14)%nat ->
  (length (nDistances (cfg s)) <= 14)%nat ->
  gate_respected (Run_subimage s).
Proof.
  intros Hm Hn. unfold Run_subimage. cbv zeta.
  match goal with |- context [set_solarImage ?i s] => generalize i; intro img end.
  match goal with |- context [mkPoint2i ?a ?b] => generalize (mkPoint2i a b); intro off end.
  fields.
  destruct (mat_empty img);
    [apply gate_respected_other; simpl; intuition discriminate|].
  destruct (_ || _);
    [apply gate_respected_other; simpl; intuition discriminate|].
  destruct (_ || _);
    [apply gate_respected_other; simpl; intuition discriminate|].
  apply Run_fiducials_gate; assumption.
Qed.

Lemma Run_center_gate (s : Aspect) :
  (length (mDistances (cfg s)) <= 14)%nat ->
  (length (nDistances (cfg s)) <= 14)%nat ->
  gate_respected (Run_center s).
Proof.
  intros Hm Hn. unfold Run_center. cbv zeta.
  destruct (FindPixelCenter_shape s) as (c & e & l & sl & ->). fields.
  destruct (_ =? 0);
    [apply gate_respected_other; simpl; intuition discriminate|].
  destruct (_ <? 4);
    [apply gate_respected_other; simpl; intuition discriminate|].
  destruct (center_out_of_frame _);
    [apply gate_respected_other; simpl; intuition discriminate|].
  destruct (error_too_large _);
    [apply gate_respected_other; simpl; intuition discriminate|].
  apply Run_subimage_gate; assumption.
Qed.

End MappingFit.

(** ** Two consecutive calls of [Run] *)

Section RunTwice.
Context {cv : OpenCV} {mem : Memory}.

Ltac shared_eqs H :=
  unfold shared in H;
  injection H as Hcfg Hframe HframeSize HframeMin HframeMax HsolarImage
    HsolarImageOffset HpixelCenter Hkernel Hmapping HconditionNumbers
    HlimbCrossings Hslopes HpixelFiducials HfiducialIDs.

Ltac to_second :=
  repeat match goal with
         | H : ?f ?a = ?f ?b |- _ => is_var a; is_var b; progress rewrite ?H
         end.

Lemma FindLimbCrossings_ext (s1 s2 : Aspect) :
  cfg s1 = cfg s2 -> frameMin s1 = frameMin s2 -> frameMax s1 = frameMax s2 ->
  forall chord past cr sl,
    FindLimbCrossings s1 chord past cr sl = FindLimbCrossings s2 chord past cr sl.
Proof.
  intros Hc Hmin Hmax chord past cr sl.
  unfold FindLimbCrossings, scan_chord, select_edges, fit_edges, edge_step,
    refine_edge, lowerThreshold, upperThreshold.
  rewrite Hc, Hmin, Hmax. reflexivity.
Qed.

Lemma fold_left_ext {A B} (f g : A -> B -> A) (l : list B) :
  (forall a b, f a b = g a b) -> forall a, fold_left f l a = fold_left g l a.
Proof.
  intro H. induction l as [|b l IH]; intro a; simpl; [reflexivity|].
  now rewrite H, IH.
Qed.

Lemma chord_fold_ext (s1 s2 : Aspect) :
  cfg s1 = cfg s2 -> frameMin s1 = frameMin s2 -> frameMax s1 = frameMax s2 ->
  frame s1 = frame s2 -> solarImageOffset s1 = solarImageOffset s2 ->
  forall search input dim positions acc,
    fold_left (chord_step s1 search input dim) positions acc
    = fold_left (chord_step s2 search input dim) positions acc.
Proof.
  intros Hc Hmin Hmax Hf Ho search input dim positions acc.
  apply fold_left_ext. intros a pos. unfold chord_step.
  rewrite (FindLimbCrossings_ext s1 s2 Hc Hmin Hmax), Hf, Ho. reflexivity.
Qed.

Lemma FindPixelCenter_agree (s1 s2 : Aspect) :
  shared s1 = shared s2 ->
  shared (FindPixelCenter s1) = shared (FindPixelCenter s2)
  /\ pixelError (FindPixelCenter s1) = pixelError (FindPixelCenter s2).
Proof.
  intro H. shared_eqs H.
  unfold shared, FindPixelCenter, search_mode, center_out_of_frame. cbv zeta.
  fields.
  rewrite !(chord_fold_ext s1 s2 Hcfg HframeMin HframeMax Hframe HsolarImageOffset).
  to_second. split; reflexivity.
Qed.

Lemma FindPixelFiducials_agree (s1 s2 : Aspect) :
  shared s1 = shared s2 ->
  shared (FindPixelFiducials s1) = shared (FindPixelFiducials s2).
Proof.
  intro H. shared_eqs H. unfold FindPixelFiducials. cbv zeta. to_second.
  destruct (cv_meanStdDev _) as [mean stddev].
  unfold shared. fields. to_second. reflexivity.
Qed.

Lemma FindFiducialIDs_agree (s1 s2 : Aspect) :
  shared s1 = shared s2 ->
  shared (FindFiducialIDs s1) = shared (FindFiducialIDs s2).
Proof.
  intro H. shared_eqs H.
  unfold FindFiducialIDs, second_pass, first_pass, rotatedFiducials.
  cbv zeta. to_second.
  destruct (find_pairs _ _ _) as [rp cp].
  unfold shared. fields. to_second. reflexivity.
Qed.

Lemma FindMapping_agree (s1 s2 : Aspect) :
  shared s1 = shared s2 ->
  shared (FindMapping s1) = shared (FindMapping s2).
Proof.
  intro H. shared_eqs H. unfold FindMapping, shared. cbv zeta. fields.
  to_second. reflexivity.
Qed.

Ltac agree_eqs A :=
  let H := fresh "H" in
  let HpixelError := fresh "HpixelError" in
  destruct A as [H HpixelError]; shared_eqs H.

Ltac solve_agree :=
  unfold agree, shared; fields; to_second; repeat split; reflexivity.

Lemma Run_fiducials_agree (s1 s2 : Aspect) :
  agree s1 s2 ->
  agree (Run_fiducials s1) (Run_fiducials s2)
  /\ state (Run_fiducials s1) = state (Run_fiducials s2).
Proof.
  intro A. unfold Run_fiducials. cbv zeta.
  assert (A1 : agree (FindPixelFiducials s1) (FindPixelFiducials s2)).
  { destruct A as [A E]. split; [apply FindPixelFiducials_agree, A|].
    destruct (FindPixelFiducials_shape s1) as (l1 & ->).
    destruct (FindPixelFiducials_shape s2) as (l2 & ->). exact E. }
  clear A. generalize dependent (FindPixelFiducials s2).
  generalize (FindPixelFiducials s1). clear s1 s2. intros s1 s2 A.
  assert (A1 : agree (FindFiducialIDs s1) (FindFiducialIDs s2)).
  { destruct A as [A E]. split; [apply FindFiducialIDs_agree, A|].
    destruct (FindFiducialIDs_shape s1) as (i1 & r1 & c1 & -> & _).
    destruct (FindFiducialIDs_shape s2) as (i2 & r2 & c2 & -> & _). exact E. }
  assert (Hp : pixelFiducials s1 = pixelFiducials s2)
    by (agree_eqs A; assumption).
  rewrite Hp.
  destruct (zlength (pixelFiducials s2) =? 0);
    [agree_eqs A; solve_agree|].
  destruct (zlength (pixelFiducials s2) <? 3);
    [agree_eqs A; solve_agree|].
  clear A Hp. generalize dependent (FindFiducialIDs s2).
  generalize (FindFiducialIDs s1). clear s1 s2. intros s1 s2 A.
  assert (A1 : agree (FindMapping s1) (FindMapping s2)).
  { destruct A as [A E]. split; [apply FindMapping_agree, A|].
    destruct (FindMapping_shape s1) as (a1 & b1 & c1 & d1 & ->).
    destruct (FindMapping_shape s2) as (a2 & b2 & c2 & d2 & ->). exact E. }
  assert (Hi : fiducialIDs s1 = fiducialIDs s2) by (agree_eqs A; assumption).
  rewrite Hi.
  destruct (count_validIDs (fiducialIDs s2) =? 0);
    [agree_eqs A; solve_agree|].
  destruct (count_validIDs (fiducialIDs s2) <? 3);
    [agree_eqs A; solve_agree|].
  clear A Hi. generalize dependent (FindMapping s2).
  generalize (FindMapping s1). clear s1 s2. intros s1 s2 A.
  agree_eqs A; solve_agree.
Qed.

Lemma Run_subimage_agree (s1 s2 : Aspect) :
  agree s1 s2 ->
  agree (Run_subimage s1) (Run_subimage s2)
  /\ state (Run_subimage s1) = state (Run_subimage s2).
Proof.
  intro A. unfold Run_subimage. cbv zeta. fields.
  pose proof A as A'. agree_eqs A'. to_second.
  match goal with
  | |- context [set_solarImage ?i s2] => generalize i; intro img
  end.
  match goal with
  | |- context [mkPoint2i ?a ?b] => generalize (mkPoint2i a b); intro off
  end.
  destruct (mat_empty img); [solve_agree|].
  destruct (_ || _); [solve_agree|].
  destruct (_ || _); [solve_agree|].
  apply Run_fiducials_agree. solve_agree.
Qed.

Lemma Run_center_agree (s1 s2 : Aspect) :
  shared s1 = shared s2 ->
  agree (Run_center s1) (Run_center s2)
  /\ state (Run_center s1) = state (Run_center s2).
Proof.
  intro H. unfold Run_center. cbv zeta.
  assert (A : agree (FindPixelCenter s1) (FindPixelCenter s2))
    by (apply FindPixelCenter_agree, H).
  assert (Hc : cfg s1 = cfg s2) by (shared_eqs H; assumption).
  assert (Hf : frameSize (FindPixelCenter s1) = frameSize (FindPixelCenter s2))
    by (agree_eqs A; assumption).
  assert (Hg : cfg (FindPixelCenter s1) = cfg (FindPixelCenter s2))
    by (agree_eqs A; assumption).
  clear H Hc. generalize dependent (FindPixelCenter s2).
  generalize (FindPixelCenter s1). clear s1 s2. intros s1 s2 A Hf Hg.
  assert (Hl : limbCrossings s1 = limbCrossings s2) by (agree_eqs A; assumption).
  assert (Ho : center_out_of_frame s1 = center_out_of_frame s2).
  { apply center_out_of_frame_ext; [agree_eqs A; assumption|exact Hf]. }
  assert (He : error_too_large s1 = error_too_large s2).
  { unfold error_too_large. destruct A as [_ E]. now rewrite E, Hg. }
  rewrite Hl, Ho, He.
  destruct (zlength (limbCrossings s2) =? 0); [agree_eqs A; solve_agree|].
  destruct (zlength (limbCrossings s2) <? 4); [agree_eqs A; solve_agree|].
  destruct (center_out_of_frame s2); [agree_eqs A; solve_agree|].
  destruct (error_too_large s2); [agree_eqs A; solve_agree|].
  apply Run_subimage_agree, A.
Qed.

Lemma Run_fiducials_static (s : Aspect) : static (Run_fiducials s) = static s.
Proof.
  unfold Run_fiducials. cbv zeta.
  destruct (FindPixelFiducials_shape s) as (l & ->).
  destruct (FindFiducialIDs_shape (set_pixelFiducials l s))
    as (ids & rp & cp & -> & _).
  destruct (FindMapping_shape
              (set_fiducialIDs ids
                 (set_colPairs cp (set_rowPairs rp (set_pixelFiducials l s)))))
    as (a & b & c & d & ->).
  fields.
  destruct (_ =? 0); [reflexivity|]. destruct (_ <? 3); [reflexivity|].
  destruct (_ =? 0); [reflexivity|]. destruct (_ <? 3); reflexivity.
Qed.

Lemma Run_subimage_static (s : Aspect) : static (Run_subimage s) = static s.
Proof.
  unfold Run_subimage. cbv zeta.
  match goal with |- context [set_solarImage ?i s] => generalize i; intro img end.
  match goal with |- context [mkPoint2i ?a ?b] => generalize (mkPoint2i a b); intro off end.
  fields.
  destruct (mat_empty img); [reflexivity|]. destruct (_ || _); [reflexivity|].
  destruct (_ || _); [reflexivity|]. rewrite Run_fiducials_static. reflexivity.
Qed.

Lemma Run_center_static (s : Aspect) : static (Run_center s) = static s.
Proof.
  unfold Run_center. cbv zeta.
  destruct (FindPixelCenter_shape s) as (c & e & l & sl & ->). fields.
  destruct (_ =? 0); [reflexivity|]. destruct (_ <? 4); [reflexivity|].
  destruct (center_out_of_frame _); [reflexivity|].
  destruct (error_too_large _); [reflexivity|].
  rewrite Run_subimage_static. reflexivity.
Qed.

(** The two shapes of [Run]. *)
Lemma Run_empty (s : Aspect) :
  state s = FRAME_EMPTY -> Run s = set_state FRAME_EMPTY (Run_clear s).
Proof.
  intro H. unfold Run. cbv zeta.
  replace (state (Run_clear s)) with (state s) by reflexivity.
  rewrite H. reflexivity.
Qed.

Lemma Run_loaded (s : Aspect) :
  state s <> FRAME_EMPTY ->
  Run s
  = if snd (calcMinMax (frame s)) <=? fst (calcMinMax (frame s))
    then set_state MIN_MAX_BAD (Run_base s)
    else if snd (calcMinMax (frame s)) - fst (calcMinMax (frame s)) <? 32
    then set_state DYNAMIC_RANGE_LOW (Run_base s)
    else Run_center (Run_base s).
Proof.
  intro H. unfold Run, Run_base. cbv zeta.
  replace (state (Run_clear s)) with (state s) by reflexivity.
  replace (frame (Run_clear s)) with (frame s) by reflexivity.
  destruct (AspectCode_eqb (state s) FRAME_EMPTY) eqn:E;
    [apply AspectCode_eqb_eq in E; contradiction|].
  destruct (calcMinMax (frame s)) as [mn mx]. reflexivity.
Qed.

Lemma Run_base_static (s : Aspect) :
  static (Run_base s) = static s /\ hint (Run_base s) = hint s
  /\ pixelError (Run_base s) = pixelError s.
Proof. unfold Run_base, Run_clear, static, hint. fields. repeat split. Qed.

(** Clearing and storing the min and max again changes nothing. *)
Lemma outputs_cleared_twice (x y : AspectCode) (s : Aspect) :
  outputs (set_state x (Run_clear (set_state y (Run_clear s))))
  = outputs (set_state x (Run_clear s)).
Proof. unfold outputs, Run_clear. fields. reflexivity. Qed.

Lemma outputs_based_twice (x y : AspectCode) (s : Aspect) :
  outputs (set_state x (Run_base (set_state y (Run_base s))))
  = outputs (set_state x (Run_base s)).
Proof. unfold outputs, Run_base, Run_clear. fields. reflexivity. Qed.

Lemma shared_Run_base (r s : Aspect) :
  static r = static s -> hint r = hint s ->
  shared (Run_base r) = shared (Run_base s).
Proof.
  unfold static, hint. intros Hs Hh.
  injection Hs as H1 H2 H3 H4. injection Hh as H5 H6 H7.
  unfold shared, Run_base, Run_clear. fields.
  rewrite H1, H2, H3, H4, H5, H6, H7. reflexivity.
Qed.

Lemma agree_outputs (r1 r2 : Aspect) :
  agree r1 r2 -> state r1 = state r2 -> outputs r1 = outputs r2.
Proof.
  intros [A E] S. unfold shared in A.
  injection A as A1 A2 A3 A4 A5 A6 A7 A8 A9 A10 A11 A12 A13 A14 A15.
  unfold outputs. now rewrite S, E, A8, A12, A14, A15, A10.
Qed.

Lemma Run_center_not_empty (b : Aspect) : state (Run_center b) <> FRAME_EMPTY.
Proof.
  destruct (Run_center_props b) as (H & _). revert H.
  generalize (state (Run_center b)). intros st H ->.
  simpl in H. intuition discriminate.
Qed.

(** With one memory for both calls. *)
Lemma Run_again (s : Aspect) :
  hint (Run s) = hint s -> outputs (Run (Run s)) = outputs (Run s).
Proof.
  destruct (AspectCode_eqb (state s) FRAME_EMPTY) eqn:E.
  { apply AspectCode_eqb_eq in E. intros _.
    rewrite (Run_empty s E).
    rewrite (Run_empty (set_state FRAME_EMPTY (Run_clear s)) eq_refl).
    exact (outputs_cleared_twice FRAME_EMPTY FRAME_EMPTY s). }
  assert (Hne : state s <> FRAME_EMPTY).
  { intro H. rewrite H in E. discriminate E. }
  clear E. pose proof (Run_loaded s Hne) as Hr.
  destruct (Run_base_static s) as (Bs & Bh & _).
  remember (Run s) as r eqn:Er. clear Er. intro Hh.
  remember (snd (calcMinMax (frame s)) <=? fst (calcMinMax (frame s))) as c1 eqn:E1.
  remember (snd (calcMinMax (frame s)) - fst (calcMinMax (frame s)) <? 32) as c2 eqn:E2.
  assert (Hfr : frame r = frame s /\ state r <> FRAME_EMPTY /\ static r = static s).
  { rewrite Hr. destruct c1; [|destruct c2].
    - unfold static, Run_base, Run_clear. fields.
      split; [reflexivity|]. split; [discriminate|reflexivity].
    - unfold static, Run_base, Run_clear. fields.
      split; [reflexivity|]. split; [discriminate|reflexivity].
    - pose proof (Run_center_static (Run_base s)) as Cs. rewrite Bs in Cs.
      split; [unfold static in Cs; congruence|].
      split; [apply Run_center_not_empty|exact Cs]. }
  destruct Hfr as (Hfr & Hne' & Hst).
  rewrite (Run_loaded r Hne'), Hfr, <- E1, <- E2.
  destruct c1; [|destruct c2].
  - rewrite Hr. exact (outputs_based_twice MIN_MAX_BAD MIN_MAX_BAD s).
  - rewrite Hr. exact (outputs_based_twice DYNAMIC_RANGE_LOW DYNAMIC_RANGE_LOW s).
  - pose proof (shared_Run_base r s Hst Hh) as Hsh.
    destruct (Run_center_agree _ _ Hsh) as [A S].
    rewrite Hr at 2. apply agree_outputs; assumption.
Qed.

Lemma if_cases {T} (b1 b2 : bool) (x y z : Aspect) (t : T) (f : Aspect -> T) :
  f x = t -> f y = t -> f z = t ->
  f (if b1 then x else if b2 then y else z) = t.
Proof. destruct b1, b2; auto. Qed.

Lemma Run_static (s : Aspect) : static (Run s) = static s.
Proof.
  destruct (Run_base_static s) as (Hb & _ & _).
  destruct (AspectCode_eqb (state s) FRAME_EMPTY) eqn:E.
  - apply AspectCode_eqb_eq in E. rewrite (Run_empty s E). reflexivity.
  - assert (Hs : state s <> FRAME_EMPTY).
    { intro H. rewrite H in E. discriminate E. }
    rewrite (Run_loaded s Hs). apply if_cases; try exact Hb.
    rewrite Run_center_static. exact Hb.
Qed.

End RunTwice.

(** The calls of two memories. *)
Section TwoMemories.
Context {cv : OpenCV}.
Variables m1 m2 : Memory.

Lemma fold_left_ext_in {A B} (f g : A -> B -> A) (l : list B) :
  (forall a b, In b l -> f a b = g a b) ->
  forall a, fold_left f l a = fold_left g l a.
Proof.
  induction l as [|b l IH]; intros H a; simpl; [reflexivity|].
  rewrite (H a b) by now left. apply IH. intros; apply H. now right.
Qed.

Lemma chord_step_memory (s : Aspect) (search : bool) (input : Mat Z)
  (dim : bool) (acc : CenterLoop) (pos : Z) :
  past_end (Memory := m1) dim pos = past_end (Memory := m2) dim pos ->
  chord_step (mem := m1) s search input dim acc pos
  = chord_step (mem := m2) s search input dim acc pos.
Proof. intro H. unfold chord_step. rewrite H. reflexivity. Qed.

Lemma FindPixelCenter_memory (s : Aspect) :
  same_bytes s m1 m2 ->
  FindPixelCenter (mem := m1) s = FindPixelCenter (mem := m2) s.
Proof.
  unfold same_bytes, chord_input, chord_limit. intros [Hr Hc].
  unfold FindPixelCenter. cbv zeta.
  set (input := if search_mode s then frame s else solarImage s) in *.
  set (limit := if search_mode s then initialNumChords (cfg s)
                else chordsPerAxis (cfg s)) in *.
  assert (E0 : forall acc,
             fold_left (chord_step (mem := m1) s (search_mode s) input false)
               (chord_positions (mat_cols input) limit) acc
             = fold_left (chord_step (mem := m2) s (search_mode s) input false)
                 (chord_positions (mat_cols input) limit) acc).
  { intro acc. apply fold_left_ext_in. intros a pos Hin.
    apply chord_step_memory, Hc, Hin. }
  assert (E1 : forall acc,
             fold_left (chord_step (mem := m1) s (search_mode s) input true)
               (chord_positions (mat_rows input) limit) acc
             = fold_left (chord_step (mem := m2) s (search_mode s) input true)
                 (chord_positions (mat_rows input) limit) acc).
  { intro acc. apply fold_left_ext_in. intros a pos Hin.
    apply chord_step_memory, Hr, Hin. }
  rewrite !E0, !E1. reflexivity.
Qed.

Lemma Run_center_memory (s : Aspect) :
  same_bytes s m1 m2 ->
  Run_center (mem := m1) s = Run_center (mem := m2) s.
Proof.
  intro H. unfold Run_center. rewrite (FindPixelCenter_memory s H).
  reflexivity.
Qed.

Lemma Run_memory (s : Aspect) :
  same_bytes s m1 m2 -> Run (mem := m1) s = Run (mem := m2) s.
Proof.
  intro H. destruct (AspectCode_eqb (state s) FRAME_EMPTY) eqn:E.
  - apply AspectCode_eqb_eq in E.
    rewrite (Run_empty (mem := m1) s E), (Run_empty (mem := m2) s E).
    reflexivity.
  - assert (Hs : state s <> FRAME_EMPTY).
    { intro H0. rewrite H0 in E. discriminate E. }
    rewrite (Run_loaded (mem := m1) s Hs), (Run_loaded (mem := m2) s Hs).
    assert (Hb : same_bytes (Run_base s) m1 m2) by exact H.
    rewrite (Run_center_memory (Run_base s) Hb). reflexivity.
Qed.

Lemma chords_of_hint (r s : Aspect) :
  static r = static s -> hint r = hint s ->
  chord_input r = chord_input s /\ chord_limit r = chord_limit s.
Proof.
  unfold static, hint. intros Hs Hh.
  injection Hs as H1 H2 H3 H4. injection Hh as H5 H6 H7.
  unfold chord_input, chord_limit, search_mode, center_out_of_frame.
  rewrite H1, H2, H3, H5, H6. split; reflexivity.
Qed.

(** C3, amended.  Two consecutive calls of [Run] on the same loaded
    frame give the same outputs (state, pixelCenter, pixelError,
    limbCrossings, pixelFiducials, fiducialIDs, mapping) whenever the
    first call leaves the inter-frame hint, that is pixelCenter and the
    solar sub-image with its offset, as it found it, and the bytes that
    follow in memory the chords the calls cut, which the limb fit reads
    at index K, are the same during the two calls. *)
Theorem Run_twice (s : Aspect) :
  same_bytes s m1 m2 ->
  hint (Run (mem := m1) s) = hint s ->
  outputs (Run (mem := m2) (Run (mem := m1) s)) = outputs (Run (mem := m1) s).
Proof.
  intros Hb Hh.
  pose proof (Run_static (mem := m1) s) as Hst.
  pose proof (Run_again (mem := m1) s Hh) as Ha.
  remember (Run (mem := m1) s) as r eqn:Er. clear Er.
  destruct (chords_of_hint r s Hst Hh) as [Hi Hl].
  assert (Hr : same_bytes r m1 m2).
  { unfold same_bytes. rewrite Hi, Hl. exact Hb. }
  rewrite <- (Run_memory r Hr). exact Ha.
Qed.

End TwoMemories.

(** C3 as stated fails, also when the memory around the frame is the
    same for both calls: on [frame_corner] the first call searches the
    frame with 30 chords per axis and stores 120 crossings; the second
    call starts from the centre and the sub-image of the first, uses 10
    chords per axis and stores 40, and its centre differs in the last
    bits. *)
Lemma second_run_differs :
  let r1 := Run (cv := Backend.backend) (mem := Backend.zeros) (loaded frame_corner) in
  let r2 := Run (cv := Backend.backend) (mem := Backend.zeros) r1 in
  length (limbCrossings r1) = 120%nat
  /\ length (limbCrossings r2) = 40%nat
  /\ pixelCenter r2 <> pixelCenter r1
  /\ outputs r2 <> outputs r1.
Proof.
  vm_compute. repeat split; try reflexivity; intro H; discriminate H.
Qed.

Lemma Run_twice_witness :
  let s := loaded frame_band in
  let r := Run (cv := Backend.backend) (mem := Backend.zeros) s in
  state r = CENTER_OUT_OF_BOUNDS
  /\ length (limbCrossings r) = 60%nat
  /\ outputs (Run (cv := Backend.backend) (mem := Backend.zeros_below 40 255) r)
     = outputs r.
Proof.
  intros s r. split; [vm_compute; reflexivity|].
  split; [vm_compute; reflexivity|].
  apply (Run_twice (cv := Backend.backend) Backend.zeros
           (Backend.zeros_below 40 255) s).
  - split; intros pos H; vm_compute in H;
      repeat (destruct H as [<-|H]; [reflexivity|]); contradiction.
  - vm_compute. reflexivity.
Defined.

(** ** The identifiers that count *)

Section ValidIdentifiers.
Context {cv : OpenCV} {mem : Memory}.

Lemma holds_in_cases (P : Aspect -> Prop) (b1 b2 : bool) (x y z : Aspect) :
  P x -> P y -> P z -> P (if b1 then x else if b2 then y else z).
Proof. destruct b1, b2; auto. Qed.

Lemma Run_gate (s : Aspect) :
  (length (mDistances (cfg s)) <= 14)%nat ->
  (length (nDistances (cfg s)) <= 14)%nat ->
  gate_respected (Run s).
Proof.
  intros Hm Hn. destruct (AspectCode_eqb (state s) FRAME_EMPTY) eqn:E.
  - apply AspectCode_eqb_eq in E. rewrite (Run_empty s E).
    apply gate_respected_other. simpl. intuition discriminate.
  - assert (Hs : state s <> FRAME_EMPTY).
    { intro H. rewrite H in E. discriminate E. }
    rewrite (Run_loaded s Hs). apply holds_in_cases.
    + apply gate_respected_other. simpl. intuition discriminate.
    + apply gate_respected_other. simpl. intuition discriminate.
    + apply Run_center_gate; assumption.
Qed.

(** C7.  After the identification stage of an object with the
    constructor's 14-entry distance tables, the fiducials the code skips
    (either identifier coordinate below -10) are exactly those with an
    identifier coordinate <= -10: the count of the gate is the number of
    identifiers valid on both axes, and each fit of the mapping collects
    its points from exactly the fiducials with such an identifier.  The
    gate of [Run] acts on that number: once three fiducials are found,
    the fiducial stages of [Run] end in NO_IDS when no identifier is
    valid, in FEW_IDS when one or two are, and in NO_ERROR, after the
    mapping fit, when three or more are; and whenever [Run] returns one
    of these three states, it is the state the number of valid
    identifiers among the [fiducialIDs] it leaves gates. *)
Theorem mapping_fit_uses_valid_ids (s : Aspect) :
  (length (mDistances (cfg s)) <= 14)%nat ->
  (length (nDistances (cfg s)) <= 14)%nat ->
  let r := FindFiducialIDs s in
  (forall id, In id (fiducialIDs r) ->
     id_skipped id = true <-> (ix id <= -10 \/ iy id <= -10))
  /\ count_validIDs (fiducialIDs r) = zlength (filter valid_id (fiducialIDs r))
  /\ (forall dim,
       fit_points dim (pixelFiducials r) (fiducialIDs r)
       = valid_fit_points dim (pixelFiducials r) (fiducialIDs r))
  /\ mapping (FindMapping r)
     = (let p0 := valid_fit_points 0 (pixelFiducials r) (fiducialIDs r) in
        let p1 := valid_fit_points 1 (pixelFiducials r) (fiducialIDs r) in
        let fit0 := LinearFit (map fst p0) (map snd p0) [] in
        let fit1 := LinearFit (map fst p1) (map snd p1) fit0 in
        [fit_at fit0 0; fit_at fit0 1; fit_at fit1 0; fit_at fit1 1])
  /\ (3 <= zlength (pixelFiducials (FindPixelFiducials s)) ->
      state (Run_fiducials s)
      = gated_state
          (valid_count (fiducialIDs (FindFiducialIDs (FindPixelFiducials s)))))
  /\ (In (state (Run s)) id_stage_states ->
      state (Run s) = gated_state (valid_count (fiducialIDs (Run s)))).
Proof.
  intros Hm Hn r.
  pose proof (FindFiducialIDs_values s Hm Hn) as Hv. fold r in Hv.
  assert (Hs : forall id, In id (fiducialIDs r) ->
                 id_skipped id = negb (valid_id id)).
  { rewrite Forall_forall in Hv. intros id Hin.
    destruct (Hv id Hin). now apply id_value_skipped. }
  assert (Hk : forall k, id_skipped (id_at (fiducialIDs r) k)
                         = negb (valid_id (id_at (fiducialIDs r) k))).
  { intro k. unfold id_at.
    apply (znth_Forall (fun id => id_skipped id = negb (valid_id id)));
      [reflexivity|]. rewrite Forall_forall. exact Hs. }
  assert (Hfit : forall dim,
             fit_points dim (pixelFiducials r) (fiducialIDs r)
             = valid_fit_points dim (pixelFiducials r) (fiducialIDs r)).
  { intro dim. unfold fit_points, valid_fit_points. apply flat_map_ext.
    intro k. rewrite Hk. destruct (valid_id _); cbn [negb]; [|reflexivity].
    destruct (dim =? 0); reflexivity. }
  split; [|split; [|split; [|split; [|split]]]].
  - intros id Hin. rewrite (Hs id Hin), negb_true_iff.
    unfold valid_id. rewrite andb_false_iff, !Z.ltb_ge. reflexivity.
  - unfold count_validIDs. f_equal. apply filter_ext_in.
    intros id Hin. rewrite (Hs id Hin). apply negb_involutive.
  - exact Hfit.
  - unfold FindMapping. fields. rewrite !Hfit. reflexivity.
  - exact (proj2 (Run_fiducials_gate s Hm Hn)).
  - exact (Run_gate s Hm Hn).
Qed.

End ValidIdentifiers.

Lemma mapping_fit_uses_valid_ids_witness :
  let r := FindFiducialIDs (cv := Backend.backend) (with_fiducials fiducials_tie) in
  count_validIDs (fiducialIDs r) = 2
  /\ length (valid_fit_points 0 (pixelFiducials r) (fiducialIDs r)) = 2%nat.
Proof.
  intro r.
  assert (Hm : (length (mDistances (cfg (with_fiducials fiducials_tie))) <= 14)%nat)
    by (vm_compute; lia).
  assert (Hn : (length (nDistances (cfg (with_fiducials fiducials_tie))) <= 14)%nat)
    by (vm_compute; lia).
  destruct (mapping_fit_uses_valid_ids (cv := Backend.backend)
              (mem := Backend.zeros) (with_fiducials fiducials_tie) Hm Hn)
    as (_ & Hc & Hf & _).
  fold r in Hc, Hf. split.
  - rewrite Hc. vm_compute. reflexivity.
  - rewrite <- (Hf 0). vm_compute. reflexivity.
Defined.
